(** * Verification of the MetaTFT match-tracker pipeline (src/tools/tracker.ts)

    The development embeds the tracker tool of the TFT MCP server:
    the stage normaliser [formatStageData], the per-round aggregator
    [formatAllStages], the key-stage selector [findKeyProgressionStages],
    the carry ranking [calculateCarryStats] and the handler
    [handleTftMatchTracker], together with the name resolver of
    src/datadragon.ts that they call.

    Modelling conventions.
    - Objects follow the TypeScript interfaces of the source.  A field that
      the interface marks optional, or that the code itself guards
      ([x?.y], [x || d], [x !== undefined]), is an [option]; [None] is the
      JavaScript [undefined].  A field that the interface requires and the
      code reads unguarded (the name of a unit) is present, and the elements
      of a decoded stage array have the declared type, as the cast of the
      source takes them.
    - A [Record<string, T>] that is only enumerated ([Object.values],
      [Object.entries], [Object.keys]) is the list of its entries in
      enumeration order.
    - JavaScript numbers are mathematical integers ([Z]); [NaN] is explicit
      where [parseInt] can produce it.  Strings are byte strings; case
      mapping and white space are the ASCII ones.
    - The text of a reply ([JSON.stringify]) is represented by the object it
      serialises.
    - Platform built-ins that are not code of the repository ([JSON.parse],
      [gunzipSync]) and the network are parameters. *)

From Stdlib Require Import ZArith String Ascii List Bool Lia.
From Stdlib Require Import Sorting.Sorted Sorting.Permutation.
From Stdlib Require OrderedTypeEx.
From stdpp Require Import base option list gmap strings pretty.

Local Open Scope Z_scope.

(** ** JavaScript primitives used by the tracker *)

Module JS.

(** A number as [parseInt] returns it. *)
Inductive number : Type :=
| NaN : number
| Num : Z -> number.

Definition code (c : ascii) : Z := Z.of_N (N_of_ascii c).

Definition is_digit (c : ascii) : bool := (48 <=? code c) && (code c <=? 57).
Definition is_upper (c : ascii) : bool := (65 <=? code c) && (code c <=? 90).
Definition is_lower (c : ascii) : bool := (97 <=? code c) && (code c <=? 122).

(** StrWhiteSpaceChar restricted to ASCII: TAB, LF, VT, FF, CR, SP. *)
Definition is_space (c : ascii) : bool :=
  ((9 <=? code c) && (code c <=? 13)) || (code c =? 32).

(** LineTerminator restricted to ASCII: LF and CR. *)
Definition is_newline (c : ascii) : bool := (code c =? 10) || (code c =? 13).

Definition to_lower_char (c : ascii) : ascii :=
  if is_upper c then ascii_of_N (N_of_ascii c + 32) else c.

(** [String.prototype.toLowerCase]. *)
Fixpoint toLowerCase (s : string) : string :=
  match s with
  | EmptyString => EmptyString
  | String c s' => String (to_lower_char c) (toLowerCase s')
  end.

Fixpoint skip_spaces (s : string) : string :=
  match s with
  | String c s' => if is_space c then skip_spaces s' else s
  | EmptyString => EmptyString
  end.

(** Value of [c] as a digit of the given radix. *)
Definition digit_val (radix : Z) (c : ascii) : option Z :=
  let v :=
    if is_digit c then Some (code c - 48)
    else if is_lower c then Some (code c - 87)
    else if is_upper c then Some (code c - 55)
    else None in
  match v with
  | Some d => if d <? radix then Some d else None
  | None => None
  end.

(** Longest prefix of radix digits, [None] when it is empty. *)
Fixpoint parse_digits (radix : Z) (acc : option Z) (s : string) : option Z :=
  match s with
  | String c s' =>
      match digit_val radix c with
      | Some d => parse_digits radix (Some (radix * default 0 acc + d)) s'
      | None => acc
      end
  | EmptyString => acc
  end.

Definition strip_sign (s : string) : Z * string :=
  match s with
  | String "-" s' => (-1, s')
  | String "+" s' => (1, s')
  | _ => (1, s)
  end.

Definition strip_hex_prefix (s : string) : Z * string :=
  match s with
  | String "0" (String "x" s') => (16, s')
  | String "0" (String "X" s') => (16, s')
  | _ => (10, s)
  end.

(** [parseInt(s)] without a radix argument. *)
Definition parseInt (s : string) : number :=
  let '(sign, s1) := strip_sign (skip_spaces s) in
  let '(radix, s2) := strip_hex_prefix s1 in
  match parse_digits radix None s2 with
  | Some n => Num (sign * n)
  | None => NaN
  end.

(** [ToString] of a value that is a string or [undefined]. *)
Definition ToString (v : option string) : string :=
  match v with
  | Some s => s
  | None => "undefined"
  end.

(** [n || d] for a number [n]: [NaN] and [0] are falsy. *)
Definition number_or (n : number) (d : Z) : Z :=
  match n with
  | Num z => if z =? 0 then d else z
  | NaN => d
  end.

(** [z || d] for an integer. *)
Definition Z_or (z d : Z) : Z := if z =? 0 then d else z.

(** [s || d] for a string or [undefined]: the empty string is falsy. *)
Definition string_or (v : option string) (d : string) : string :=
  match v with
  | Some EmptyString => d
  | Some s => s
  | None => d
  end.

(** Truthiness of a string or [undefined]. *)
Definition truthy_string (v : option string) : bool :=
  match v with
  | Some EmptyString => false
  | Some _ => true
  | None => false
  end.

(** [String.prototype.includes]. *)
Fixpoint includes (hay needle : string) : bool :=
  String.prefix needle hay ||
  match hay with
  | String _ hay' => includes hay' needle
  | EmptyString => false
  end.

Fixpoint drop_trailing_spaces (s : string) : string :=
  match s with
  | String c s' =>
      match drop_trailing_spaces s' with
      | EmptyString => if is_space c then EmptyString else String c EmptyString
      | r => String c r
      end
  | EmptyString => EmptyString
  end.

(** [String.prototype.trim]. *)
Definition trim (s : string) : string := drop_trailing_spaces (skip_spaces s).

(** [Array.prototype.sort] with a comparator.  The sort is stable, so with
    a consistent comparator its result is the one of this insertion sort:
    an element moves behind exactly those it compares greater than. *)
Section Sort.
Context {A : Type} (cmp : A -> A -> Z).

Fixpoint sort_insert (x : A) (l : list A) : list A :=
  match l with
  | [] => [x]
  | y :: l' => if 0 <? cmp x y then y :: sort_insert x l' else x :: l
  end.

Fixpoint sort (l : list A) : list A :=
  match l with
  | [] => []
  | x :: l' => sort_insert x (sort l')
  end.
End Sort.

(** [Math.round(t / c)] for integers [t] and [c > 0]: the quotient rounded
    to the nearest integer, halves up. *)
Definition round_div (t c : Z) : Z := (2 * t + c) / (2 * c).

(** [Math.max] of two integers. *)
Definition Math_max (a b : Z) : Z := Z.max a b.

(** [Array.prototype.slice(0, n)]. *)
Definition slice0 {A} (n : nat) (l : list A) : list A := firstn n l.

(** *** Own properties of an object built by assignment

    The keys of an ordinary object enumerate array indices first, in
    numeric order, then the other strings in creation order. *)

(** The array index a key denotes: the key is the canonical decimal text of
    an integer below [2^32 - 1]. *)
Definition array_index (k : string) : option Z :=
  match parse_digits 10 None k with
  | Some n => if String.eqb (pretty n) k && (n <? 4294967295) then Some n else None
  | None => None
  end.

(** Names every object literal inherits from [Object.prototype]; each is
    bound to a truthy value. *)
Definition Object_prototype_keys : list string :=
  [ "constructor"; "__defineGetter__"; "__defineSetter__"; "hasOwnProperty";
    "__lookupGetter__"; "__lookupSetter__"; "isPrototypeOf";
    "propertyIsEnumerable"; "toString"; "valueOf"; "__proto__";
    "toLocaleString" ].

Definition inherited (k : string) : bool :=
  existsb (String.eqb k) Object_prototype_keys.

Section Object.
Context {V : Type}.

(** An object as the list of its own entries in enumeration order. *)
Definition object : Type := list (string * V).

Fixpoint get_own (o : object) (k : string) : option V :=
  match o with
  | [] => None
  | (k', v) :: o' => if String.eqb k' k then Some v else get_own o' k
  end.

Fixpoint update_own (o : object) (k : string) (v : V) : object :=
  match o with
  | [] => []
  | (k', v') :: o' =>
      if String.eqb k' k then (k', v) :: o' else (k', v') :: update_own o' k v
  end.

(** Position of a new array-index key: behind the smaller indices. *)
Fixpoint insert_index (i : Z) (k : string) (v : V) (o : object) : object :=
  match o with
  | [] => [(k, v)]
  | (k', v') :: o' =>
      match array_index k' with
      | Some j => if j <? i then (k', v') :: insert_index i k v o'
                  else (k, v) :: o
      | None => (k, v) :: o
      end
  end.

(** [o[k] = v]. *)
Definition set_own (o : object) (k : string) (v : V) : object :=
  match get_own o k with
  | Some _ => update_own o k v
  | None =>
      match array_index k with
      | Some i => insert_index i k v o
      | None => o ++ [(k, v)]
      end
  end.
End Object.
Arguments object : clear implicits.

End JS.


(** ** Name resolution (src/datadragon.ts) *)

Module DataDragon.

(** U+2028 and U+2029 in UTF-8: the two line terminators outside ASCII. *)
Definition LS : string :=
  String (ascii_of_nat 226) (String (ascii_of_nat 128) (String (ascii_of_nat 168) "")).
Definition PS : string :=
  String (ascii_of_nat 226) (String (ascii_of_nat 128) (String (ascii_of_nat 169) "")).

(** The text [(.+)] captures: everything up to the next line terminator. *)
Fixpoint dot_run (s : string) : string :=
  match s with
  | String c s' =>
      if JS.is_newline c || String.prefix LS s || String.prefix PS s then ""
      else String c (dot_run s')
  | EmptyString => ""
  end.

Fixpoint skip_digits (s : string) : string :=
  match s with
  | String c s' => if JS.is_digit c then skip_digits s' else s
  | EmptyString => ""
  end.

Definition nonempty (s : string) : option string :=
  match s with
  | EmptyString => None
  | _ => Some s
  end.

(** [/TFT\d+_(.+)/] tried at the start of [s]; the result is group 1. *)
Definition match_set_prefix_here (s : string) : option string :=
  match s with
  | String "T" (String "F" (String "T" (String d r))) =>
      if JS.is_digit d then
        match skip_digits r with
        | String "_" rest => nonempty (dot_run rest)
        | _ => None
        end
      else None
  | _ => None
  end.

(** [/TFT_Item_(.+)/] tried at the start of [s]. *)
Definition match_item_prefix_here (s : string) : option string :=
  if String.prefix "TFT_Item_" s
  then nonempty (dot_run (String.substring 9 (String.length s - 9) s))
  else None.

(** [String.prototype.match] with an unanchored pattern: leftmost match. *)
Fixpoint search (here : string -> option string) (s : string) : option string :=
  match here s with
  | Some g => Some g
  | None =>
      match s with
      | String _ s' => search here s'
      | EmptyString => None
      end
  end.

(** [replace(/([A-Z])/g, ' $1')]. *)
Fixpoint space_capitals (s : string) : string :=
  match s with
  | String c s' =>
      if JS.is_upper c then String " " (String c (space_capitals s'))
      else String c (space_capitals s')
  | EmptyString => ""
  end.

Section Caches.
Context (championsCache itemsCache : gmap string string).

Definition getChampionName (apiName : string) : string :=
  let key := JS.toLowerCase apiName in
  match championsCache !! key with
  | Some name => name
  | None =>
      match search match_set_prefix_here apiName with
      | Some g => g
      | None => apiName
      end
  end.

Definition getItemName (apiName : string) : string :=
  let key := JS.toLowerCase apiName in
  match itemsCache !! key with
  | Some name => name
  | None =>
      match search match_item_prefix_here apiName with
      | Some g => JS.trim (space_capitals g)
      | None => apiName
      end
  end.

End Caches.

End DataDragon.

(** ** Tracker payload (the interfaces of src/tools/tracker.ts) *)

Module BoardPiece.
Record t : Type := mk {
  name : string;
  level : option string;
  item_1 : option string;
  item_2 : option string;
  item_3 : option string }.
End BoardPiece.

Module UnitDamage.
Record t : Type := mk {
  name : string;
  damage : option Z;
  level : Z }.
End UnitDamage.

Module RoundType.
Record t : Type := mk {
  stage : string;
  name : string;
  type : string }.
End RoundType.

Module Xp.
Record t : Type := mk { level : Z }.
End Xp.

Module Me.
Record t : Type := mk {
  health : option string;
  gold : option string;
  xp : option Xp.t }.
End Me.

Module PlayerStatus.
Record t : Type := mk {
  health : Z;
  xp : Z;
  tag_line : option string }.
End PlayerStatus.

Module RoundOutcome.
Record t : Type := mk {
  outcome : string;
  tag_line : string }.
End RoundOutcome.

Module Opponent.
Record t : Type := mk {
  name : string;
  tag_line : string }.
End Opponent.

Module MatchInfo.
Record t : Type := mk {
  round_type : option RoundType.t;
  round_outcome : option (JS.object RoundOutcome.t);
  opponent : option Opponent.t }.
End MatchInfo.

Module Metrics.
Record t : Type := mk {
  board_strength : option Z;
  board_cost : option Z;
  bench_cost : option Z }.
End Metrics.

Module ShopPiece.
Record t : Type := mk { name : string }.
End ShopPiece.

Module Shop.
Record t : Type := mk { shop_pieces : option (JS.object ShopPiece.t) }.
End Shop.

Module TrackerStage.
Record t : Type := mk {
  board : option (option (JS.object BoardPiece.t));
  bench : option (option (JS.object BoardPiece.t));
  me : option Me.t;
  roster : option (option (JS.object PlayerStatus.t));
  match_info : option MatchInfo.t;
  local_player_damage : option (option (JS.object UnitDamage.t));
  gold_earned : option Z;
  rerolls : option Z;
  metrics : option Metrics.t;
  shops : option (list Shop.t) }.

(** [stage.board?.board_pieces] and its siblings: the inner field of an
    optional one-field object. *)
Definition board_pieces (s : t) : option (JS.object BoardPiece.t) := mjoin (board s).
Definition bench_pieces (s : t) : option (JS.object BoardPiece.t) := mjoin (bench s).
Definition player_status (s : t) : option (JS.object PlayerStatus.t) := mjoin (roster s).
Definition units (s : t) : option (JS.object UnitDamage.t) := mjoin (local_player_damage s).
Definition round_type (s : t) : option RoundType.t :=
  match match_info s with
  | Some mi => MatchInfo.round_type mi
  | None => None
  end.
End TrackerStage.

(** ** Formatted output *)

Module BoardUnit.
Record t : Type := mk {
  champion : string;
  stars : Z;
  items : list string }.
End BoardUnit.

Module BenchUnit.
Record t : Type := mk {
  champion : string;
  stars : Z }.
End BenchUnit.

Module DamageUnit.
Record t : Type := mk {
  champion : string;
  damage : option Z;
  stars : Z }.
End DamageUnit.

Module PlayerInfo.
Record t : Type := mk {
  name : string;
  health : Z;
  level : Z }.
End PlayerInfo.

Module Player.
Record t : Type := mk {
  health : Z;
  gold : Z;
  level : Z }.
End Player.

Module FormattedMetrics.
Record t : Type := mk {
  boardStrength : option Z;
  boardCost : option Z;
  benchCost : option Z }.
End FormattedMetrics.

(** The object [formatStageData] builds; a key that is never assigned is
    [None]. *)
Module Formatted.
Record t : Type := mk {
  stageNumber : Z;
  stage : option string;
  roundType : option string;
  roundName : option string;
  opponent : option string;
  player : option Player.t;
  goldEarned : option Z;
  rerolls : option Z;
  board : option (list BoardUnit.t);
  bench : option (list BenchUnit.t);
  unitDamage : option (list DamageUnit.t);
  allPlayers : option (list PlayerInfo.t);
  shop : option (list string);
  metrics : option FormattedMetrics.t }.
End Formatted.

(** One entry of the compact list [formatAllStages] builds. *)
Module RoundSummary.
Record t : Type := mk {
  round : Z;
  stage : option string;
  type : option string;
  hp : option Z;
  gold : option Z;
  level : option Z;
  boardSize : option Z;
  income : option Z;
  rerolls : option Z;
  outcome : option string }.
End RoundSummary.

(** Accumulator entry of [calculateCarryStats]. *)
Module Stats.
Record t : Type := mk {
  total : Z;
  count : Z;
  maxStars : Z }.
End Stats.

Module Carry.
Record t : Type := mk {
  champion : string;
  totalDamage : Z;
  avgDamage : Z;
  roundsPlayed : Z;
  maxStars : Z }.
End Carry.

(** ** The tracker functions *)

(** [a[i]] for an array and an integer [i]; [None] is [undefined]. *)
Definition index {A : Type} (l : list A) (i : Z) : option A :=
  if i <? 0 then None else l !! Z.to_nat i.

(** [Object.values]. *)
Definition Object_values {V : Type} (o : JS.object V) : list V := map snd o.

(** [Object.keys]. *)
Definition Object_keys {V : Type} (o : JS.object V) : list string := map fst o.

Definition push_if_truthy (i : option string) (items : list string) : list string :=
  match i with
  | Some s => if JS.truthy_string i then items ++ [s] else items
  | None => items
  end.

Definition extractItems (piece : BoardPiece.t) : list string :=
  let items := [] in
  let items := push_if_truthy (BoardPiece.item_1 piece) items in
  let items := push_if_truthy (BoardPiece.item_2 piece) items in
  let items := push_if_truthy (BoardPiece.item_3 piece) items in
  items.

(** [u.damage && u.damage > 0]. *)
Definition positive_damage (u : UnitDamage.t) : bool :=
  match UnitDamage.damage u with
  | Some d => negb (d =? 0) && (0 <? d)
  | None => false
  end.

(** [u.damage || 0]. *)
Definition damage_or_0 (u : UnitDamage.t) : Z :=
  match UnitDamage.damage u with
  | Some d => JS.Z_or d 0
  | None => 0
  end.

Definition keyRounds : list string := ["2-1"; "3-2"; "4-2"; "5-1"; "6-1"].

(** [stages[i].match_info?.round_type?.stage]. *)
Definition stageInfo (stage : TrackerStage.t) : option string :=
  RoundType.stage <$> TrackerStage.round_type stage.

Section Tracker.
Context (championsCache itemsCache : gmap string string).
(** [getArgs().gameName]. *)
Context (gameName : string).

Abbreviation getChampionName := (DataDragon.getChampionName championsCache).
Abbreviation getItemName := (DataDragon.getItemName itemsCache).

(** [parseInt(u.level) || 1]. *)
Definition stars_of (u : BoardPiece.t) : Z :=
  JS.number_or (JS.parseInt (JS.ToString (BoardPiece.level u))) 1.

(** The mapping of a board piece, written inline in [formatStageData] and
    again in [handleTftMatchTracker]. *)
Definition board_unit (u : BoardPiece.t) : BoardUnit.t :=
  {| BoardUnit.champion := getChampionName (BoardPiece.name u);
     BoardUnit.stars := stars_of u;
     BoardUnit.items := map getItemName (extractItems u) |}.

Definition bench_unit (u : BoardPiece.t) : BenchUnit.t :=
  {| BenchUnit.champion := getChampionName (BoardPiece.name u);
     BenchUnit.stars := stars_of u |}.

Definition damage_unit (u : UnitDamage.t) : DamageUnit.t :=
  {| DamageUnit.champion := getChampionName (UnitDamage.name u);
     DamageUnit.damage := UnitDamage.damage u;
     DamageUnit.stars := UnitDamage.level u |}.

Definition player_info (e : string * PlayerStatus.t) : PlayerInfo.t :=
  let '(name, data) := e in
  {| PlayerInfo.name :=
       if JS.truthy_string (PlayerStatus.tag_line data)
       then name +:+ "#" +:+ JS.ToString (PlayerStatus.tag_line data)
       else name;
     PlayerInfo.health := PlayerStatus.health data;
     PlayerInfo.level := PlayerStatus.xp data |}.

Definition player_of (me : Me.t) : Player.t :=
  {| Player.health := JS.number_or (JS.parseInt (JS.ToString (Me.health me))) 0;
     Player.gold := JS.number_or (JS.parseInt (JS.ToString (Me.gold me))) 0;
     Player.level :=
       match Me.xp me with
       | Some xp => JS.Z_or (Xp.level xp) 0
       | None => 0
       end |}.

(** A list that is assigned only when it has elements. *)
Definition when_nonempty {A : Type} (l : list A) : option (list A) :=
  match l with
  | [] => None
  | _ => Some l
  end.

Definition formatStageData (stages : list TrackerStage.t) (stageIndex : Z)
  : option Formatted.t :=
  match index stages stageIndex with
  | None => None
  | Some stage =>
      Some {|
        Formatted.stageNumber := stageIndex + 1;
        Formatted.stage := RoundType.stage <$> TrackerStage.round_type stage;
        Formatted.roundType := RoundType.type <$> TrackerStage.round_type stage;
        Formatted.roundName := RoundType.name <$> TrackerStage.round_type stage;
        Formatted.opponent :=
          (fun o => Opponent.name o +:+ "#" +:+ Opponent.tag_line o)
            <$> (TrackerStage.match_info stage ≫= MatchInfo.opponent);
        Formatted.player := player_of <$> TrackerStage.me stage;
        Formatted.goldEarned := TrackerStage.gold_earned stage;
        Formatted.rerolls := TrackerStage.rerolls stage;
        Formatted.board :=
          TrackerStage.board_pieces stage ≫= fun o =>
            when_nonempty (map board_unit (Object_values o));
        Formatted.bench :=
          TrackerStage.bench_pieces stage ≫= fun o =>
            when_nonempty (map bench_unit (Object_values o));
        Formatted.unitDamage :=
          TrackerStage.units stage ≫= fun o =>
            let units :=
              JS.sort (fun a b => damage_or_0 b - damage_or_0 a)
                (List.filter positive_damage (Object_values o)) in
            when_nonempty (map damage_unit units);
        Formatted.allPlayers :=
          (fun o =>
             JS.sort (fun a b => PlayerInfo.health b - PlayerInfo.health a)
               (map player_info o))
            <$> TrackerStage.player_status stage;
        Formatted.shop :=
          TrackerStage.shops stage ≫= fun shops =>
            last shops ≫= fun lastShop =>
              (fun o => map (fun s => getChampionName (ShopPiece.name s)) (Object_values o))
                <$> Shop.shop_pieces lastShop;
        Formatted.metrics :=
          (fun m =>
             {| FormattedMetrics.boardStrength := Metrics.board_strength m;
                FormattedMetrics.boardCost := Metrics.board_cost m;
                FormattedMetrics.benchCost := Metrics.bench_cost m |})
            <$> TrackerStage.metrics stage
      |}
  end.

(** The callback of [stages.map] in [formatAllStages]. *)
Definition round_summary (idx : nat) (stage : TrackerStage.t) : RoundSummary.t :=
  {| RoundSummary.round := Z.of_nat idx + 1;
     RoundSummary.stage := RoundType.stage <$> TrackerStage.round_type stage;
     RoundSummary.type := RoundType.type <$> TrackerStage.round_type stage;
     RoundSummary.hp := Player.health <$> (player_of <$> TrackerStage.me stage);
     RoundSummary.gold := Player.gold <$> (player_of <$> TrackerStage.me stage);
     RoundSummary.level := Player.level <$> (player_of <$> TrackerStage.me stage);
     RoundSummary.boardSize :=
       (fun o : JS.object BoardPiece.t => Z.of_nat (length (Object_keys o)))
         <$> TrackerStage.board_pieces stage;
     RoundSummary.income := TrackerStage.gold_earned stage;
     RoundSummary.rerolls :=
       match TrackerStage.rerolls stage with
       | Some r => if 0 <? r then Some r else None
       | None => None
       end;
     RoundSummary.outcome :=
       match TrackerStage.match_info stage ≫= MatchInfo.round_outcome with
       | Some o =>
           let gameName := JS.toLowerCase gameName in
           match List.find (fun e : string * RoundOutcome.t =>
                              JS.includes (JS.toLowerCase (fst e)) gameName) o with
           | Some myOutcome => Some (RoundOutcome.outcome (snd myOutcome))
           | None => None
           end
       | None => None
       end
  |}.

Definition formatAllStages (stages : list TrackerStage.t) : list RoundSummary.t :=
  imap round_summary stages.

(** Body of the scan loop of [findKeyProgressionStages]; the state is
    [keyIndices] and [found]. *)
Definition key_step (i : Z) (stage : TrackerStage.t)
    (st : list Z * list string) : list Z * list string :=
  let '(keyIndices, found) := st in
  match stageInfo stage with
  | Some s =>
      if JS.truthy_string (Some s)
         && existsb (String.eqb s) keyRounds
         && negb (existsb (String.eqb s) found)
      then (keyIndices ++ [i], found ++ [s])
      else st
  | None => st
  end.

(** [for (let i = i0; i < stages.length; i++)] over the stages from [i0]. *)
Fixpoint key_loop (i : Z) (stages : list TrackerStage.t)
    (st : list Z * list string) : list Z * list string :=
  match stages with
  | [] => st
  | stage :: rest => key_loop (i + 1) rest (key_step i stage st)
  end.

Definition findKeyProgressionStages (stages : list TrackerStage.t) : list Z :=
  let '(keyIndices, _) := key_loop 0 stages ([], []) in
  let lastIndex := Z.of_nat (length stages) - 1 in
  match last keyIndices with
  | None => keyIndices ++ [lastIndex]
  | Some k => if k =? lastIndex then keyIndices else keyIndices ++ [lastIndex]
  end.

(** Body of the inner loop of [calculateCarryStats]. *)
Definition carry_step (damageByUnit : JS.object Stats.t) (unit : UnitDamage.t)
  : JS.object Stats.t :=
  if positive_damage unit then
    let d := default 0 (UnitDamage.damage unit) in
    let name := getChampionName (UnitDamage.name unit) in
    let damageByUnit :=
      match JS.get_own damageByUnit name with
      | Some _ => damageByUnit
      | None =>
          (* an inherited name reads as a truthy value: nothing is created *)
          if JS.inherited name then damageByUnit
          else JS.set_own damageByUnit name
                 {| Stats.total := 0; Stats.count := 0; Stats.maxStars := 0 |}
      end in
    match JS.get_own damageByUnit name with
    | Some stats =>
        JS.update_own damageByUnit name
          {| Stats.total := Stats.total stats + d;
             Stats.count := Stats.count stats + 1;
             Stats.maxStars := JS.Math_max (Stats.maxStars stats) (UnitDamage.level unit) |}
    | None => damageByUnit (* the writes land on the inherited object *)
    end
  else damageByUnit.

Definition carry_stage (damageByUnit : JS.object Stats.t) (stage : TrackerStage.t)
  : JS.object Stats.t :=
  match TrackerStage.units stage with
  | Some units => fold_left carry_step (Object_values units) damageByUnit
  | None => damageByUnit
  end.

Definition carry_entry (e : string * Stats.t) : Carry.t :=
  let '(name, stats) := e in
  {| Carry.champion := name;
     Carry.totalDamage := Stats.total stats;
     Carry.avgDamage := JS.round_div (Stats.total stats) (Stats.count stats);
     Carry.roundsPlayed := Stats.count stats;
     Carry.maxStars := Stats.maxStars stats |}.

(** The accumulator [damageByUnit] when the loops of [calculateCarryStats]
    have run. *)
Definition damageByUnit (stages : list TrackerStage.t) : JS.object Stats.t :=
  fold_left carry_stage stages [].

Definition calculateCarryStats (stages : list TrackerStage.t) : list Carry.t :=
  JS.sort (fun a b => Carry.totalDamage b - Carry.totalDamage a)
    (map carry_entry (damageByUnit stages)).

End Tracker.

(** ** The handler *)

(** A thrown value; the handler observes only [error.message]. *)
Inductive exn : Type :=
| Error (message : string).

(** A computation that returns or throws. *)
Definition M (A : Type) : Type := exn + A.
Definition ret {A : Type} (a : A) : M A := inr a.
Definition throw {A : Type} (e : exn) : M A := inl e.
Definition bind {A B : Type} (m : M A) (k : A -> M B) : M B :=
  match m with
  | inl e => inl e
  | inr a => k a
  end.

Declare Scope M_scope.
Delimit Scope M_scope with M.
Notation "x <- m ;; k" := (bind m (fun x => k))
  (at level 100, m at next level, right associativity) : M_scope.

Module AppMatch.
Record t : Type := mk {
  uuid : string;
  match_id_ow : string;
  created_timestamp : Z }.
End AppMatch.

Module ProfileResponse.
Record t : Type := mk { app_matches : option (list AppMatch.t) }.
End ProfileResponse.

(** The value of [trackerData.stage_data]: the JSON text the interface
    declares, the array the handler also accepts, or nothing. *)
Inductive StageData : Type :=
| SDString (text : string)
| SDArray (stages : list TrackerStage.t)
| SDUndefined.

Module TrackerData.
Record t : Type := mk {
  match_id : string;
  server : string;
  summoner_name : string;
  uuid : string;
  stage_data : StageData;
  portal : option string;
  summoner_tier : option string;
  tft_set_core_name : option string }.
End TrackerData.

(** The value bound to [stages] after the decoding step. *)
Inductive Stages : Type :=
| Array (stages : list TrackerStage.t)
| Undefined
| Null
| NotArray.

Module Response.
Record t : Type := mk {
  ok : bool;
  status : Z;
  body : string }.
End Response.

Module Arguments.
Record t : Type := mk {
  apiKey : string;
  gameName : string;
  tagLine : string;
  region : string;
  platform : string }.
End Arguments.

(** Everything outside the handler that it could read: the arguments of the
    process, the caches of src/datadragon.ts, the network, the locale and
    the clock. *)
Module World.
Record t : Type := mk {
  args : Arguments.t;
  championsCache : gmap string string;
  itemsCache : gmap string string;
  traitsCache : gmap string string;
  augmentsCache : gmap string string;
  (** Outcome of awaiting [fetchMetaTFTProfile()]. *)
  fetchMetaTFTProfile : M ProfileResponse.t;
  (** Outcome of awaiting [fetch(url)] and the body of the response. *)
  fetch : string -> M Response.t;
  (** [new Date(t).toLocaleString()]. *)
  toLocaleString : Z -> string;
  (** [Date.now()]. *)
  clock : Z }.
End World.

Module MatchSummary.
Record t : Type := mk {
  startingHealth : JS.number;
  finalHealth : JS.number;
  finalGold : JS.number;
  totalRerolls : Z;
  totalIncome : Z }.
End MatchSummary.

Module Result.
Record t : Type := mk {
  matchId : string;
  trackerUuid : string;
  server : string;
  summonerName : string;
  mode : string;
  portal : option string;
  rank : option string;
  set : option string;
  totalRounds : Z;
  summary : MatchSummary.t;
  topCarries : list Carry.t;
  finalBoard : list BoardUnit.t;
  stageProgression : list (option Formatted.t);
  roundProgression : option (list RoundSummary.t) }.
End Result.

Module AvailableMatch.
Record t : Type := mk {
  matchId : string;
  date : string }.
End AvailableMatch.

(** The object handed to [JSON.stringify] for the text of the reply. *)
Inductive Payload : Type :=
| NoTrackerData (error tip : string)
| NoTrackerForMatch (error reason : string) (availableMatches : list AvailableMatch.t)
| Assembled (result : Result.t)
| Failure (error : string).

Module Content.
Record t : Type := mk {
  type : string;
  text : Payload }.
End Content.

Module ToolResult.
Record t : Type := mk {
  content : list Content.t;
  isError : bool }.
End ToolResult.

Module Params.
Record t : Type := mk {
  matchId : string;
  mode : option string }.
End Params.

Definition METATFT_S3 : string := "https://metatft-matches-2.ams3.digitaloceanspaces.com".

Fixpoint skip_upper (s : string) : string :=
  match s with
  | String c s' => if JS.is_upper c then skip_upper s' else s
  | EmptyString => ""
  end.

(** [matchId.replace(/^[A-Z]+\d*_/, "")]. *)
Definition strip_region_prefix (matchId : string) : string :=
  match matchId with
  | String c _ =>
      if JS.is_upper c then
        match DataDragon.skip_digits (skip_upper matchId) with
        | String "_" rest => rest
        | _ => matchId
        end
      else matchId
  | EmptyString => matchId
  end.

(** [ToString] of an array of objects: the tags joined by commas. *)
Fixpoint array_ToString (stages : list TrackerStage.t) : string :=
  match stages with
  | [] => ""
  | [_] => "[object Object]"
  | _ :: rest => "[object Object]," +:+ array_ToString rest
  end.

Definition StageData_ToString (sd : StageData) : string :=
  match sd with
  | SDString text => text
  | SDArray stages => array_ToString stages
  | SDUndefined => "undefined"
  end.

(** The value of a stage-data field, as [stages] receives it when
    [JSON.parse] throws. *)
Definition StageData_value (sd : StageData) : Stages :=
  match sd with
  | SDString _ => NotArray
  | SDArray stages => Array stages
  | SDUndefined => Undefined
  end.

(** [stages.map]: the first use of [stages], inside [formatAllStages]. *)
Definition as_array (stages : Stages) : M (list TrackerStage.t) :=
  match stages with
  | Array l => ret l
  | Undefined => throw (Error "Cannot read properties of undefined (reading 'map')")
  | Null => throw (Error "Cannot read properties of null (reading 'map')")
  | NotArray => throw (Error "stages.map is not a function")
  end.

Definition add_if_truthy (acc : Z) (v : option Z) : Z :=
  match v with
  | Some n => if n =? 0 then acc else acc + n
  | None => acc
  end.

Section Handler.
(** [gunzipSync]; [None] when it throws. *)
Context (gunzipSync : string -> option string).
(** [JSON.parse] read at the type [TrackerData]. *)
Context (JSON_parse_TrackerData : string -> M TrackerData.t).
(** [JSON.parse] read at the type of [stages]; [None] when it throws. *)
Context (JSON_parse_stages : string -> option Stages).

Local Open Scope M_scope.

Definition fetchTrackerData (w : World.t) (uuid : string) : M TrackerData.t :=
  let url := METATFT_S3 +:+ "/" +:+ uuid +:+ ".json" in
  response <- World.fetch w url ;;
  if negb (Response.ok response) then
    throw (Error ("S3 fetch error: " +:+ pretty (Response.status response)))
  else
    let buffer := Response.body response in
    let jsonStr :=
      match gunzipSync buffer with
      | Some decompressed => decompressed
      | None => buffer
      end in
    JSON_parse_TrackerData jsonStr.

(** The [try { stages = JSON.parse(...) } catch { stages = ... }] step. *)
Definition parse_stage_data (sd : StageData) : Stages :=
  match JSON_parse_stages (StageData_ToString sd) with
  | Some v => v
  | None => StageData_value sd
  end.

Definition text_reply (p : Payload) (isError : bool) : ToolResult.t :=
  {| ToolResult.content := [ {| Content.type := "text"; Content.text := p |} ];
     ToolResult.isError := isError |}.

(** The steps of the handler from the decoded stages to the reply. *)
Definition assemble (w : World.t) (matchId mode : string) (appMatch : AppMatch.t)
    (trackerData : TrackerData.t) (stages : list TrackerStage.t) : ToolResult.t :=
  let championsCache := World.championsCache w in
  let itemsCache := World.itemsCache w in
  let gameName := Arguments.gameName (World.args w) in
  let hpProgression := formatAllStages gameName stages in
  let firstStage := index stages 0 in
  let lastStage := index stages (Z.of_nat (length stages) - 1) in
  let finalBoard :=
    match lastStage ≫= TrackerStage.board_pieces with
    | Some o => map (board_unit championsCache itemsCache) (Object_values o)
    | None => []
    end in
  let totalRerolls :=
    fold_left (fun acc stage => add_if_truthy acc (TrackerStage.rerolls stage)) stages 0 in
  let totalIncome :=
    fold_left (fun acc stage => add_if_truthy acc (TrackerStage.gold_earned stage)) stages 0 in
  let carryStats := calculateCarryStats championsCache stages in
  let stageProgression :=
    if String.eqb mode "complete" then
      imap (fun idx (_ : TrackerStage.t) =>
              formatStageData championsCache itemsCache stages (Z.of_nat idx)) stages
    else
      let keyIndices := findKeyProgressionStages stages in
      map (fun idx => formatStageData championsCache itemsCache stages idx) keyIndices in
  let result :=
    {| Result.matchId := matchId;
       Result.trackerUuid := AppMatch.uuid appMatch;
       Result.server := TrackerData.server trackerData;
       Result.summonerName := TrackerData.summoner_name trackerData;
       Result.mode := mode;
       Result.portal := TrackerData.portal trackerData;
       Result.rank := TrackerData.summoner_tier trackerData;
       Result.set := TrackerData.tft_set_core_name trackerData;
       Result.totalRounds := Z.of_nat (length stages);
       Result.summary :=
         {| MatchSummary.startingHealth :=
              JS.parseInt (JS.string_or ((firstStage ≫= TrackerStage.me) ≫= Me.health) "100");
            MatchSummary.finalHealth :=
              JS.parseInt (JS.string_or ((lastStage ≫= TrackerStage.me) ≫= Me.health) "0");
            MatchSummary.finalGold :=
              JS.parseInt (JS.string_or ((lastStage ≫= TrackerStage.me) ≫= Me.gold) "0");
            MatchSummary.totalRerolls := totalRerolls;
            MatchSummary.totalIncome := totalIncome |};
       Result.topCarries := JS.slice0 5 carryStats;
       Result.finalBoard := finalBoard;
       Result.stageProgression := stageProgression;
       Result.roundProgression :=
         if String.eqb mode "summary" then Some hpProgression else None |} in
  text_reply (Assembled result) false.

(** The handler from the fetched envelope on: decoding, then assembly. *)
Definition pipeline (w : World.t) (matchId mode : string) (appMatch : AppMatch.t)
    (trackerData : TrackerData.t) : M ToolResult.t :=
  let stages := parse_stage_data (TrackerData.stage_data trackerData) in
  stages <- as_array stages ;;
  ret (assemble w matchId mode appMatch trackerData stages).

(** The body of the [try] block. *)
Definition run (w : World.t) (matchId mode : string) : M ToolResult.t :=
  let matchNumber := strip_region_prefix matchId in
  profile <- World.fetchMetaTFTProfile w ;;
  match ProfileResponse.app_matches profile with
  | None | Some [] =>
      ret (text_reply
             (NoTrackerData
                "No tracker data available. The MetaTFT tracker was not active during any recent games."
                "Tracker data is only available for games played with the MetaTFT overlay/tracker running.")
             true)
  | Some app_matches =>
      match List.find (fun m => String.eqb (AppMatch.match_id_ow m) matchNumber) app_matches with
      | None =>
          let availableMatches :=
            map (fun m =>
                   {| AvailableMatch.matchId := AppMatch.match_id_ow m;
                      AvailableMatch.date :=
                        World.toLocaleString w (AppMatch.created_timestamp m) |})
              app_matches in
          ret (text_reply
                 (NoTrackerForMatch
                    ("No tracker data for match " +:+ matchId)
                    "The MetaTFT tracker was not active during this game."
                    (JS.slice0 10 availableMatches))
                 true)
      | Some appMatch =>
          trackerData <- fetchTrackerData w (AppMatch.uuid appMatch) ;;
          pipeline w matchId mode appMatch trackerData
      end
  end.

Definition handleTftMatchTracker (w : World.t) (params : Params.t) : ToolResult.t :=
  let matchId := Params.matchId params in
  let mode := default "summary" (Params.mode params) in
  match run w matchId mode with
  | inr reply => reply
  | inl (Error message) => text_reply (Failure message) true
  end.

End Handler.

(** ** Specification of the key-stage selection *)

(** [i] is the index of the first stage that carries its key label. *)
Definition first_occurrence (stages : list TrackerStage.t) (i : Z) : Prop :=
  ∃ (n : nat) (s : string) (stage : TrackerStage.t),
    i = Z.of_nat n ∧ stages !! n = Some stage ∧ stageInfo stage = Some s ∧
    s ∈ keyRounds ∧
    ∀ (m : nat) (stage' : TrackerStage.t),
      (m < n)%nat → stages !! m = Some stage' → stageInfo stage' ≠ Some s.

(** The label [s] occurs among [stages]. *)
Definition seen (stages : list TrackerStage.t) (s : string) : Prop :=
  ∃ (m : nat) (stage : TrackerStage.t), stages !! m = Some stage ∧ stageInfo stage = Some s.

(** A stage that carries only the round label [label]. *)
Definition labelled (label : string) : TrackerStage.t :=
  TrackerStage.mk None None None None
    (Some (MatchInfo.mk (Some (RoundType.mk label "" "")) None None))
    None None None None None.

(** Invariant of the scan loop after the stages [pre]. *)
Record key_inv (pre : list TrackerStage.t) (st : list Z * list string) : Prop := {
  key_sorted : StronglySorted Z.lt st.1;
  key_bound : Forall (λ k, 0 ≤ k < Z.of_nat (length pre)) st.1;
  key_first : ∀ i, i ∈ st.1 ↔ first_occurrence pre i;
  key_found : ∀ s, s ∈ st.2 ↔ s ∈ keyRounds ∧ seen pre s }.


(** ** Specification of the carry ranking *)

(** Damage records of all stages in scan order. *)
Definition damage_records (stages : list TrackerStage.t) : list UnitDamage.t :=
  flat_map (λ stage,
              match TrackerStage.units stage with
              | Some units => Object_values units
              | None => []
              end) stages.

Definition sum_damage (records : list UnitDamage.t) : Z :=
  foldr (λ u acc, default 0 (UnitDamage.damage u) + acc) 0 records.

Definition max_level (records : list UnitDamage.t) : Z :=
  foldr (λ u acc, Z.max (UnitDamage.level u) acc) 0 records.

(** Position of a new array-index key among the keys of an object. *)
Fixpoint insert_key (i : Z) (k : string) (ks : list string) : list string :=
  match ks with
  | [] => [k]
  | k' :: ks' =>
      match JS.array_index k' with
      | Some j => if j <? i then k' :: insert_key i k ks' else k :: ks
      | None => k :: ks
      end
  end.

Definition add_key (ks : list string) (k : string) : list string :=
  if existsb (String.eqb k) ks then ks
  else match JS.array_index k with
       | Some i => insert_key i k ks
       | None => ks ++ [k]
       end.

(** The order in which an object enumerates keys that were created in the
    order [names]. *)
Definition key_order (names : list string) : list string :=
  fold_left add_key names [].

(** The distinct elements of [names] in order of first appearance. *)
Definition first_seen (names : list string) : list string :=
  fold_left (λ acc n, if existsb (String.eqb n) acc then acc else acc ++ [n]) names [].

Definition is_index (k : string) : bool := bool_decide (is_Some (JS.array_index k)).

Definition index_lt (a b : string) : Prop :=
  match JS.array_index a, JS.array_index b with
  | Some i, Some j => i < j
  | _, _ => False
  end.

Section CarrySpec.
Context (championsCache : gmap string string).

Definition resolved (u : UnitDamage.t) : string :=
  DataDragon.getChampionName championsCache (UnitDamage.name u).

(** The records that count for [name]: positive damage, resolved to [name]. *)
Definition records_of (name : string) (records : list UnitDamage.t) : list UnitDamage.t :=
  List.filter (λ u, positive_damage u && String.eqb (resolved u) name) records.

(** The names that get an entry, in order of encounter (with repeats). *)
Definition encountered (records : list UnitDamage.t) : list string :=
  List.filter (λ n, negb (JS.inherited n)) (map resolved (List.filter positive_damage records)).

(** The ranking entry of [name], computed from the records. *)
Definition carry_of (records : list UnitDamage.t) (name : string) : Carry.t :=
  let rs := records_of name records in
  {| Carry.champion := name;
     Carry.totalDamage := sum_damage rs;
     Carry.avgDamage := JS.round_div (sum_damage rs) (Z.of_nat (length rs));
     Carry.roundsPlayed := Z.of_nat (length rs);
     Carry.maxStars := max_level rs |}.

(** The ranking stated over the records: one entry per name, taken in the
    key order of the accumulator and sorted by total damage, descending. *)
Definition ranking_spec (stages : list TrackerStage.t) : list Carry.t :=
  let records := damage_records stages in
  JS.sort (λ a b, Carry.totalDamage b - Carry.totalDamage a)
    (map (carry_of records) (key_order (encountered records))).

End CarrySpec.

(** A stage that carries only damage records: one unit of star level 1 per
    pair of a name and a damage, under the key [unit_<name>]. *)
Definition damage_stage (units : list (string * Z)) : TrackerStage.t :=
  TrackerStage.mk None None None None None
    (Some (Some (map (λ '(name, damage),
                        ("unit_" +:+ name, UnitDamage.mk name (Some damage) 1)) units)))
    None None None None.

(** The accumulator entry the records [rs] of one name add up to. *)
Definition stats_of (rs : list UnitDamage.t) : Stats.t :=
  {| Stats.total := sum_damage rs;
     Stats.count := Z.of_nat (length rs);
     Stats.maxStars := max_level rs |}.

(** What [damageByUnit[name]] holds as an own property after [records]. *)
Definition expected (championsCache : gmap string string)
    (records : list UnitDamage.t) (name : string) : option Stats.t :=
  if JS.inherited name then None
  else match records_of championsCache name records with
       | [] => None
       | rs => Some (stats_of rs)
       end.

(** Two stages in which "Zed" is met before "7" and both total 3. *)
Definition tie_stages : list TrackerStage.t :=
  [damage_stage [("Zed", 1); ("7", 3)]; damage_stage [("Zed", 2)]].

(** The records {A:100}, {B:50}, {A:50}, one per stage. *)
Definition carry_example_stages : list TrackerStage.t :=
  [damage_stage [("A", 100)]; damage_stage [("B", 50)]; damage_stage [("A", 50)]].

(** ** Auxiliary notions for the statements *)

(** [s] begins, after white space and an optional sign, with a digit of its
    radix: the strings [parseInt] can read a number from. *)
Definition starts_numeric (s : string) : bool :=
  let '(_, s1) := JS.strip_sign (JS.skip_spaces s) in
  let '(radix, s2) := JS.strip_hex_prefix s1 in
  match s2 with
  | String c _ => bool_decide (is_Some (JS.digit_val radix c))
  | EmptyString => false
  end.

(** The assembled result a reply carries, if it carries one. *)
Definition assembled_result (reply : ToolResult.t) : option Result.t :=
  match ToolResult.content reply with
  | [c] =>
      match Content.text c with
      | Assembled r => Some r
      | _ => None
      end
  | _ => None
  end.

Definition relabel_result (mode : string) (r : Result.t) : Result.t :=
  {| Result.matchId := Result.matchId r;
     Result.trackerUuid := Result.trackerUuid r;
     Result.server := Result.server r;
     Result.summonerName := Result.summonerName r;
     Result.mode := mode;
     Result.portal := Result.portal r;
     Result.rank := Result.rank r;
     Result.set := Result.set r;
     Result.totalRounds := Result.totalRounds r;
     Result.summary := Result.summary r;
     Result.topCarries := Result.topCarries r;
     Result.finalBoard := Result.finalBoard r;
     Result.stageProgression := Result.stageProgression r;
     Result.roundProgression :=
       if String.eqb mode "summary" then Result.roundProgression r else None |}.

Definition relabel_payload (mode : string) (p : Payload) : Payload :=
  match p with
  | Assembled r => Assembled (relabel_result mode r)
  | _ => p
  end.

(** A reply with its assembled result, if any, carrying [mode] in the mode
    field and no [roundProgression] unless [mode] is "summary". *)
Definition relabel (mode : string) (reply : ToolResult.t) : ToolResult.t :=
  {| ToolResult.content :=
       map (λ c, {| Content.type := Content.type c;
                    Content.text := relabel_payload mode (Content.text c) |})
         (ToolResult.content reply);
     ToolResult.isError := ToolResult.isError reply |}.

Definition with_stage_data (td : TrackerData.t) (sd : StageData) : TrackerData.t :=
  {| TrackerData.match_id := TrackerData.match_id td;
     TrackerData.server := TrackerData.server td;
     TrackerData.summoner_name := TrackerData.summoner_name td;
     TrackerData.uuid := TrackerData.uuid td;
     TrackerData.stage_data := sd;
     TrackerData.portal := TrackerData.portal td;
     TrackerData.summoner_tier := TrackerData.summoner_tier td;
     TrackerData.tft_set_core_name := TrackerData.tft_set_core_name td |}.

(** The envelope with a stage-data text replaced by the array it decodes
    to. *)
Definition predecoded (JSON_parse_stages : string → option Stages)
    (td : TrackerData.t) : TrackerData.t :=
  match TrackerData.stage_data td with
  | SDString text =>
      match JSON_parse_stages text with
      | Some (Array stages) => with_stage_data td (SDArray stages)
      | _ => td
      end
  | _ => td
  end.

(** The text [fetchTrackerData] hands to [JSON.parse]. *)
Definition envelope_text (gunzipSync : string → option string) (body : string) : string :=
  match gunzipSync body with
  | Some decompressed => decompressed
  | None => body
  end.

Definition tracker_url (uuid : string) : string :=
  METATFT_S3 +:+ "/" +:+ uuid +:+ ".json".

(** ** Sample data *)

Definition empty_stage : TrackerStage.t :=
  TrackerStage.mk None None None None None None None None None None.

Definition zero_income_stage : TrackerStage.t :=
  TrackerStage.mk None None None None None None (Some 0) (Some 0) None None.

Definition unnumbered_piece : BoardPiece.t :=
  BoardPiece.mk "TFT16_Ahri" (Some "two") None None None.

Definition unnumbered_stage : TrackerStage.t :=
  TrackerStage.mk (Some (Some [("cell_1", unnumbered_piece)])) None
    (Some (Me.mk None (Some "lots") None))
    None None None None (Some 2) None None.

Definition sample_gunzip : string → option string := λ _, None.

Definition sample_envelope (sd : StageData) : TrackerData.t :=
  TrackerData.mk "EUW1_1" "EUW1" "Player" "uuid-1" sd None None None.

(** The double quote of JSON. *)
Definition quote : string := String (ascii_of_nat 34) "".

Definition quoted (s : string) : string := quote +:+ s +:+ quote.

(** A stage with one board piece and a reroll count, and its JSON text. *)
Definition board_stage : TrackerStage.t :=
  TrackerStage.mk
    (Some (Some [("cell_1", BoardPiece.mk "TFT16_Ahri" (Some "2") None None None)]))
    None None None None None None (Some 2) None None.

Definition board_stage_text : string :=
  "[{" +:+ quoted "board" +:+ ":{" +:+ quoted "board_pieces" +:+ ":{" +:+ quoted "cell_1"
    +:+ ":{" +:+ quoted "name" +:+ ":" +:+ quoted "TFT16_Ahri" +:+ "," +:+ quoted "level"
    +:+ ":" +:+ quoted "2" +:+ "}}}," +:+ quoted "rerolls" +:+ ":2}]".

(** A stand-in for [JSON.parse] on stage data that reads the text of the
    empty array and the text of [board_stage]. *)
Definition sample_decode_stages (text : string) : option Stages :=
  if String.eqb text "[]" then Some (Array [])
  else if String.eqb text board_stage_text then Some (Array [board_stage])
  else None.

(** A stand-in for [JSON.parse] on stage data: it reads the text of the
    empty array and rejects everything else. *)
Definition sample_parse_stages (text : string) : option Stages :=
  if String.eqb text "[]" then Some (Array []) else None.

Definition sample_world (clock : Z) : World.t :=
  {| World.args := Arguments.mk "key" "Player" "EUW" "europe" "euw1";
     World.championsCache := ∅;
     World.itemsCache := ∅;
     World.traitsCache := ∅;
     World.augmentsCache := ∅;
     World.fetchMetaTFTProfile :=
       ret (ProfileResponse.mk (Some [AppMatch.mk "uuid-1" "1" 0]));
     World.fetch := λ _, ret (Response.mk true 200 "{}");
     World.toLocaleString := λ _, "1/1/1970, 12:00:00 AM";
     World.clock := clock |}.

Definition sample_handler (sd : StageData) (clock : Z) (mode : option string) : ToolResult.t :=
  handleTftMatchTracker sample_gunzip (λ _, ret (sample_envelope sd)) sample_parse_stages
    (sample_world clock) (Params.mk "EUW1_1" mode).

(** The collaborators delivered the envelope of the requested match: the
    profile lists the match as [appMatch], and the storage answered with a
    body whose text, after the decompression attempt, is [text]. *)
Definition delivered (gunzipSync : string → option string) (w : World.t)
    (matchId : string) (appMatch : AppMatch.t) (text : string) : Prop :=
  ∃ profile app_matches response,
    World.fetchMetaTFTProfile w = ret profile ∧
    ProfileResponse.app_matches profile = Some app_matches ∧
    List.find (λ m, String.eqb (AppMatch.match_id_ow m) (strip_region_prefix matchId))
      app_matches = Some appMatch ∧
    World.fetch w (tracker_url (AppMatch.uuid appMatch)) = ret response ∧
    Response.ok response = true ∧
    envelope_text gunzipSync (Response.body response) = text.

(** The reply for a computation of the [try] block: its value, or the
    error object of the [catch] block. *)
Definition reply_of (m : M ToolResult.t) : ToolResult.t :=
  match m with
  | inr reply => reply
  | inl (Error message) => text_reply (Failure message) true
  end.

(** Two worlds that agree on what the tracker can observe of the request:
    the game name, the champion and item caches, and the network. *)
Definition same_inputs (w1 w2 : World.t) : Prop :=
  Arguments.gameName (World.args w1) = Arguments.gameName (World.args w2) ∧
  World.championsCache w1 = World.championsCache w2 ∧
  World.itemsCache w1 = World.itemsCache w2 ∧
  World.fetchMetaTFTProfile w1 = World.fetchMetaTFTProfile w2 ∧
  (∀ url, World.fetch w1 url = World.fetch w2 url).

(** A world like [sample_world] with other arguments, caches, locale and
    clock, but the same game name, champion and item caches and network. *)
Definition other_world : World.t :=
  {| World.args := Arguments.mk "other-key" "Player" "NA1" "americas" "na1";
     World.championsCache := ∅;
     World.itemsCache := ∅;
     World.traitsCache := {[ "tft16_ionia" := "Ionia" ]};
     World.augmentsCache := ∅;
     World.fetchMetaTFTProfile :=
       ret (ProfileResponse.mk (Some [AppMatch.mk "uuid-1" "1" 0]));
     World.fetch := λ _, ret (Response.mk true 200 "{}");
     World.toLocaleString := λ _, "01.01.1970, 00:00:00";
     World.clock := 1762041600000 |}.

(** ** Invariants used in the proofs *)

(** Shape of the key list: the array indices in ascending order, then the
    other keys. *)
Definition key_shape (ks : list string) : Prop :=
  ∃ ik sk, ks = ik ++ sk ∧ Forall (λ k, is_index k = true) ik ∧
           Forall (λ k, is_index k = false) sk ∧ StronglySorted index_lt ik.

(** Invariant of the loops after the records [records]. *)
Record carry_inv (championsCache : gmap string string)
    (records : list UnitDamage.t) (acc : JS.object Stats.t) : Prop := {
  carry_lookup : ∀ n, JS.get_own acc n = expected championsCache records n;
  carry_keys : Object_keys acc = key_order (encountered championsCache records) }.


(** ** Further notions for the statements *)

(** The handler decoded the stages [stages] from the envelope
    [trackerData] of [appMatch]: the collaborators delivered it, it parsed,
    and its stage data gave the array. *)
Definition decoded (gunzipSync : string → option string)
    (JSON_parse_TrackerData : string → M TrackerData.t)
    (JSON_parse_stages : string → option Stages)
    (w : World.t) (matchId : string) (appMatch : AppMatch.t)
    (trackerData : TrackerData.t) (stages : list TrackerStage.t) : Prop :=
  ∃ text,
    delivered gunzipSync w matchId appMatch text ∧
    JSON_parse_TrackerData text = ret trackerData ∧
    parse_stage_data JSON_parse_stages (TrackerData.stage_data trackerData) = Array stages.

(** Sum of a list of integers. *)
Definition sum_Z (l : list Z) : Z := foldr Z.add 0 l.

(** A damage entry of a snapshot carries a positive damage. *)
Definition positive_entry (u : DamageUnit.t) : Prop :=
  ∃ d, DamageUnit.damage u = Some d ∧ 0 < d.

(** [r] occurs in [s] as a run of consecutive characters. *)
Definition substring_of (r s : string) : Prop :=
  ∃ pre post, s = pre +:+ r +:+ post.

(** Every character of [s] satisfies [p]. *)
Fixpoint string_forall (p : ascii → bool) (s : string) : bool :=
  match s with
  | EmptyString => true
  | String c s' => p c && string_forall p s'
  end.

(** [s] without its space characters. *)
Fixpoint without_spaces (s : string) : string :=
  match s with
  | EmptyString => EmptyString
  | String c s' => if JS.is_space c then without_spaces s' else String c (without_spaces s')
  end.

Definition first_char (s : string) : option ascii :=
  match s with
  | EmptyString => None
  | String c _ => Some c
  end.

Fixpoint last_char (s : string) : option ascii :=
  match s with
  | EmptyString => None
  | String c EmptyString => Some c
  | String _ s' => last_char s'
  end.

(** Neither the first nor the last character of [s] is white space. *)
Definition trimmed (s : string) : Prop :=
  (∀ c, first_char s = Some c → JS.is_space c = false) ∧
  (∀ c, last_char s = Some c → JS.is_space c = false).

(** A stage with a board of two pieces, damage records and a roster. *)
Definition busy_stage : TrackerStage.t :=
  TrackerStage.mk
    (Some (Some [("cell_1", BoardPiece.mk "TFT16_Ahri" (Some "2")
                              (Some "TFT_Item_GuinsoosRageblade") None (Some "TFT_Item_Bloodthirster"));
                 ("cell_2", BoardPiece.mk "TFT16_Garen" (Some "1") None (Some "") None)]))
    None
    (Some (Me.mk (Some "64") (Some "30") (Some (Xp.mk 6))))
    (Some (Some [("Player", PlayerStatus.mk 64 6 (Some "EUW"));
                 ("Rival", PlayerStatus.mk 80 7 None)]))
    (Some (MatchInfo.mk (Some (RoundType.mk "2-1" "Round" "PVP"))
             (Some [("Rival", RoundOutcome.mk "victory" "NA1");
                    ("PLAYER", RoundOutcome.mk "defeat" "EUW")])
             None))
    (Some (Some [("unit_1", UnitDamage.mk "TFT16_Garen" (Some 120) 1);
                 ("unit_2", UnitDamage.mk "TFT16_Ahri" (Some 900) 2);
                 ("unit_3", UnitDamage.mk "TFT16_Sona" (Some 0) 1)]))
    (Some 5) (Some 2) None None.

Definition sample_stages : list TrackerStage.t :=
  [labelled "1-1"; busy_stage; labelled "2-2"].

(** The profile lists the requested match as [appMatch]. *)
Definition listed (w : World.t) (matchId : string) (appMatch : AppMatch.t) : Prop :=
  ∃ profile app_matches,
    World.fetchMetaTFTProfile w = ret profile ∧
    ProfileResponse.app_matches profile = Some app_matches ∧
    List.find (λ m, String.eqb (AppMatch.match_id_ow m) (strip_region_prefix matchId))
      app_matches = Some appMatch.

(** The entry of the listing of available matches for [m]. *)
Definition available (w : World.t) (m : AppMatch.t) : AvailableMatch.t :=
  {| AvailableMatch.matchId := AppMatch.match_id_ow m;
     AvailableMatch.date := World.toLocaleString w (AppMatch.created_timestamp m) |}.

(** A result that echoes [matchId] as the requested id. *)
Definition readdress_result (matchId : string) (r : Result.t) : Result.t :=
  {| Result.matchId := matchId;
     Result.trackerUuid := Result.trackerUuid r;
     Result.server := Result.server r;
     Result.summonerName := Result.summonerName r;
     Result.mode := Result.mode r;
     Result.portal := Result.portal r;
     Result.rank := Result.rank r;
     Result.set := Result.set r;
     Result.totalRounds := Result.totalRounds r;
     Result.summary := Result.summary r;
     Result.topCarries := Result.topCarries r;
     Result.finalBoard := Result.finalBoard r;
     Result.stageProgression := Result.stageProgression r;
     Result.roundProgression := Result.roundProgression r |}.

Definition readdress_payload (matchId : string) (p : Payload) : Payload :=
  match p with
  | Assembled r => Assembled (readdress_result matchId r)
  | NoTrackerForMatch _ reason availableMatches =>
      NoTrackerForMatch ("No tracker data for match " +:+ matchId) reason availableMatches
  | _ => p
  end.

(** A reply with the places that echo the requested id carrying
    [matchId]: the id field of an assembled result and the error text of
    the listing of available matches. *)
Definition readdress (matchId : string) (reply : ToolResult.t) : ToolResult.t :=
  {| ToolResult.content :=
       map (λ c, {| Content.type := Content.type c;
                    Content.text := readdress_payload matchId (Content.text c) |})
         (ToolResult.content reply);
     ToolResult.isError := ToolResult.isError reply |}.

(** ** Loading of the name caches (src/datadragon.ts)

    The Community Dragon document is read at the type the source declares
    for it: a set has its lists of champions and traits or lacks them, the
    item list may be missing, and every entry has its two names. *)

Module NamedEntry.
Record t : Type := mk {
  apiName : string;
  name : string }.
End NamedEntry.

Module SetData.
Record t : Type := mk {
  champions : option (list NamedEntry.t);
  traits : option (list NamedEntry.t) }.
End SetData.

Module CDragonData.
Record t : Type := mk {
  sets : JS.object SetData.t;
  items : option (list NamedEntry.t) }.
End CDragonData.

(** The module state: the four caches and [isInitialized]. *)
Module Caches.
Record t : Type := mk {
  championsCache : gmap string string;
  itemsCache : gmap string string;
  traitsCache : gmap string string;
  augmentsCache : gmap string string;
  isInitialized : bool }.
End Caches.

Definition CDRAGON_BASE : string :=
  "https://raw.communitydragon.org/latest/cdragon/tft/en_us.json".

(** The order of [Array.prototype.sort] without a comparator, on strings:
    the order of the code units. *)
Definition string_cmp (a b : string) : Z :=
  match String.compare a b with
  | Lt => -1
  | Eq => 0
  | Gt => 1
  end.

(** [for (const e of entries) cache.set(e.apiName.toLowerCase(), e.name)]. *)
Definition fill (cache : gmap string string) (entries : list NamedEntry.t)
  : gmap string string :=
  fold_left (λ c e, <[ JS.toLowerCase (NamedEntry.apiName e) := NamedEntry.name e ]> c)
    entries cache.

(** [setKeys[setKeys.length - 1]] for the sorted keys of [data.sets]. *)
Definition latestSet (data : CDragonData.t) : option string :=
  last (JS.sort string_cmp (Object_keys (CDragonData.sets data))).

(** The statements of the [try] block that follow the download. *)
Definition load (data : CDragonData.t) (st : Caches.t) : Caches.t :=
  let setData := latestSet data ≫= JS.get_own (CDragonData.sets data) in
  let championsCache :=
    match setData with
    | Some sd => fill (Caches.championsCache st) (default [] (SetData.champions sd))
    | None => Caches.championsCache st
    end in
  let traitsCache :=
    match setData with
    | Some sd => fill (Caches.traitsCache st) (default [] (SetData.traits sd))
    | None => Caches.traitsCache st
    end in
  let itemsCache := fill (Caches.itemsCache st) (default [] (CDragonData.items data)) in
  {| Caches.championsCache := championsCache;
     Caches.itemsCache := itemsCache;
     Caches.traitsCache := traitsCache;
     Caches.augmentsCache := Caches.augmentsCache st;
     Caches.isInitialized := true |}.

(** [initializeDataDragon], awaited.  [fetch url] is the outcome of the
    download and of reading its body as JSON; the result pairs the requests
    that were sent with the new module state. *)
Definition initializeDataDragon (fetch : string → M CDragonData.t) (st : Caches.t)
  : list string * Caches.t :=
  if Caches.isInitialized st then ([], st)
  else
    match fetch CDRAGON_BASE with
    | inr data => ([CDRAGON_BASE], load data st)
    | inl _ =>
        ([CDRAGON_BASE],
         {| Caches.championsCache := Caches.championsCache st;
            Caches.itemsCache := Caches.itemsCache st;
            Caches.traitsCache := Caches.traitsCache st;
            Caches.augmentsCache := Caches.augmentsCache st;
            Caches.isInitialized := true |})
    end.

(** Calls of [initializeDataDragon] one after the other, each with the
    network as it is at that time. *)
Fixpoint initialize_each (fetches : list (string → M CDragonData.t)) (st : Caches.t)
  : list string * Caches.t :=
  match fetches with
  | [] => ([], st)
  | fetch :: rest =>
      let '(sent, st1) := initializeDataDragon fetch st in
      let '(sent', st2) := initialize_each rest st1 in
      (sent ++ sent', st2)
  end.

(** The state of the module when it is loaded. *)
Definition fresh : Caches.t :=
  {| Caches.championsCache := ∅; Caches.itemsCache := ∅; Caches.traitsCache := ∅;
     Caches.augmentsCache := ∅; Caches.isInitialized := false |}.

(** The entry that [fill] leaves under [key]: the last one with that key. *)
Definition last_entry (key : string) (entries : list NamedEntry.t) : option NamedEntry.t :=
  last (List.filter (λ e, String.eqb (JS.toLowerCase (NamedEntry.apiName e)) key) entries).

(** ** Formatting of traits and units (src/datadragon.ts)

    The numbers of a trait and the tier of a unit are integers. *)

Definition getTraitName (traitsCache : gmap string string) (apiName : string) : string :=
  let key := JS.toLowerCase apiName in
  match traitsCache !! key with
  | Some name => name
  | None =>
      match DataDragon.search DataDragon.match_set_prefix_here apiName with
      | Some g => g
      | None => apiName
      end
  end.

Definition formatItems (itemsCache : gmap string string) (itemNames : list string)
  : list string :=
  map (λ item, DataDragon.getItemName itemsCache item) itemNames.

Module Trait.
Record t : Type := mk {
  name : string;
  num_units : Z;
  style : Z;
  tier_current : Z }.
End Trait.

Definition trait_line (traitsCache : gmap string string) (t : Trait.t) : string :=
  getTraitName traitsCache (Trait.name t) +:+ " " +:+ pretty (Trait.num_units t).

Definition formatActiveTraits (traitsCache : gmap string string) (traits : list Trait.t)
  : list string :=
  map (trait_line traitsCache)
    (JS.sort (λ a b, Trait.style b - Trait.style a)
       (List.filter (λ t, 0 <? Trait.style t) traits)).

Module Unit.
Record t : Type := mk {
  character_id : string;
  tier : Z;
  itemNames : list string }.
End Unit.

(** The star of [formatUnits], U+2B50, in UTF-8. *)
Definition star : string :=
  String (ascii_of_nat 226) (String (ascii_of_nat 173) (String (ascii_of_nat 144) "")).

Fixpoint copies (n : nat) (s : string) : string :=
  match n with
  | O => ""
  | S n' => s +:+ copies n' s
  end.

(** [String.prototype.repeat]: a negative count is a RangeError. *)
Definition String_repeat (s : string) (count : Z) : M string :=
  if count <? 0 then throw (Error ("Invalid count value: " +:+ pretty count))
  else ret (copies (Z.to_nat count) s).

(** [Array.prototype.join] on strings. *)
Fixpoint join (sep : string) (l : list string) : string :=
  match l with
  | [] => ""
  | [x] => x
  | x :: l' => x +:+ sep +:+ join sep l'
  end.

(** [Array.prototype.map] with a callback that may throw. *)
Fixpoint mapM {A B : Type} (f : A → M B) (l : list A) : M (list B) :=
  match l with
  | [] => ret []
  | x :: l' => bind (f x) (λ y, bind (mapM f l') (λ ys, ret (y :: ys)))
  end.

Definition items_suffix (itemsCache : gmap string string) (itemNames : list string) : string :=
  if (0 <? length itemNames)%nat
  then " (" +:+ join ", " (formatItems itemsCache itemNames) +:+ ")"
  else "".

(** The callback of [units.map] in [formatUnits]. *)
Definition unit_line (championsCache itemsCache : gmap string string) (u : Unit.t)
  : M string :=
  let name := DataDragon.getChampionName championsCache (Unit.character_id u) in
  bind (String_repeat star (Unit.tier u)) (λ stars,
    let items := items_suffix itemsCache (Unit.itemNames u) in
    ret (name +:+ " " +:+ stars +:+ items)).

Definition formatUnits (championsCache itemsCache : gmap string string) (units : list Unit.t)
  : M (list string) :=
  mapM (unit_line championsCache itemsCache) units.

(** ** Region and platform of the player (src/constants.ts, src/index.ts) *)

Definition VALID_REGIONS : list string := ["americas"; "europe"; "asia"; "sea"].

(** The members of the type [Platform]. *)
Definition platforms : list string :=
  ["euw1"; "eun1"; "na1"; "br1"; "la1"; "la2"; "oc1"; "kr"; "jp1"; "tr1"; "ru";
   "ph2"; "sg2"; "th2"; "tw2"; "vn2"].

Definition REGION_MAPPING : JS.object string :=
  [("na", "americas"); ("na1", "americas"); ("br", "americas"); ("br1", "americas");
   ("lan", "americas"); ("las", "americas"); ("oce", "americas");
   ("euw", "europe"); ("euw1", "europe"); ("eune", "europe"); ("eun1", "europe");
   ("tr", "europe"); ("tr1", "europe"); ("ru", "europe");
   ("kr", "asia"); ("jp", "asia"); ("jp1", "asia");
   ("sea", "sea"); ("sg", "sea"); ("ph", "sea"); ("tw", "sea"); ("vn", "sea");
   ("th", "sea")].

Definition PLATFORM_MAPPING : JS.object string :=
  [("euw", "euw1"); ("euw1", "euw1"); ("eune", "eun1"); ("eun1", "eun1");
   ("tr", "tr1"); ("tr1", "tr1"); ("ru", "ru");
   ("na", "na1"); ("na1", "na1"); ("br", "br1"); ("br1", "br1");
   ("lan", "la1"); ("la1", "la1"); ("las", "la2"); ("la2", "la2");
   ("oce", "oc1"); ("oc1", "oc1");
   ("kr", "kr"); ("jp", "jp1"); ("jp1", "jp1");
   ("sg", "sg2"); ("ph", "ph2"); ("tw", "tw2"); ("vn", "vn2"); ("th", "th2")].

(** The value of [table[k]] for an object literal of strings: an own entry,
    or what the name denotes on [Object.prototype]. *)
Inductive property : Type :=
| Own (value : string)
| Inherited (name : string).

Definition property_of (table : JS.object string) (k : string) : option property :=
  match JS.get_own table k with
  | Some v => Some (Own v)
  | None => if JS.inherited k then Some (Inherited k) else None
  end.

Definition truthy_property (p : option property) : bool :=
  match p with
  | Some (Own v) => JS.truthy_string (Some v)
  | Some (Inherited _) => true
  | None => false
  end.

(** [detectRegion]; [None] is [null]. *)
Definition detectRegion (tagLine : string) (explicitRegion : option string)
  : option property :=
  if JS.truthy_string explicitRegion
     && existsb (String.eqb (JS.ToString explicitRegion)) VALID_REGIONS
  then Some (Own (JS.ToString explicitRegion))
  else
    let tagLower := JS.toLowerCase tagLine in
    if truthy_property (property_of REGION_MAPPING tagLower)
    then property_of REGION_MAPPING tagLower
    else None.

Definition detectPlatform (tagLine : string) : property :=
  let tagLower := JS.toLowerCase tagLine in
  match property_of PLATFORM_MAPPING tagLower with
  | Some p => if truthy_property (Some p) then p else Own "euw1"
  | None => Own "euw1"
  end.

(** The names of [Object.prototype] that a lower-cased tag line can be. *)
Definition lower_case_inherited : list string := ["constructor"; "__proto__"].

(** A document with two sets; the keys are in the enumeration order of an
    object, array indices ascending. *)
Definition sample_cdragon : CDragonData.t :=
  CDragonData.mk
    [("9", SetData.mk (Some [NamedEntry.mk "TFT9_Ahri" "Ahri"]) None);
     ("16", SetData.mk (Some [NamedEntry.mk "TFT16_Kindred" "Kindred"])
              (Some [NamedEntry.mk "TFT16_Ionia" "Ionia"]))]
    (Some [NamedEntry.mk "TFT_Item_Bloodthirster" "Bloodthirster"]).

(** ** The profile lookup (src/tools/tracker.ts)

    Strings hold text in UTF-8, so [encodeURIComponent] escapes byte by
    byte: every byte outside the unreserved characters, and with them
    every byte of a character outside ASCII. *)

Definition METATFT_API : string := "https://api.metatft.com".

Definition to_upper_char (c : ascii) : ascii :=
  if JS.is_lower c then ascii_of_N (N_of_ascii c - 32) else c.

(** [String.prototype.toUpperCase]. *)
Fixpoint toUpperCase (s : string) : string :=
  match s with
  | EmptyString => EmptyString
  | String c s' => String (to_upper_char c) (toUpperCase s')
  end.

(** [s.replace(a, b)] for one-character strings [a] and [b]: the first
    occurrence is replaced. *)
Fixpoint replace_first (a b : ascii) (s : string) : string :=
  match s with
  | EmptyString => EmptyString
  | String c s' => if Ascii.eqb c a then String b s' else String c (replace_first a b s')
  end.

(** The characters [encodeURIComponent] leaves as they are. *)
Definition is_unreserved (c : ascii) : bool :=
  JS.is_upper c || JS.is_lower c || JS.is_digit c
  || existsb (Ascii.eqb c) ["-"; "_"; "."; "!"; "~"; "*"; "'"; "("; ")"]%char.

Definition hex_digit (n : N) : ascii :=
  if (n <? 10)%N then ascii_of_N (48 + n) else ascii_of_N (55 + n).

Fixpoint encodeURIComponent (s : string) : string :=
  match s with
  | EmptyString => EmptyString
  | String c s' =>
      if is_unreserved c then String c (encodeURIComponent s')
      else String "%" (String (hex_digit (N_of_ascii c / 16))
                         (String (hex_digit (N_of_ascii c mod 16))
                            (encodeURIComponent s')))
  end.

Definition profile_url (args : Arguments.t) : string :=
  let platform := replace_first "1" "1" (toUpperCase (Arguments.platform args)) in
  METATFT_API +:+ "/public/profile/lookup_by_riotid/" +:+ platform +:+ "/"
    +:+ encodeURIComponent (Arguments.gameName args) +:+ "/"
    +:+ encodeURIComponent (Arguments.tagLine args)
    +:+ "?source=full_profile&tft_set=TFTSet16".

(** [fetchMetaTFTProfile], awaited, over the network [fetch] and over
    [JSON.parse] read at the type [ProfileResponse]. *)
Definition fetchMetaTFTProfile (fetch : string → M Response.t)
    (JSON_parse_ProfileResponse : string → M ProfileResponse.t) (args : Arguments.t)
  : M ProfileResponse.t :=
  bind (fetch (profile_url args)) (λ response,
    if negb (Response.ok response) then
      throw (Error ("MetaTFT API error: " +:+ pretty (Response.status response)))
    else JSON_parse_ProfileResponse (Response.body response)).

(** The value of a hexadecimal digit. *)
Definition hex_value (c : ascii) : N :=
  if JS.is_digit c then N_of_ascii c - 48 else N_of_ascii c - 55.

(** The text whose escaped form is [s]: every [%XY] stands for a byte. *)
Fixpoint percent_decode (s : string) : string :=
  match s with
  | String "%" (String h (String l s')) =>
      String (ascii_of_N (16 * hex_value h + hex_value l)) (percent_decode s')
  | String c s' => String c (percent_decode s')
  | EmptyString => EmptyString
  end.

(** A character an escaped text can hold. *)
Definition uri_safe (c : ascii) : bool := is_unreserved c || Ascii.eqb c "%".

(** A world whose profile lookup goes through [fetchMetaTFTProfile], with a
    service that answers 503. *)
Definition refused_world : World.t :=
  {| World.args := World.args (sample_world 0);
     World.championsCache := ∅;
     World.itemsCache := ∅;
     World.traitsCache := ∅;
     World.augmentsCache := ∅;
     World.fetchMetaTFTProfile :=
       fetchMetaTFTProfile (λ _, ret (Response.mk false 503 ""))
         (λ _, ret (ProfileResponse.mk None)) (World.args (sample_world 0));
     World.fetch := λ _, ret (Response.mk true 200 "{}");
     World.toLocaleString := λ _, "1/1/1970, 12:00:00 AM";
     World.clock := 0 |}.

(** Two outcomes of a storage request that the handler cannot tell apart:
    the same failure, or responses with the same status and, after the
    decompression attempt, the same text. *)
Definition same_response (gunzipSync : string → option string) (a b : M Response.t) : Prop :=
  match a, b with
  | inl e1, inl e2 => e1 = e2
  | inr r1, inr r2 =>
      Response.ok r1 = Response.ok r2 ∧
      Response.status r1 = Response.status r2 ∧
      envelope_text gunzipSync (Response.body r1) = envelope_text gunzipSync (Response.body r2)
  | _, _ => False
  end.

(** Two worlds with the same player, caches, profile and date format, whose
    storages serve the same envelopes, compressed or not. *)
Definition same_envelopes (gunzipSync : string → option string) (w1 w2 : World.t) : Prop :=
  Arguments.gameName (World.args w1) = Arguments.gameName (World.args w2) ∧
  World.championsCache w1 = World.championsCache w2 ∧
  World.itemsCache w1 = World.itemsCache w2 ∧
  World.fetchMetaTFTProfile w1 = World.fetchMetaTFTProfile w2 ∧
  (∀ t, World.toLocaleString w1 t = World.toLocaleString w2 t) ∧
  (∀ url, same_response gunzipSync (World.fetch w1 url) (World.fetch w2 url)).

(** A decompression that knows one compressed body. *)
Definition sample_gunzip_packed (body : string) : option string :=
  if String.eqb body "packed" then Some "{}" else None.

(** A world like [sample_world] whose storage serves the compressed body. *)
Definition packed_world : World.t :=
  {| World.args := World.args (sample_world 0);
     World.championsCache := ∅;
     World.itemsCache := ∅;
     World.traitsCache := ∅;
     World.augmentsCache := ∅;
     World.fetchMetaTFTProfile := World.fetchMetaTFTProfile (sample_world 0);
     World.fetch := λ _, ret (Response.mk true 200 "packed");
     World.toLocaleString := World.toLocaleString (sample_world 0);
     World.clock := 0 |}.

(** ** The tracker on payloads with gaps (src/tools/tracker.ts)

    The functions so far read a payload at the interfaces of the source,
    where every piece, unit and shop entry is an object with its name.
    The functions of this module read what [JSON.parse] delivers for a
    document in which a name may be absent or null and an entry of a
    record, of the shops or of the stage array may be null: reading a
    property of null throws a TypeError, and so does [getChampionName] on
    a name that is absent or null, at [apiName.toLowerCase()].  An entry
    that is [None] is null; an entry that is not null is an object whose
    other properties are as in the records above, optional where the
    record has an option.  [String.prototype.toLowerCase] on the names of
    players is a function of the platform; the identifiers of champions
    and items are ASCII. *)

Module Raw.

(** The [name] of a piece, of a unit or of a shop entry. *)
Module Name.
Inductive t : Type :=
| absent
| null
| text (s : string).
End Name.

Module BoardPiece.
Record t : Type := mk {
  name : Name.t;
  level : option string;
  item_1 : option string;
  item_2 : option string;
  item_3 : option string }.
End BoardPiece.

Module UnitDamage.
Record t : Type := mk {
  name : Name.t;
  damage : option Z;
  level : Z }.
End UnitDamage.

Module ShopPiece.
Record t : Type := mk { name : Name.t }.
End ShopPiece.

Module Shop.
Record t : Type := mk { shop_pieces : option (JS.object (option ShopPiece.t)) }.
End Shop.

Module MatchInfo.
Record t : Type := mk {
  round_type : option RoundType.t;
  round_outcome : option (JS.object (option RoundOutcome.t));
  opponent : option Opponent.t }.
End MatchInfo.

Module TrackerStage.
Record t : Type := mk {
  board : option (option (JS.object (option BoardPiece.t)));
  bench : option (option (JS.object (option BoardPiece.t)));
  me : option Me.t;
  roster : option (option (JS.object (option PlayerStatus.t)));
  match_info : option MatchInfo.t;
  local_player_damage : option (option (JS.object (option UnitDamage.t)));
  gold_earned : option Z;
  rerolls : option Z;
  metrics : option Metrics.t;
  shops : option (list (option Shop.t)) }.

Definition board_pieces (s : t) : option (JS.object (option BoardPiece.t)) :=
  mjoin (board s).
Definition bench_pieces (s : t) : option (JS.object (option BoardPiece.t)) :=
  mjoin (bench s).
Definition player_status (s : t) : option (JS.object (option PlayerStatus.t)) :=
  mjoin (roster s).
Definition units (s : t) : option (JS.object (option UnitDamage.t)) :=
  mjoin (local_player_damage s).
Definition round_type (s : t) : option RoundType.t :=
  match match_info s with
  | Some mi => MatchInfo.round_type mi
  | None => None
  end.
Definition opponent (s : t) : option Opponent.t :=
  match match_info s with
  | Some mi => MatchInfo.opponent mi
  | None => None
  end.
Definition round_outcome (s : t) : option (JS.object (option RoundOutcome.t)) :=
  match match_info s with
  | Some mi => MatchInfo.round_outcome mi
  | None => None
  end.
(** [lastShop?.shop_pieces] under [stage.shops && stage.shops.length > 0]. *)
Definition last_shop_pieces (s : t) : option (JS.object (option ShopPiece.t)) :=
  match shops s with
  | Some l =>
      match last l with
      | Some (Some lastShop) => Shop.shop_pieces lastShop
      | _ => None
      end
  | None => None
  end.
End TrackerStage.

(** The TypeError of a property read on null, and of one on [undefined]. *)
Definition null_property (property : string) : exn :=
  Error ("Cannot read properties of null (reading '" +:+ property +:+ "')").

Definition undefined_property (property : string) : exn :=
  Error ("Cannot read properties of undefined (reading '" +:+ property +:+ "')").

Definition extractItems (piece : BoardPiece.t) : list string :=
  let items := [] in
  let items := push_if_truthy (BoardPiece.item_1 piece) items in
  let items := push_if_truthy (BoardPiece.item_2 piece) items in
  let items := push_if_truthy (BoardPiece.item_3 piece) items in
  items.

(** [u.damage && u.damage > 0]. *)
Definition positive_damage (u : UnitDamage.t) : bool :=
  match UnitDamage.damage u with
  | Some d => negb (d =? 0) && (0 <? d)
  | None => false
  end.

(** [u.damage || 0]. *)
Definition damage_or_0 (u : UnitDamage.t) : Z :=
  match UnitDamage.damage u with
  | Some d => JS.Z_or d 0
  | None => 0
  end.

(** [Array.prototype.map] with the index, for a callback that may throw. *)
Fixpoint imapM {A B : Type} (f : nat → A → M B) (l : list A) : M (list B) :=
  match l with
  | [] => ret []
  | x :: l' => bind (f 0%nat x) (λ y, bind (imapM (λ i, f (S i)) l') (λ ys, ret (y :: ys)))
  end.

(** A loop over [l] that updates an accumulator and may throw. *)
Fixpoint foldM {A S : Type} (f : S → A → M S) (l : list A) (s : S) : M S :=
  match l with
  | [] => ret s
  | x :: l' => bind (f s x) (λ s', foldM f l' s')
  end.

Section Tracker.
Context (toLowerCase : string → string).
Context (championsCache itemsCache : gmap string string).
(** [getArgs().gameName]. *)
Context (gameName : string).

Local Open Scope M_scope.

(** [getChampionName(name)] for a name that may be absent. *)
Definition getChampionName (apiName : Name.t) : M string :=
  match apiName with
  | Name.text s => ret (DataDragon.getChampionName championsCache s)
  | Name.absent => throw (undefined_property "toLowerCase")
  | Name.null => throw (null_property "toLowerCase")
  end.

(** [parseInt(u.level) || 1]. *)
Definition stars_of (u : BoardPiece.t) : Z :=
  JS.number_or (JS.parseInt (JS.ToString (BoardPiece.level u))) 1.

(** The callback of [pieces.map] for the board, in [formatStageData] and
    in [handleTftMatchTracker]. *)
Definition board_unit (u : option BoardPiece.t) : M BoardUnit.t :=
  match u with
  | None => throw (null_property "name")
  | Some u =>
      champion <- getChampionName (BoardPiece.name u) ;;
      ret {| BoardUnit.champion := champion;
             BoardUnit.stars := stars_of u;
             BoardUnit.items :=
               map (DataDragon.getItemName itemsCache) (extractItems u) |}
  end.

Definition bench_unit (u : option BoardPiece.t) : M BenchUnit.t :=
  match u with
  | None => throw (null_property "name")
  | Some u =>
      champion <- getChampionName (BoardPiece.name u) ;;
      ret {| BenchUnit.champion := champion; BenchUnit.stars := stars_of u |}
  end.

(** [.filter(u => u.damage && u.damage > 0)]. *)
Fixpoint filter_positive (units : list (option UnitDamage.t)) : M (list UnitDamage.t) :=
  match units with
  | [] => ret []
  | None :: _ => throw (null_property "damage")
  | Some u :: rest =>
      kept <- filter_positive rest ;;
      ret (if positive_damage u then u :: kept else kept)
  end.

Definition damage_unit (u : UnitDamage.t) : M DamageUnit.t :=
  champion <- getChampionName (UnitDamage.name u) ;;
  ret {| DamageUnit.champion := champion;
         DamageUnit.damage := UnitDamage.damage u;
         DamageUnit.stars := UnitDamage.level u |}.

Definition player_info (e : string * option PlayerStatus.t) : M PlayerInfo.t :=
  let '(name, data) := e in
  match data with
  | None => throw (null_property "tag_line")
  | Some data =>
      ret {| PlayerInfo.name :=
               if JS.truthy_string (PlayerStatus.tag_line data)
               then name +:+ "#" +:+ JS.ToString (PlayerStatus.tag_line data)
               else name;
             PlayerInfo.health := PlayerStatus.health data;
             PlayerInfo.level := PlayerStatus.xp data |}
  end.

Definition shop_name (s : option ShopPiece.t) : M string :=
  match s with
  | None => throw (null_property "name")
  | Some s => getChampionName (ShopPiece.name s)
  end.

(** The block [if (stage.board?.board_pieces) { ... }] of
    [formatStageData], and the four blocks after it. *)
Definition board_field (stage : TrackerStage.t) : M (option (list BoardUnit.t)) :=
  match TrackerStage.board_pieces stage with
  | Some o => pieces <- mapM board_unit (Object_values o) ;; ret (when_nonempty pieces)
  | None => ret None
  end.

Definition bench_field (stage : TrackerStage.t) : M (option (list BenchUnit.t)) :=
  match TrackerStage.bench_pieces stage with
  | Some o => pieces <- mapM bench_unit (Object_values o) ;; ret (when_nonempty pieces)
  | None => ret None
  end.

Definition unitDamage_field (stage : TrackerStage.t) : M (option (list DamageUnit.t)) :=
  match TrackerStage.units stage with
  | Some o =>
      positive <- filter_positive (Object_values o) ;;
      let units := JS.sort (fun a b => damage_or_0 b - damage_or_0 a) positive in
      units <- mapM damage_unit units ;;
      ret (when_nonempty units)
  | None => ret None
  end.

Definition allPlayers_field (stage : TrackerStage.t) : M (option (list PlayerInfo.t)) :=
  match TrackerStage.player_status stage with
  | Some o =>
      players <- mapM player_info o ;;
      ret (Some (JS.sort (fun a b => PlayerInfo.health b - PlayerInfo.health a) players))
  | None => ret None
  end.

Definition shop_field (stage : TrackerStage.t) : M (option (list string)) :=
  match TrackerStage.last_shop_pieces stage with
  | Some o => names <- mapM shop_name (Object_values o) ;; ret (Some names)
  | None => ret None
  end.

Definition formatStageData (stages : list (option TrackerStage.t)) (stageIndex : Z)
  : M (option Formatted.t) :=
  match index stages stageIndex with
  | None | Some None => ret None
  | Some (Some stage) =>
      board <- board_field stage ;;
      bench <- bench_field stage ;;
      unitDamage <- unitDamage_field stage ;;
      allPlayers <- allPlayers_field stage ;;
      shop <- shop_field stage ;;
      ret (Some {|
        Formatted.stageNumber := stageIndex + 1;
        Formatted.stage := RoundType.stage <$> TrackerStage.round_type stage;
        Formatted.roundType := RoundType.type <$> TrackerStage.round_type stage;
        Formatted.roundName := RoundType.name <$> TrackerStage.round_type stage;
        Formatted.opponent :=
          (fun o => Opponent.name o +:+ "#" +:+ Opponent.tag_line o)
            <$> TrackerStage.opponent stage;
        Formatted.player := player_of <$> TrackerStage.me stage;
        Formatted.goldEarned := TrackerStage.gold_earned stage;
        Formatted.rerolls := TrackerStage.rerolls stage;
        Formatted.board := board;
        Formatted.bench := bench;
        Formatted.unitDamage := unitDamage;
        Formatted.allPlayers := allPlayers;
        Formatted.shop := shop;
        Formatted.metrics :=
          (fun m =>
             {| FormattedMetrics.boardStrength := Metrics.board_strength m;
                FormattedMetrics.boardCost := Metrics.board_cost m;
                FormattedMetrics.benchCost := Metrics.bench_cost m |})
            <$> TrackerStage.metrics stage
      |})
  end.

(** The entry of [round_outcome] that [find] selects: the first whose key
    holds the game name, both in lower case. *)
Definition my_outcome (o : JS.object (option RoundOutcome.t))
  : option (string * option RoundOutcome.t) :=
  let gameName := toLowerCase gameName in
  List.find (fun e : string * option RoundOutcome.t =>
               JS.includes (toLowerCase (fst e)) gameName) o.

(** The block [if (stage.match_info?.round_outcome) { ... }] of the
    callback of [formatAllStages]. *)
Definition outcome_field (stage : TrackerStage.t) : M (option string) :=
  match TrackerStage.round_outcome stage with
  | Some o =>
      match my_outcome o with
      | Some (_, Some entry) => ret (Some (RoundOutcome.outcome entry))
      | Some (_, None) => throw (null_property "outcome")
      | None => ret None
      end
  | None => ret None
  end.

(** The callback of [stages.map] in [formatAllStages]. *)
Definition round_summary (idx : nat) (stage : option TrackerStage.t) : M RoundSummary.t :=
  match stage with
  | None => throw (null_property "match_info")
  | Some stage =>
      outcome <- outcome_field stage ;;
      ret {| RoundSummary.round := Z.of_nat idx + 1;
             RoundSummary.stage := RoundType.stage <$> TrackerStage.round_type stage;
             RoundSummary.type := RoundType.type <$> TrackerStage.round_type stage;
             RoundSummary.hp := Player.health <$> (player_of <$> TrackerStage.me stage);
             RoundSummary.gold := Player.gold <$> (player_of <$> TrackerStage.me stage);
             RoundSummary.level := Player.level <$> (player_of <$> TrackerStage.me stage);
             RoundSummary.boardSize :=
               (fun o : JS.object (option BoardPiece.t) => Z.of_nat (length (Object_keys o)))
                 <$> TrackerStage.board_pieces stage;
             RoundSummary.income := TrackerStage.gold_earned stage;
             RoundSummary.rerolls :=
               match TrackerStage.rerolls stage with
               | Some r => if 0 <? r then Some r else None
               | None => None
               end;
             RoundSummary.outcome := outcome |}
  end.

Definition formatAllStages (stages : list (option TrackerStage.t)) : M (list RoundSummary.t) :=
  imapM round_summary stages.

(** [stages[i].match_info?.round_type?.stage]. *)
Definition stageInfo (stage : option TrackerStage.t) : M (option string) :=
  match stage with
  | None => throw (null_property "match_info")
  | Some stage => ret (RoundType.stage <$> TrackerStage.round_type stage)
  end.

(** Body of the scan loop of [findKeyProgressionStages]. *)
Definition key_step (i : Z) (stage : option TrackerStage.t) (st : list Z * list string)
  : M (list Z * list string) :=
  let '(keyIndices, found) := st in
  info <- stageInfo stage ;;
  match info with
  | Some s =>
      if JS.truthy_string (Some s)
         && existsb (String.eqb s) keyRounds
         && negb (existsb (String.eqb s) found)
      then ret (keyIndices ++ [i], found ++ [s])
      else ret st
  | None => ret st
  end.

Fixpoint key_loop (i : Z) (stages : list (option TrackerStage.t))
    (st : list Z * list string) : M (list Z * list string) :=
  match stages with
  | [] => ret st
  | stage :: rest => st' <- key_step i stage st ;; key_loop (i + 1) rest st'
  end.

Definition findKeyProgressionStages (stages : list (option TrackerStage.t)) : M (list Z) :=
  st <- key_loop 0 stages ([], []) ;;
  let '(keyIndices, _) := st in
  let lastIndex := Z.of_nat (length stages) - 1 in
  ret match last keyIndices with
      | None => keyIndices ++ [lastIndex]
      | Some k => if k =? lastIndex then keyIndices else keyIndices ++ [lastIndex]
      end.

(** Body of the inner loop of [calculateCarryStats]. *)
Definition carry_step (damageByUnit : JS.object Stats.t) (unit : option UnitDamage.t)
  : M (JS.object Stats.t) :=
  match unit with
  | None => throw (null_property "damage")
  | Some unit =>
      if positive_damage unit then
        let d := default 0 (UnitDamage.damage unit) in
        name <- getChampionName (UnitDamage.name unit) ;;
        let damageByUnit :=
          match JS.get_own damageByUnit name with
          | Some _ => damageByUnit
          | None =>
              if JS.inherited name then damageByUnit
              else JS.set_own damageByUnit name
                     {| Stats.total := 0; Stats.count := 0; Stats.maxStars := 0 |}
          end in
        ret match JS.get_own damageByUnit name with
            | Some stats =>
                JS.update_own damageByUnit name
                  {| Stats.total := Stats.total stats + d;
                     Stats.count := Stats.count stats + 1;
                     Stats.maxStars :=
                       JS.Math_max (Stats.maxStars stats) (UnitDamage.level unit) |}
            | None => damageByUnit
            end
      else ret damageByUnit
  end.

Definition carry_stage (damageByUnit : JS.object Stats.t) (stage : option TrackerStage.t)
  : M (JS.object Stats.t) :=
  match stage with
  | None => throw (null_property "local_player_damage")
  | Some stage =>
      match TrackerStage.units stage with
      | Some units => foldM carry_step (Object_values units) damageByUnit
      | None => ret damageByUnit
      end
  end.

Definition calculateCarryStats (stages : list (option TrackerStage.t)) : M (list Carry.t) :=
  damageByUnit <- foldM carry_stage stages [] ;;
  ret (JS.sort (fun a b => Carry.totalDamage b - Carry.totalDamage a)
         (map carry_entry damageByUnit)).

End Tracker.

(** The value of [trackerData.stage_data]. *)
Inductive StageData : Type :=
| SDString (text : string)
| SDArray (stages : list (option TrackerStage.t))
| SDUndefined.

Module TrackerData.
Record t : Type := mk {
  match_id : string;
  server : string;
  summoner_name : string;
  uuid : string;
  stage_data : StageData;
  portal : option string;
  summoner_tier : option string;
  tft_set_core_name : option string }.
End TrackerData.

(** The value bound to [stages] after the decoding step. *)
Inductive Stages : Type :=
| Array (stages : list (option TrackerStage.t))
| Undefined
| Null
| NotArray.

(** [ToString] of an array: the elements joined by commas, an object as
    its tag and null as the empty text. *)
Fixpoint array_ToString (stages : list (option TrackerStage.t)) : string :=
  let tag (e : option TrackerStage.t) :=
    match e with
    | Some _ => "[object Object]"
    | None => ""
    end in
  match stages with
  | [] => ""
  | [e] => tag e
  | e :: rest => tag e +:+ "," +:+ array_ToString rest
  end.

Definition StageData_ToString (sd : StageData) : string :=
  match sd with
  | SDString text => text
  | SDArray stages => array_ToString stages
  | SDUndefined => "undefined"
  end.

Definition StageData_value (sd : StageData) : Stages :=
  match sd with
  | SDString _ => NotArray
  | SDArray stages => Array stages
  | SDUndefined => Undefined
  end.

(** [stages.map]: the first use of [stages], inside [formatAllStages]. *)
Definition as_array (stages : Stages) : M (list (option TrackerStage.t)) :=
  match stages with
  | Array l => ret l
  | Undefined => throw (undefined_property "map")
  | Null => throw (null_property "map")
  | NotArray => throw (Error "stages.map is not a function")
  end.

(** Body of the loop that sums the rerolls and the income. *)
Definition totals_step (totals : Z * Z) (stage : option TrackerStage.t) : M (Z * Z) :=
  let '(totalRerolls, totalIncome) := totals in
  match stage with
  | None => throw (null_property "rerolls")
  | Some stage =>
      ret (add_if_truthy totalRerolls (TrackerStage.rerolls stage),
           add_if_truthy totalIncome (TrackerStage.gold_earned stage))
  end.

(** The final board of the handler: the board of the last stage. *)
Definition finalBoard (championsCache itemsCache : gmap string string)
    (stages : list (option TrackerStage.t)) : M (list BoardUnit.t) :=
  let lastStage := mjoin (index stages (Z.of_nat (length stages) - 1)) in
  match lastStage ≫= TrackerStage.board_pieces with
  | Some o => mapM (board_unit championsCache itemsCache) (Object_values o)
  | None => ret []
  end.

(** The stage progression of the handler, by mode. *)
Definition stageProgression (championsCache itemsCache : gmap string string) (mode : string)
    (stages : list (option TrackerStage.t)) : M (list (option Formatted.t)) :=
  if String.eqb mode "complete" then
    imapM (fun idx (_ : option TrackerStage.t) =>
             formatStageData championsCache itemsCache stages (Z.of_nat idx)) stages
  else
    bind (findKeyProgressionStages stages) (fun keyIndices =>
      mapM (fun idx => formatStageData championsCache itemsCache stages idx) keyIndices).

Section Handler.
Context (gunzipSync : string -> option string).
Context (JSON_parse_TrackerData : string -> M TrackerData.t).
Context (JSON_parse_stages : string -> option Stages).
Context (toLowerCase : string -> string).

Local Open Scope M_scope.

Definition fetchTrackerData (w : World.t) (uuid : string) : M TrackerData.t :=
  let url := METATFT_S3 +:+ "/" +:+ uuid +:+ ".json" in
  response <- World.fetch w url ;;
  if negb (Response.ok response) then
    throw (Error ("S3 fetch error: " +:+ pretty (Response.status response)))
  else
    let buffer := Response.body response in
    let jsonStr :=
      match gunzipSync buffer with
      | Some decompressed => decompressed
      | None => buffer
      end in
    JSON_parse_TrackerData jsonStr.

Definition parse_stage_data (sd : StageData) : Stages :=
  match JSON_parse_stages (StageData_ToString sd) with
  | Some v => v
  | None => StageData_value sd
  end.

(** The steps of the handler from the decoded stages to the reply. *)
Definition assemble (w : World.t) (matchId mode : string) (appMatch : AppMatch.t)
    (trackerData : TrackerData.t) (stages : list (option TrackerStage.t))
  : M ToolResult.t :=
  let championsCache := World.championsCache w in
  let itemsCache := World.itemsCache w in
  let gameName := Arguments.gameName (World.args w) in
  hpProgression <- formatAllStages toLowerCase gameName stages ;;
  let firstStage := mjoin (index stages 0) in
  let lastStage := mjoin (index stages (Z.of_nat (length stages) - 1)) in
  finalBoard <- finalBoard championsCache itemsCache stages ;;
  totals <- foldM totals_step stages (0, 0) ;;
  carryStats <- calculateCarryStats championsCache stages ;;
  stageProgression <- stageProgression championsCache itemsCache mode stages ;;
  let result :=
    {| Result.matchId := matchId;
       Result.trackerUuid := AppMatch.uuid appMatch;
       Result.server := TrackerData.server trackerData;
       Result.summonerName := TrackerData.summoner_name trackerData;
       Result.mode := mode;
       Result.portal := TrackerData.portal trackerData;
       Result.rank := TrackerData.summoner_tier trackerData;
       Result.set := TrackerData.tft_set_core_name trackerData;
       Result.totalRounds := Z.of_nat (length stages);
       Result.summary :=
         {| MatchSummary.startingHealth :=
              JS.parseInt (JS.string_or ((firstStage ≫= TrackerStage.me) ≫= Me.health) "100");
            MatchSummary.finalHealth :=
              JS.parseInt (JS.string_or ((lastStage ≫= TrackerStage.me) ≫= Me.health) "0");
            MatchSummary.finalGold :=
              JS.parseInt (JS.string_or ((lastStage ≫= TrackerStage.me) ≫= Me.gold) "0");
            MatchSummary.totalRerolls := fst totals;
            MatchSummary.totalIncome := snd totals |};
       Result.topCarries := JS.slice0 5 carryStats;
       Result.finalBoard := finalBoard;
       Result.stageProgression := stageProgression;
       Result.roundProgression :=
         if String.eqb mode "summary" then Some hpProgression else None |} in
  ret (text_reply (Assembled result) false).

Definition pipeline (w : World.t) (matchId mode : string) (appMatch : AppMatch.t)
    (trackerData : TrackerData.t) : M ToolResult.t :=
  let stages := parse_stage_data (TrackerData.stage_data trackerData) in
  stages <- as_array stages ;;
  assemble w matchId mode appMatch trackerData stages.

(** The body of the [try] block. *)
Definition run (w : World.t) (matchId mode : string) : M ToolResult.t :=
  let matchNumber := strip_region_prefix matchId in
  profile <- World.fetchMetaTFTProfile w ;;
  match ProfileResponse.app_matches profile with
  | None | Some [] =>
      ret (text_reply
             (NoTrackerData
                "No tracker data available. The MetaTFT tracker was not active during any recent games."
                "Tracker data is only available for games played with the MetaTFT overlay/tracker running.")
             true)
  | Some app_matches =>
      match List.find (fun m => String.eqb (AppMatch.match_id_ow m) matchNumber) app_matches with
      | None =>
          let availableMatches :=
            map (fun m =>
                   {| AvailableMatch.matchId := AppMatch.match_id_ow m;
                      AvailableMatch.date :=
                        World.toLocaleString w (AppMatch.created_timestamp m) |})
              app_matches in
          ret (text_reply
                 (NoTrackerForMatch
                    ("No tracker data for match " +:+ matchId)
                    "The MetaTFT tracker was not active during this game."
                    (JS.slice0 10 availableMatches))
                 true)
      | Some appMatch =>
          trackerData <- fetchTrackerData w (AppMatch.uuid appMatch) ;;
          pipeline w matchId mode appMatch trackerData
      end
  end.

Definition handleTftMatchTracker (w : World.t) (params : Params.t) : ToolResult.t :=
  let matchId := Params.matchId params in
  let mode := default "summary" (Params.mode params) in
  match run w matchId mode with
  | inr reply => reply
  | inl (Error message) => text_reply (Failure message) true
  end.

End Handler.

End Raw.

(** ** Payloads with gaps, read at the interfaces

    A payload whose entries are objects with their names is a payload of
    the interfaces.  [erase_stage] reads any payload as one: a name that is
    absent or null becomes the empty name, a null entry an entry without
    properties. *)

Definition erase_name (n : Raw.Name.t) : string :=
  match n with
  | Raw.Name.text s => s
  | _ => ""
  end.

Definition erase_piece (u : option Raw.BoardPiece.t) : BoardPiece.t :=
  match u with
  | Some u =>
      BoardPiece.mk (erase_name (Raw.BoardPiece.name u)) (Raw.BoardPiece.level u)
        (Raw.BoardPiece.item_1 u) (Raw.BoardPiece.item_2 u) (Raw.BoardPiece.item_3 u)
  | None => BoardPiece.mk "" None None None None
  end.

Definition erase_unit (u : option Raw.UnitDamage.t) : UnitDamage.t :=
  match u with
  | Some u =>
      UnitDamage.mk (erase_name (Raw.UnitDamage.name u)) (Raw.UnitDamage.damage u)
        (Raw.UnitDamage.level u)
  | None => UnitDamage.mk "" None 0
  end.

Definition erase_status (data : option PlayerStatus.t) : PlayerStatus.t :=
  default (PlayerStatus.mk 0 0 None) data.

Definition erase_outcome (entry : option RoundOutcome.t) : RoundOutcome.t :=
  default (RoundOutcome.mk "" "") entry.

Definition erase_shop_piece (s : option Raw.ShopPiece.t) : ShopPiece.t :=
  match s with
  | Some s => ShopPiece.mk (erase_name (Raw.ShopPiece.name s))
  | None => ShopPiece.mk ""
  end.

(** The record with the same keys in the same order, each value read by [f]. *)
Definition map_values {A B : Type} (f : A → B) (o : JS.object A) : JS.object B :=
  map (λ e : string * A, (e.1, f e.2)) o.

Definition erase_shop (s : option Raw.Shop.t) : Shop.t :=
  match s with
  | Some s => Shop.mk (map_values erase_shop_piece <$> Raw.Shop.shop_pieces s)
  | None => Shop.mk None
  end.

Definition erase_match_info (mi : Raw.MatchInfo.t) : MatchInfo.t :=
  MatchInfo.mk (Raw.MatchInfo.round_type mi)
    (map_values erase_outcome <$> Raw.MatchInfo.round_outcome mi)
    (Raw.MatchInfo.opponent mi).

(** [map_values] under an optional one-field object around the record. *)
Definition map_field {A B : Type} (f : A → B) (x : option (option (JS.object A)))
  : option (option (JS.object B)) :=
  match x with
  | Some (Some o) => Some (Some (map_values f o))
  | Some None => Some None
  | None => None
  end.

Definition erase_stage (stage : option Raw.TrackerStage.t) : TrackerStage.t :=
  match stage with
  | Some s =>
      TrackerStage.mk
        (map_field erase_piece (Raw.TrackerStage.board s))
        (map_field erase_piece (Raw.TrackerStage.bench s))
        (Raw.TrackerStage.me s)
        (map_field erase_status (Raw.TrackerStage.roster s))
        (erase_match_info <$> Raw.TrackerStage.match_info s)
        (map_field erase_unit (Raw.TrackerStage.local_player_damage s))
        (Raw.TrackerStage.gold_earned s)
        (Raw.TrackerStage.rerolls s)
        (Raw.TrackerStage.metrics s)
        (map erase_shop <$> Raw.TrackerStage.shops s)
  | None => TrackerStage.mk None None None None None None None None None None
  end.

Definition erase_stage_data (sd : Raw.StageData) : StageData :=
  match sd with
  | Raw.SDString text => SDString text
  | Raw.SDArray stages => SDArray (map erase_stage stages)
  | Raw.SDUndefined => SDUndefined
  end.

Definition erase_envelope (td : Raw.TrackerData.t) : TrackerData.t :=
  TrackerData.mk (Raw.TrackerData.match_id td) (Raw.TrackerData.server td)
    (Raw.TrackerData.summoner_name td) (Raw.TrackerData.uuid td)
    (erase_stage_data (Raw.TrackerData.stage_data td))
    (Raw.TrackerData.portal td) (Raw.TrackerData.summoner_tier td)
    (Raw.TrackerData.tft_set_core_name td).

(** A payload of the interfaces is a payload without gaps. *)

Definition lift_piece (u : BoardPiece.t) : option Raw.BoardPiece.t :=
  Some (Raw.BoardPiece.mk (Raw.Name.text (BoardPiece.name u)) (BoardPiece.level u)
          (BoardPiece.item_1 u) (BoardPiece.item_2 u) (BoardPiece.item_3 u)).

Definition lift_unit (u : UnitDamage.t) : option Raw.UnitDamage.t :=
  Some (Raw.UnitDamage.mk (Raw.Name.text (UnitDamage.name u)) (UnitDamage.damage u)
          (UnitDamage.level u)).

Definition lift_shop_piece (s : ShopPiece.t) : option Raw.ShopPiece.t :=
  Some (Raw.ShopPiece.mk (Raw.Name.text (ShopPiece.name s))).

Definition lift_shop (s : Shop.t) : option Raw.Shop.t :=
  Some (Raw.Shop.mk (map_values lift_shop_piece <$> Shop.shop_pieces s)).

Definition lift_match_info (mi : MatchInfo.t) : Raw.MatchInfo.t :=
  Raw.MatchInfo.mk (MatchInfo.round_type mi)
    (map_values Some <$> MatchInfo.round_outcome mi)
    (MatchInfo.opponent mi).

Definition lift_stage (s : TrackerStage.t) : option Raw.TrackerStage.t :=
  Some (Raw.TrackerStage.mk
          (map_field lift_piece (TrackerStage.board s))
          (map_field lift_piece (TrackerStage.bench s))
          (TrackerStage.me s)
          (map_field Some (TrackerStage.roster s))
          (lift_match_info <$> TrackerStage.match_info s)
          (map_field lift_unit (TrackerStage.local_player_damage s))
          (TrackerStage.gold_earned s)
          (TrackerStage.rerolls s)
          (TrackerStage.metrics s)
          (map lift_shop <$> TrackerStage.shops s)).

Definition lift_stage_data (sd : StageData) : Raw.StageData :=
  match sd with
  | SDString text => Raw.SDString text
  | SDArray stages => Raw.SDArray (map lift_stage stages)
  | SDUndefined => Raw.SDUndefined
  end.

Definition lift_envelope (td : TrackerData.t) : Raw.TrackerData.t :=
  Raw.TrackerData.mk (TrackerData.match_id td) (TrackerData.server td)
    (TrackerData.summoner_name td) (TrackerData.uuid td)
    (lift_stage_data (TrackerData.stage_data td))
    (TrackerData.portal td) (TrackerData.summoner_tier td)
    (TrackerData.tft_set_core_name td).

Definition lift_stages (stages : Stages) : Raw.Stages :=
  match stages with
  | Array l => Raw.Array (map lift_stage l)
  | Undefined => Raw.Undefined
  | Null => Raw.Null
  | NotArray => Raw.NotArray
  end.

(** *** What the tracker can read without a TypeError *)

(** The computation throws. *)
Definition fails {A : Type} (m : M A) : Prop := ∃ e, m = throw e.

Definition named (n : Raw.Name.t) : bool :=
  match n with
  | Raw.Name.text _ => true
  | _ => false
  end.

(** A board, bench or final-board entry: an object with its name. *)
Definition readable_piece (u : option Raw.BoardPiece.t) : bool :=
  match u with
  | Some u => named (Raw.BoardPiece.name u)
  | None => false
  end.

(** A damage record: an object, with its name when its damage is positive. *)
Definition readable_unit (u : option Raw.UnitDamage.t) : bool :=
  match u with
  | Some u => negb (Raw.positive_damage u) || named (Raw.UnitDamage.name u)
  | None => false
  end.

Definition readable_shop_piece (s : option Raw.ShopPiece.t) : bool :=
  match s with
  | Some s => named (Raw.ShopPiece.name s)
  | None => false
  end.

Definition not_null {A : Type} (x : option A) : bool :=
  match x with
  | Some _ => true
  | None => false
  end.

(** Every value of a record that may be missing passes [p]. *)
Definition all_values {V : Type} (p : V → bool) (o : option (JS.object V)) : bool :=
  match o with
  | Some o => forallb p (Object_values o)
  | None => true
  end.

(** The entries [formatStageData] reads of a stage. *)
Definition snapshot_readable (stage : Raw.TrackerStage.t) : bool :=
  all_values readable_piece (Raw.TrackerStage.board_pieces stage)
  && all_values readable_piece (Raw.TrackerStage.bench_pieces stage)
  && all_values readable_unit (Raw.TrackerStage.units stage)
  && all_values not_null (Raw.TrackerStage.player_status stage)
  && all_values readable_shop_piece (Raw.TrackerStage.last_shop_pieces stage).

(** [formatStageData(stages, i)] reads nothing of a stage that is null or
    out of range. *)
Definition snapshot_readable_at (stages : list (option Raw.TrackerStage.t)) (i : Z) : bool :=
  match index stages i with
  | Some (Some stage) => snapshot_readable stage
  | _ => true
  end.

(** The entries the callback of [formatAllStages] reads of a stage: the
    stage itself and the outcome entry that [find] selects. *)
Definition summary_readable (toLowerCase : string → string) (gameName : string)
    (stage : option Raw.TrackerStage.t) : bool :=
  match stage with
  | Some stage =>
      match Raw.TrackerStage.round_outcome stage with
      | Some o =>
          match Raw.my_outcome toLowerCase gameName o with
          | Some (_, None) => false
          | _ => true
          end
      | None => true
      end
  | None => false
  end.

(** The entries [calculateCarryStats] reads of a stage. *)
Definition carry_readable (stage : option Raw.TrackerStage.t) : bool :=
  match stage with
  | Some stage => all_values readable_unit (Raw.TrackerStage.units stage)
  | None => false
  end.

(** The entries the handler reads for the final board. *)
Definition finalBoard_readable (stages : list (option Raw.TrackerStage.t)) : bool :=
  all_values readable_piece
    (mjoin (index stages (Z.of_nat (length stages) - 1)) ≫= Raw.TrackerStage.board_pieces).

(** The stages the handler hands to [formatStageData]: all of them in the
    complete mode, else the key stages. *)
Definition progression_readable (mode : string) (stages : list (option Raw.TrackerStage.t))
  : bool :=
  if String.eqb mode "complete" then
    forallb (snapshot_readable_at stages) (map Z.of_nat (seq 0 (length stages)))
  else
    forallb (snapshot_readable_at stages)
      (findKeyProgressionStages (map erase_stage stages)).

(** Everything the handler reads of a decoded stage array. *)
Definition readable (toLowerCase : string → string) (gameName mode : string)
    (stages : list (option Raw.TrackerStage.t)) : bool :=
  forallb (summary_readable toLowerCase gameName) stages
  && finalBoard_readable stages
  && forallb carry_readable stages
  && progression_readable mode stages.

(** The result of the handler with another round progression. *)
Definition with_rounds (rounds : list RoundSummary.t) (r : Result.t) : Result.t :=
  {| Result.matchId := Result.matchId r;
     Result.trackerUuid := Result.trackerUuid r;
     Result.server := Result.server r;
     Result.summonerName := Result.summonerName r;
     Result.mode := Result.mode r;
     Result.portal := Result.portal r;
     Result.rank := Result.rank r;
     Result.set := Result.set r;
     Result.totalRounds := Result.totalRounds r;
     Result.summary := Result.summary r;
     Result.topCarries := Result.topCarries r;
     Result.finalBoard := Result.finalBoard r;
     Result.stageProgression := Result.stageProgression r;
     Result.roundProgression := const rounds <$> Result.roundProgression r |}.


(** A key of [round_outcome] names the player when, in lower case, it
    holds the game name in lower case. *)
Definition names_player (toLowerCase : string → string) (gameName k : string) : Prop :=
  substring_of (toLowerCase gameName) (toLowerCase k).

(** *** Sample payloads with gaps *)

(** The stage [{}]. *)
Definition bare_stage : Raw.TrackerStage.t :=
  Raw.TrackerStage.mk None None None None None None None None None None.


(** A stage with a board, a [bench] without pieces, a [me] without health,
    gold and xp, a null outcome entry under another player's key, a damage
    record without name and damage, and a null last shop. *)
Definition gapped_outcomes : JS.object (option RoundOutcome.t) :=
  [("Rival", None); ("PLAYER", Some (RoundOutcome.mk "defeat" "EUW"))].

Definition gapped_stage : Raw.TrackerStage.t :=
  Raw.TrackerStage.mk
    (Some (Some [("cell_1",
                  Some (Raw.BoardPiece.mk (Raw.Name.text "TFT16_Ahri") None None None None))]))
    (Some None)
    (Some (Me.mk None None None))
    None
    (Some (Raw.MatchInfo.mk None (Some gapped_outcomes) None))
    (Some (Some [("0", Some (Raw.UnitDamage.mk Raw.Name.absent None 1))]))
    None None None
    (Some [None]).




(** ** The key-stage selector *)

Lemma existsb_eqb_elem_of (s : string) (l : list string) :
  existsb (String.eqb s) l = true ↔ s ∈ l.
Proof.
  rewrite existsb_exists, list_elem_of_In. split.
  - intros (x & Hin & Heq). apply String.eqb_eq in Heq. by subst.
  - intros Hin. exists s. split; [done | apply String.eqb_refl].
Qed.

Lemma existsb_eqb_not_elem_of (s : string) (l : list string) :
  existsb (String.eqb s) l = false ↔ s ∉ l.
Proof.
  rewrite <- existsb_eqb_elem_of. destruct (existsb _ l); split; congruence.
Qed.

Lemma first_occurrence_snoc (pre : list TrackerStage.t) (stage : TrackerStage.t) (i : Z) :
  first_occurrence (pre ++ [stage]) i ↔
  first_occurrence pre i ∨
  (i = Z.of_nat (length pre) ∧
   ∃ s, stageInfo stage = Some s ∧ s ∈ keyRounds ∧ ¬ seen pre s).
Proof.
  split.
  - intros (n & s & st & -> & Hn & Hs & Hk & Hfirst).
    destruct (decide (n < length pre)%nat) as [Hlt | Hge].
    + left. exists n, s, st. rewrite lookup_app_l in Hn by done.
      repeat split; try done.
      intros m st' Hm Hst'. apply (Hfirst m st' Hm).
      rewrite lookup_app_l by lia. done.
    + right. assert (n = length pre) as ->.
      { apply lookup_lt_Some in Hn. rewrite length_app in Hn. simpl in Hn. lia. }
      rewrite list_lookup_middle in Hn by done. injection Hn as <-.
      split; [done |]. exists s. repeat split; try done.
      intros (m & st' & Hm & Hst').
      apply (Hfirst m st'); [by apply lookup_lt_Some in Hm | | done].
      rewrite lookup_app_l; [done | by apply lookup_lt_Some in Hm].
  - intros [(n & s & st & -> & Hn & Hs & Hk & Hfirst) | (-> & s & Hs & Hk & Hnot)].
    + exists n, s, st. repeat split; try done.
      * apply lookup_app_l_Some. done.
      * intros m st' Hm Hst'. apply (Hfirst m st' Hm).
        rewrite lookup_app_l in Hst'; [done |]. apply lookup_lt_Some in Hn. lia.
    + exists (length pre), s, stage. repeat split; try done.
      * by rewrite list_lookup_middle.
      * intros m st' Hm Hst' Heq. apply Hnot. exists m, st'.
        rewrite lookup_app_l in Hst' by done. done.
Qed.

Lemma seen_snoc (pre : list TrackerStage.t) (stage : TrackerStage.t) (s : string) :
  seen (pre ++ [stage]) s ↔ seen pre s ∨ stageInfo stage = Some s.
Proof.
  split.
  - intros (m & st & Hm & Hs).
    destruct (decide (m < length pre)%nat) as [Hlt | Hge].
    + left. exists m, st. by rewrite lookup_app_l in Hm.
    + right. assert (m = length pre) as ->.
      { apply lookup_lt_Some in Hm. rewrite length_app in Hm. simpl in Hm. lia. }
      rewrite list_lookup_middle in Hm by done. by injection Hm as <-.
  - intros [(m & st & Hm & Hs) | Hs].
    + exists m, st. split; [by apply lookup_app_l_Some | done].
    + exists (length pre), stage. by rewrite list_lookup_middle.
Qed.

Lemma StronglySorted_snoc_lt (l : list Z) (x : Z) :
  StronglySorted Z.lt l → Forall (λ k, k < x) l → StronglySorted Z.lt (l ++ [x]).
Proof.
  induction 1 as [| y l Hl IH Hy]; intros Hall; simpl.
  - repeat constructor.
  - inversion Hall; subst. constructor; [by apply IH |].
    apply Forall_app. split; [done | by repeat constructor].
Qed.

Lemma StronglySorted_snoc_inv (l : list Z) (x : Z) :
  StronglySorted Z.lt (l ++ [x]) → Forall (λ k, k < x) l.
Proof.
  induction l as [| y l IH]; simpl; intros Hs; [constructor |].
  inversion Hs as [| ? ? Hl Hall]; subst.
  apply Forall_app in Hall as [_ Hx]. inversion Hx; subst.
  constructor; [done | by apply IH].
Qed.

Lemma key_step_inv (pre : list TrackerStage.t) (stage : TrackerStage.t)
    (st : list Z * list string) :
  key_inv pre st → key_inv (pre ++ [stage]) (key_step (Z.of_nat (length pre)) stage st).
Proof.
  intros [Hsorted Hbound Hfirst Hfound]. destruct st as [ks found].
  simpl in Hsorted, Hbound, Hfirst, Hfound.
  assert (Hweaken : Forall (λ k, 0 ≤ k < Z.of_nat (length (pre ++ [stage]))) ks).
  { eapply Forall_impl; [exact Hbound |]. intros k Hk. simpl in Hk. rewrite length_app. simpl. lia. }
  unfold key_step.
  destruct (stageInfo stage) as [s |] eqn:Hs; cbv beta iota.
  2:{ split; simpl; try done.
      - intros i. rewrite first_occurrence_snoc, Hfirst.
        split; [by left | intros [H | (_ & s & Hs' & _)]; [done | congruence]].
      - intros s. rewrite seen_snoc, Hfound.
        split; [intros [? ?]; split; [done | by left]
               | intros [? [? | ?]]; [done | congruence]]. }
  destruct (existsb (String.eqb s) keyRounds) eqn:Hkey.
  2:{ rewrite andb_false_r. simpl. apply existsb_eqb_not_elem_of in Hkey.
      split; simpl; try done.
      - intros i. rewrite first_occurrence_snoc, Hfirst.
        split; [by left | intros [H | (_ & s' & Hs' & Hk & _)]; [done | congruence]].
      - intros s'. rewrite seen_snoc, Hfound.
        split; [intros [? ?]; split; [done | by left] |].
        intros [Hk [? | Heq]]; [done | congruence]. }
  apply existsb_eqb_elem_of in Hkey.
  assert (Htruthy : JS.truthy_string (Some s) = true).
  { unfold keyRounds in Hkey.
    repeat (apply elem_of_cons in Hkey as [-> | Hkey]; [done |]).
    by apply elem_of_nil in Hkey. }
  rewrite Htruthy. simpl.
  destruct (existsb (String.eqb s) found) eqn:Hin; simpl.
  - apply existsb_eqb_elem_of, Hfound in Hin. destruct Hin as [_ Hseen].
    split; simpl; try done.
    + intros i. rewrite first_occurrence_snoc, Hfirst.
      split; [by left | intros [H | (_ & s' & Hs' & _ & Hnot)]; [done |]].
      congruence.
    + intros s'. rewrite seen_snoc, Hfound.
      split; [intros [? ?]; split; [done | by left] |].
      intros [Hk [? | Heq]]; [done | ]. assert (s' = s) as -> by congruence. done.
  - apply existsb_eqb_not_elem_of in Hin.
    assert (Hnot : ¬ seen pre s) by (intros Hseen; apply Hin, Hfound; done).
    split; simpl.
    + apply StronglySorted_snoc_lt; [done |].
      eapply Forall_impl; [exact Hbound |]. simpl. lia.
    + apply Forall_app. split; [done |]. repeat constructor; [lia |].
      rewrite length_app. simpl. lia.
    + intros i. rewrite elem_of_app, list_elem_of_singleton, first_occurrence_snoc, Hfirst.
      split; (intros [H | H]; [by left | right]).
      * split; [done |]. by exists s.
      * by destruct H.
    + intros s'. rewrite elem_of_app, list_elem_of_singleton, seen_snoc, Hfound.
      split.
      * intros [[? ?] | ->]; [split; [done | by left] | split; [done | by right]].
      * intros [Hk [? | Heq]]; [by left | right; congruence].
Qed.

Lemma key_loop_inv (rest pre : list TrackerStage.t) (st : list Z * list string) :
  key_inv pre st → key_inv (pre ++ rest) (key_loop (Z.of_nat (length pre)) rest st).
Proof.
  revert pre st. induction rest as [| stage rest IH]; intros pre st Hinv; simpl.
  - by rewrite app_nil_r.
  - replace (Z.of_nat (length pre) + 1) with (Z.of_nat (length (pre ++ [stage])))
      by (rewrite length_app; simpl; lia).
    replace (pre ++ stage :: rest) with ((pre ++ [stage]) ++ rest)
      by (by rewrite <- app_assoc).
    apply IH, key_step_inv, Hinv.
Qed.

Lemma key_inv_init : key_inv [] ([], []).
Proof.
  split; simpl.
  - constructor.
  - constructor.
  - intros i. split; [by intros ?%elem_of_nil |].
    intros (n & s & st & _ & Hn & _). by rewrite lookup_nil in Hn.
  - intros s. split; [by intros ?%elem_of_nil |].
    intros (_ & m & st & Hm & _). by rewrite lookup_nil in Hm.
Qed.

Lemma StronglySorted_lt_NoDup (l : list Z) : StronglySorted Z.lt l → NoDup l.
Proof.
  induction 1 as [| x l Hl IH Hx]; constructor; [| done].
  intros Hin. rewrite Forall_forall in Hx. specialize (Hx x Hin). lia.
Qed.

Lemma first_occurrence_label (stages : list TrackerStage.t) (i : Z) (s : string) :
  first_occurrence stages i → index stages i ≫= stageInfo = Some s →
  ∃ n stage, i = Z.of_nat n ∧ stages !! n = Some stage ∧ stageInfo stage = Some s ∧
    ∀ (m : nat) (stage' : TrackerStage.t),
      (m < n)%nat → stages !! m = Some stage' → stageInfo stage' ≠ Some s.
Proof.
  intros (n & s' & stage & -> & Hn & Hs' & _ & Hfirst) Hlabel.
  unfold index in Hlabel. destruct (Z.of_nat n <? 0) eqn:Hneg; [done |].
  rewrite Nat2Z.id, Hn in Hlabel. simpl in Hlabel.
  assert (s' = s) as -> by congruence. by exists n, stage.
Qed.

(** A label is selected at most once. *)
Lemma first_occurrence_unique (stages : list TrackerStage.t) (i j : Z) (s : string) :
  first_occurrence stages i → first_occurrence stages j →
  index stages i ≫= stageInfo = Some s → index stages j ≫= stageInfo = Some s →
  i = j.
Proof.
  intros Hi Hj Hli Hlj.
  destruct (first_occurrence_label stages i s Hi Hli) as (n & sn & -> & Hn & Hsn & Hfn).
  destruct (first_occurrence_label stages j s Hj Hlj) as (m & sm & -> & Hm & Hsm & Hfm).
  destruct (Nat.lt_trichotomy n m) as [Hlt | [-> | Hgt]]; [| done |].
  - by destruct (Hfm n sn Hlt Hn).
  - by destruct (Hfn m sm Hgt Hm).
Qed.

(** C3: [findKeyProgressionStages] returns the indices of the first
    occurrence of each key label, in scan order, followed by the index of
    the last stage unless that is already the last index selected; the
    result is strictly ascending, hence without repeats.  For the labels
    1-1, 2-1, 2-1, 3-2, 4-2, 5-1, 6-1, 6-2 it is [1; 3; 4; 5; 6; 7]. *)
Theorem findKeyProgressionStages_first_occurrences :
  (∀ stages : list TrackerStage.t,
     let lastIndex := Z.of_nat (length stages) - 1 in
     ∃ selected : list Z,
       findKeyProgressionStages stages =
         selected ++ (if decide (last selected = Some lastIndex) then [] else [lastIndex]) ∧
       (∀ i, i ∈ selected ↔ first_occurrence stages i) ∧
       (∀ i j s, i ∈ selected → j ∈ selected →
                 index stages i ≫= stageInfo = Some s →
                 index stages j ≫= stageInfo = Some s → i = j) ∧
       StronglySorted Z.lt selected ∧
       StronglySorted Z.lt (findKeyProgressionStages stages) ∧
       NoDup (findKeyProgressionStages stages)) ∧
  findKeyProgressionStages
    (map labelled ["1-1"; "2-1"; "2-1"; "3-2"; "4-2"; "5-1"; "6-1"; "6-2"])
  = [1; 3; 4; 5; 6; 7].
Proof.
  split; [| reflexivity].
  intros stages lastIndex.
  pose proof (key_loop_inv stages [] ([], []) key_inv_init) as Hinv.
  simpl in Hinv. change (Z.of_nat 0) with 0 in Hinv. unfold findKeyProgressionStages.
  destruct (key_loop 0 stages ([], [])) as [ks found].
  destruct Hinv as [Hsorted Hbound Hfirst _]. simpl in *.
  fold lastIndex.
  assert (Hres : StronglySorted Z.lt
            match last ks with
            | Some k => if k =? lastIndex then ks else ks ++ [lastIndex]
            | None => ks ++ [lastIndex]
            end).
  { destruct (last ks) as [k |] eqn:Hlast.
    - destruct (k =? lastIndex) eqn:Hk; [done |].
      apply StronglySorted_snoc_lt; [done |].
      apply Z.eqb_neq in Hk.
      apply last_Some in Hlast as [ks' ->].
      apply Forall_app in Hbound as [Hb1 Hb2].
      apply StronglySorted_snoc_inv in Hsorted.
      inversion Hb2; subst.
      apply Forall_app. split.
      + eapply Forall_impl; [exact Hsorted |]. simpl. unfold lastIndex. lia.
      + repeat constructor. unfold lastIndex. lia.
    - apply last_None in Hlast. subst. repeat constructor. }
  exists ks. repeat split; try done.
  - destruct (last ks) as [k |] eqn:Hlast.
    + destruct (k =? lastIndex) eqn:Hk.
      * apply Z.eqb_eq in Hk. subst k. rewrite decide_True by done. by rewrite app_nil_r.
      * apply Z.eqb_neq in Hk. rewrite decide_False by congruence. done.
    + rewrite decide_False by done. done.
  - by apply Hfirst.
  - by apply Hfirst.
  - intros i j s Hi Hj. apply first_occurrence_unique; by apply Hfirst.
  - by apply StronglySorted_lt_NoDup.
Qed.

(** ** Sorting by a key, descending *)

Section DescendingSort.
Context {A : Type} (key : A → Z).

Lemma sort_insert_Permutation (x : A) (l : list A) :
  JS.sort_insert (λ a b, key b - key a) x l ≡ₚ x :: l.
Proof.
  induction l as [| y l IH]; simpl; [done |].
  destruct (0 <? key y - key x); [| done].
  rewrite IH. apply Permutation_swap.
Qed.

Lemma sort_Permutation (l : list A) : JS.sort (λ a b, key b - key a) l ≡ₚ l.
Proof.
  induction l as [| x l IH]; simpl; [done |].
  by rewrite sort_insert_Permutation, IH.
Qed.

Lemma sort_insert_sorted (x : A) (l : list A) :
  StronglySorted (λ a b, key b ≤ key a) l →
  StronglySorted (λ a b, key b ≤ key a) (JS.sort_insert (λ a b, key b - key a) x l).
Proof.
  induction 1 as [| y l Hl IH Hy]; simpl; [repeat constructor |].
  destruct (0 <? key y - key x) eqn:Hc.
  - apply Z.ltb_lt in Hc. constructor; [done |].
    rewrite sort_insert_Permutation. constructor; [lia | done].
  - apply Z.ltb_ge in Hc. constructor; [by constructor |].
    constructor; [lia |]. eapply Forall_impl; [exact Hy |]. simpl. lia.
Qed.

Lemma sort_sorted (l : list A) :
  StronglySorted (λ a b, key b ≤ key a) (JS.sort (λ a b, key b - key a) l).
Proof.
  induction l as [| x l IH]; simpl; [constructor | by apply sort_insert_sorted].
Qed.

Lemma sort_insert_stable (t : Z) (x : A) (l : list A) :
  List.filter (λ a, key a =? t) (JS.sort_insert (λ a b, key b - key a) x l)
  = List.filter (λ a, key a =? t) (x :: l).
Proof.
  induction l as [| y l IH]; [done |].
  cbn [JS.sort_insert].
  destruct (0 <? key y - key x) eqn:Hc; [| done].
  apply Z.ltb_lt in Hc. cbn [List.filter] in *. rewrite IH.
  destruct (key y =? t) eqn:Hy, (key x =? t) eqn:Hx; try done.
  apply Z.eqb_eq in Hy, Hx. lia.
Qed.

(** Stability: the elements of equal key keep their relative order. *)
Lemma sort_stable (t : Z) (l : list A) :
  List.filter (λ a, key a =? t) (JS.sort (λ a b, key b - key a) l) = List.filter (λ a, key a =? t) l.
Proof.
  induction l as [| x l IH]; [done |].
  cbn [JS.sort]. rewrite sort_insert_stable. cbn [List.filter]. by rewrite IH.
Qed.

End DescendingSort.

(** ** Own properties *)

Section ObjectLemmas.
Context {V : Type}.
Implicit Types (o : JS.object V) (k : string) (v : V).

Lemma get_own_Some_elem_of o k v : JS.get_own o k = Some v → (k, v) ∈ o.
Proof.
  induction o as [| [k' v'] o IH]; simpl; [done |].
  destruct (String.eqb k' k) eqn:Hk.
  - apply String.eqb_eq in Hk. intros [= ->]. subst. left.
  - intros H. right. by apply IH.
Qed.

Lemma get_own_None o k : JS.get_own o k = None ↔ k ∉ Object_keys o.
Proof.
  unfold Object_keys. induction o as [| [k' v'] o IH]; simpl.
  - split; [intros _; apply not_elem_of_nil | done].
  - destruct (String.eqb k' k) eqn:Hk.
    + apply String.eqb_eq in Hk. subst. split; [done |]. intros H. exfalso. apply H. left.
    + apply String.eqb_neq in Hk. rewrite IH, not_elem_of_cons.
      split; [intros H; split; [congruence | done] | by intros [_ ?]].
Qed.

Lemma get_own_is_Some o k : is_Some (JS.get_own o k) ↔ k ∈ Object_keys o.
Proof.
  destruct (JS.get_own o k) eqn:H.
  - split; [intros _ | by eauto].
    apply get_own_Some_elem_of in H. unfold Object_keys.
    apply list_elem_of_fmap. by exists (k, v).
  - apply get_own_None in H. split; [by intros [? ?] | done].
Qed.

Lemma elem_of_get_own o k v :
  NoDup (Object_keys o) → (k, v) ∈ o → JS.get_own o k = Some v.
Proof.
  unfold Object_keys. induction o as [| [k' v'] o IH]; simpl.
  - by intros _ ?%elem_of_nil.
  - intros Hnd Hin. apply NoDup_cons in Hnd as [Hnot Hnd].
    apply elem_of_cons in Hin as [[= -> ->] | Hin].
    + by rewrite String.eqb_refl.
    + destruct (String.eqb k' k) eqn:Hk; [| by apply IH].
      apply String.eqb_eq in Hk. subst. exfalso. apply Hnot.
      apply list_elem_of_fmap. by exists (k, v).
Qed.

Lemma keys_update_own o k v : Object_keys (JS.update_own o k v) = Object_keys o.
Proof.
  unfold Object_keys. induction o as [| [k' v'] o IH]; simpl; [done |].
  destruct (String.eqb k' k); simpl; [done | by rewrite IH].
Qed.

Lemma get_own_update_own o k v k' :
  JS.get_own (JS.update_own o k v) k' =
  if String.eqb k k' then (λ _, v) <$> JS.get_own o k else JS.get_own o k'.
Proof.
  induction o as [| [k0 v0] o IH]; simpl.
  - by destruct (String.eqb k k').
  - destruct (String.eqb k0 k) eqn:H0; simpl.
    + apply String.eqb_eq in H0. subst k0.
      destruct (String.eqb k k'); simpl; done.
    + rewrite IH. destruct (String.eqb k k') eqn:Hk.
      * apply String.eqb_eq in Hk. subst k'. by rewrite H0.
      * done.
Qed.

Lemma keys_insert_index i k v o :
  Object_keys (JS.insert_index i k v o) = insert_key i k (Object_keys o).
Proof.
  unfold Object_keys. induction o as [| [k' v'] o IH]; simpl; [done |].
  destruct (JS.array_index k') as [j |]; [| done].
  destruct (j <? i); simpl; [by rewrite IH | done].
Qed.

Lemma get_own_insert_index i k v o k' :
  JS.get_own o k = None →
  JS.get_own (JS.insert_index i k v o) k' =
  if String.eqb k k' then Some v else JS.get_own o k'.
Proof.
  induction o as [| [k0 v0] o IH]; simpl; [done |].
  destruct (String.eqb k0 k) eqn:H0; [done |]. intros Hnone.
  assert (Hhead : JS.get_own ((k, v) :: (k0, v0) :: o) k'
                  = if String.eqb k k' then Some v else JS.get_own ((k0, v0) :: o) k')
    by done.
  destruct (JS.array_index k0) as [j |]; [| exact Hhead].
  destruct (j <? i); [| exact Hhead].
  simpl. rewrite (IH Hnone).
  destruct (String.eqb k k') eqn:Hk; [| done].
  apply String.eqb_eq in Hk. subst k'. by rewrite H0.
Qed.

Lemma get_own_app_None o k v k' :
  JS.get_own o k = None →
  JS.get_own (o ++ [(k, v)]) k' = if String.eqb k k' then Some v else JS.get_own o k'.
Proof.
  induction o as [| [k0 v0] o IH]; simpl; [done |].
  destruct (String.eqb k0 k) eqn:H0; [done |]. intros Hnone. rewrite (IH Hnone).
  destruct (String.eqb k k') eqn:Hk; [| done].
  apply String.eqb_eq in Hk. subst k'. by rewrite H0.
Qed.

Lemma keys_set_own o k v :
  JS.get_own o k = None → Object_keys (JS.set_own o k v) = add_key (Object_keys o) k.
Proof.
  intros Hnone. unfold JS.set_own, add_key. rewrite Hnone.
  apply get_own_None, existsb_eqb_not_elem_of in Hnone. rewrite Hnone.
  destruct (JS.array_index k); [apply keys_insert_index |].
  unfold Object_keys. by rewrite map_app.
Qed.

Lemma get_own_set_own o k v k' :
  JS.get_own o k = None →
  JS.get_own (JS.set_own o k v) k' = if String.eqb k k' then Some v else JS.get_own o k'.
Proof.
  intros Hnone. unfold JS.set_own. rewrite Hnone.
  destruct (JS.array_index k); [by apply get_own_insert_index | by apply get_own_app_None].
Qed.

End ObjectLemmas.

(** ** Key order of an object *)

Lemma array_index_pretty (k : string) (i : Z) : JS.array_index k = Some i → pretty i = k.
Proof.
  unfold JS.array_index. destruct (JS.parse_digits 10 None k) as [n |]; [| done].
  destruct (String.eqb (pretty n) k) eqn:Hk; simpl; [| done].
  apply String.eqb_eq in Hk. destruct (n <? 4294967295); [| done]. by intros [= <-].
Qed.

Lemma array_index_inj (a b : string) (i : Z) :
  JS.array_index a = Some i → JS.array_index b = Some i → a = b.
Proof. intros Ha%array_index_pretty Hb%array_index_pretty. congruence. Qed.

Lemma is_index_true (k : string) : is_index k = true ↔ is_Some (JS.array_index k).
Proof. unfold is_index. apply bool_decide_eq_true. Qed.

Lemma is_index_false (k : string) : is_index k = false ↔ JS.array_index k = None.
Proof.
  unfold is_index. rewrite bool_decide_eq_false.
  destruct (JS.array_index k); split; try done.
  intros H. exfalso. apply H. by eexists.
Qed.

Lemma insert_key_Permutation (i : Z) (k : string) (ks : list string) :
  insert_key i k ks ≡ₚ k :: ks.
Proof.
  induction ks as [| k' ks IH]; simpl; [done |].
  destruct (JS.array_index k') as [j |]; [| done].
  destruct (j <? i); [| done]. rewrite IH. apply Permutation_swap.
Qed.

Lemma add_key_elem_of (ks : list string) (k x : string) :
  x ∈ add_key ks k ↔ x = k ∨ x ∈ ks.
Proof.
  unfold add_key. destruct (existsb (String.eqb k) ks) eqn:Hin.
  - apply existsb_eqb_elem_of in Hin. split; [by right | by intros [-> | ?]].
  - destruct (JS.array_index k).
    + rewrite insert_key_Permutation. apply elem_of_cons.
    + rewrite elem_of_app, list_elem_of_singleton. tauto.
Qed.

Lemma add_key_NoDup (ks : list string) (k : string) : NoDup ks → NoDup (add_key ks k).
Proof.
  intros Hnd. unfold add_key. destruct (existsb (String.eqb k) ks) eqn:Hin; [done |].
  apply existsb_eqb_not_elem_of in Hin. destruct (JS.array_index k).
  - rewrite insert_key_Permutation. by constructor.
  - apply NoDup_app. repeat split; [done | | apply NoDup_singleton].
    intros x Hx ->%list_elem_of_singleton. done.
Qed.

Lemma key_order_snoc (l : list string) (n : string) :
  key_order (l ++ [n]) = add_key (key_order l) n.
Proof. unfold key_order. by rewrite fold_left_app. Qed.

Lemma first_seen_snoc (l : list string) (n : string) :
  first_seen (l ++ [n]) =
  if existsb (String.eqb n) (first_seen l) then first_seen l else first_seen l ++ [n].
Proof. unfold first_seen. by rewrite fold_left_app. Qed.

Lemma key_order_elem_of (l : list string) (x : string) : x ∈ key_order l ↔ x ∈ l.
Proof.
  induction l as [| n l IH] using rev_ind; [done |].
  rewrite key_order_snoc, add_key_elem_of, IH, elem_of_app, list_elem_of_singleton. tauto.
Qed.

Lemma first_seen_elem_of (l : list string) (x : string) : x ∈ first_seen l ↔ x ∈ l.
Proof.
  induction l as [| n l IH] using rev_ind; [done |].
  rewrite first_seen_snoc, elem_of_app, list_elem_of_singleton, <- IH.
  destruct (existsb (String.eqb n) (first_seen l)) eqn:Hin.
  - apply existsb_eqb_elem_of in Hin. split; [by left | by intros [? | ->]].
  - rewrite elem_of_app, list_elem_of_singleton. tauto.
Qed.

Lemma key_order_NoDup (l : list string) : NoDup (key_order l).
Proof.
  induction l as [| n l IH] using rev_ind; [constructor |].
  rewrite key_order_snoc. by apply add_key_NoDup.
Qed.

Lemma first_seen_NoDup (l : list string) : NoDup (first_seen l).
Proof.
  induction l as [| n l IH] using rev_ind; [constructor |].
  rewrite first_seen_snoc.
  destruct (existsb (String.eqb n) (first_seen l)) eqn:Hin; [done |].
  apply existsb_eqb_not_elem_of in Hin.
  apply NoDup_app. repeat split; [done | | apply NoDup_singleton].
  intros x Hx ->%list_elem_of_singleton. done.
Qed.

Lemma filter_nonindex_insert_key (i : Z) (k : string) (ks : list string) :
  JS.array_index k = Some i →
  List.filter (λ x, negb (is_index x)) (insert_key i k ks)
  = List.filter (λ x, negb (is_index x)) ks.
Proof.
  intros Hk. assert (Hidx : is_index k = true) by (apply is_index_true; by eexists).
  induction ks as [| k' ks IH]; simpl; [by rewrite Hidx |].
  destruct (JS.array_index k') as [j |] eqn:Hk'.
  - destruct (j <? i); simpl; [by rewrite IH | by rewrite Hidx].
  - simpl. by rewrite Hidx.
Qed.

(** The keys that are not array indices enumerate in order of creation. *)
Lemma key_order_nonindex (l : list string) :
  List.filter (λ x, negb (is_index x)) (key_order l)
  = List.filter (λ x, negb (is_index x)) (first_seen l).
Proof.
  induction l as [| n l IH] using rev_ind; [done |].
  rewrite key_order_snoc, first_seen_snoc. unfold add_key.
  destruct (existsb (String.eqb n) (key_order l)) eqn:Hin.
  - apply existsb_eqb_elem_of in Hin as Hin'.
    rewrite key_order_elem_of, <- first_seen_elem_of in Hin'.
    apply existsb_eqb_elem_of in Hin'. by rewrite Hin'.
  - apply existsb_eqb_not_elem_of in Hin as Hin'.
    rewrite key_order_elem_of, <- first_seen_elem_of in Hin'.
    apply existsb_eqb_not_elem_of in Hin'. rewrite Hin'.
    rewrite List.filter_app. simpl.
    destruct (JS.array_index n) as [i |] eqn:Hn.
    + rewrite (filter_nonindex_insert_key i n _ Hn), IH.
      assert (is_index n = true) as -> by (apply is_index_true; by eexists).
      simpl. by rewrite app_nil_r.
    + rewrite List.filter_app, IH. done.
Qed.

Lemma insert_key_app (i : Z) (k : string) (ik sk : list string) :
  Forall (λ k, is_index k = true) ik → Forall (λ k, is_index k = false) sk →
  insert_key i k (ik ++ sk) = insert_key i k ik ++ sk.
Proof.
  intros Hik Hsk. induction Hik as [| k' ik Hk' Hik IH]; simpl.
  - destruct Hsk as [| k' sk Hk' Hsk]; simpl; [done |].
    apply is_index_false in Hk'. by rewrite Hk'.
  - destruct (JS.array_index k') as [j |]; [| done].
    destruct (j <? i); simpl; [by rewrite IH | done].
Qed.

Lemma insert_key_sorted (i : Z) (k : string) (ik : list string) :
  JS.array_index k = Some i → k ∉ ik →
  Forall (λ k, is_index k = true) ik → StronglySorted index_lt ik →
  StronglySorted index_lt (insert_key i k ik).
Proof.
  intros Hk Hnot Hik Hsorted.
  induction Hsorted as [| k' ik Hs IH Hall]; simpl; [repeat constructor |].
  apply not_elem_of_cons in Hnot as [Hne Hnot].
  inversion Hik as [| ? ? Hk' Hik']; subst.
  apply is_index_true in Hk' as [j Hj]. rewrite Hj.
  destruct (j <? i) eqn:Hlt.
  - apply Z.ltb_lt in Hlt. constructor; [by apply IH |].
    rewrite insert_key_Permutation. constructor; [| done].
    unfold index_lt. by rewrite Hj, Hk.
  - apply Z.ltb_ge in Hlt.
    assert (i < j).
    { destruct (decide (i = j)) as [-> | ?]; [| lia].
      exfalso. apply Hne. by apply (array_index_inj _ _ j). }
    constructor; [by constructor |].
    constructor; [unfold index_lt; by rewrite Hk, Hj |].
    eapply Forall_impl; [exact Hall |]. intros x. unfold index_lt.
    rewrite Hj, Hk. destruct (JS.array_index x); [lia | done].
Qed.

Lemma add_key_shape (ks : list string) (k : string) :
  NoDup ks → key_shape ks → key_shape (add_key ks k).
Proof.
  intros Hnd (ik & sk & -> & Hik & Hsk & Hsorted). unfold add_key.
  destruct (existsb (String.eqb k) (ik ++ sk)) eqn:Hin; [by exists ik, sk |].
  apply existsb_eqb_not_elem_of in Hin.
  destruct (JS.array_index k) as [i |] eqn:Hk.
  - exists (insert_key i k ik), sk. rewrite insert_key_app by done.
    repeat split; [| done |].
    + rewrite insert_key_Permutation. constructor; [| done].
      apply is_index_true. by eexists.
    + apply insert_key_sorted; try done. intros ?. apply Hin, elem_of_app. by left.
  - exists ik, (sk ++ [k]). rewrite app_assoc. repeat split; [done | | done].
    apply Forall_app. split; [done |]. repeat constructor. by apply is_index_false.
Qed.

Lemma key_order_shape (l : list string) : key_shape (key_order l).
Proof.
  induction l as [| n l IH] using rev_ind.
  - exists [], []. repeat split; constructor.
  - rewrite key_order_snoc. apply add_key_shape; [apply key_order_NoDup | done].
Qed.

Lemma filter_all_true {A : Type} (p : A → bool) (l : list A) :
  Forall (λ x, p x = true) l → List.filter p l = l.
Proof. induction 1 as [| x l Hx Hl IH]; simpl; [done |]. by rewrite Hx, IH. Qed.

Lemma filter_all_false {A : Type} (p : A → bool) (l : list A) :
  Forall (λ x, p x = false) l → List.filter p l = [].
Proof. induction 1 as [| x l Hx Hl IH]; simpl; [done |]. by rewrite Hx, IH. Qed.

(** Array indices first, in ascending numeric order, then the others. *)
Lemma key_order_split (l : list string) :
  key_order l = List.filter is_index (key_order l)
                ++ List.filter (λ x, negb (is_index x)) (key_order l) ∧
  StronglySorted index_lt (List.filter is_index (key_order l)).
Proof.
  destruct (key_order_shape l) as (ik & sk & -> & Hik & Hsk & Hsorted).
  assert (Hsk' : Forall (λ k, negb (is_index k) = true) sk).
  { eapply Forall_impl; [exact Hsk |]. simpl. by intros ? ->. }
  assert (Hik' : Forall (λ k, negb (is_index k) = false) ik).
  { eapply Forall_impl; [exact Hik |]. simpl. by intros ? ->. }
  rewrite !List.filter_app.
  rewrite (filter_all_true _ ik Hik), (filter_all_false _ sk Hsk).
  rewrite (filter_all_true _ sk Hsk'), (filter_all_false _ ik Hik').
  rewrite app_nil_r. simpl. done.
Qed.

(** Without array-index names the key order is the order of first encounter. *)
Lemma key_order_first_seen (l : list string) :
  Forall (λ n, JS.array_index n = None) l → key_order l = first_seen l.
Proof.
  intros Hall.
  assert (Hko : Forall (λ k, negb (is_index k) = true) (key_order l)).
  { rewrite Forall_forall. intros x Hx. apply (proj1 (key_order_elem_of _ _)) in Hx.
    rewrite Forall_forall in Hall. apply Hall, is_index_false in Hx. by rewrite Hx. }
  assert (Hfs : Forall (λ k, negb (is_index k) = true) (first_seen l)).
  { rewrite Forall_forall. intros x Hx. apply (proj1 (first_seen_elem_of _ _)) in Hx.
    rewrite Forall_forall in Hall. apply Hall, is_index_false in Hx. by rewrite Hx. }
  rewrite <- (filter_all_true _ _ Hko), <- (filter_all_true _ _ Hfs).
  apply key_order_nonindex.
Qed.

(** ** The accumulation loop of [calculateCarryStats] *)

Section CarryProofs.
Context (championsCache : gmap string string).

Lemma sum_damage_snoc (rs : list UnitDamage.t) (u : UnitDamage.t) :
  sum_damage (rs ++ [u]) = sum_damage rs + default 0 (UnitDamage.damage u).
Proof. unfold sum_damage. induction rs as [| x rs IH]; simpl; lia. Qed.

Lemma max_level_snoc (rs : list UnitDamage.t) (u : UnitDamage.t) :
  max_level (rs ++ [u]) = Z.max (max_level rs) (UnitDamage.level u).
Proof. unfold max_level. induction rs as [| x rs IH]; simpl; lia. Qed.

Lemma records_of_snoc (name : string) (records : list UnitDamage.t) (u : UnitDamage.t) :
  records_of championsCache name (records ++ [u]) =
  records_of championsCache name records
  ++ (if positive_damage u && String.eqb (resolved championsCache u) name then [u] else []).
Proof. unfold records_of. by rewrite List.filter_app. Qed.

Lemma encountered_snoc (records : list UnitDamage.t) (u : UnitDamage.t) :
  encountered championsCache (records ++ [u]) =
  encountered championsCache records
  ++ (if positive_damage u && negb (JS.inherited (resolved championsCache u))
      then [resolved championsCache u] else []).
Proof.
  unfold encountered. rewrite List.filter_app, map_app, List.filter_app. simpl.
  destruct (positive_damage u); simpl; [| done].
  by destruct (JS.inherited (resolved championsCache u)).
Qed.

Lemma expected_snoc_other (records : list UnitDamage.t) (u : UnitDamage.t) (n : string) :
  positive_damage u && String.eqb (resolved championsCache u) n = false →
  expected championsCache (records ++ [u]) n = expected championsCache records n.
Proof.
  intros H. unfold expected. by rewrite records_of_snoc, H, app_nil_r.
Qed.

Lemma carry_step_inv (records : list UnitDamage.t) (acc : JS.object Stats.t)
    (u : UnitDamage.t) :
  carry_inv championsCache records acc →
  carry_inv championsCache (records ++ [u]) (carry_step championsCache acc u).
Proof.
  intros [Hlookup Hkeys]. unfold carry_step.
  destruct (positive_damage u) eqn:Hpos.
  2:{ split.
      - intros n. rewrite Hlookup. symmetry. apply expected_snoc_other. by rewrite Hpos.
      - rewrite encountered_snoc, Hpos. simpl. by rewrite app_nil_r. }
  fold (resolved championsCache u). set (n0 := resolved championsCache u).
  pose proof (Hlookup n0) as Hn0.
  destruct (JS.get_own acc n0) as [st |] eqn:Hget.
  - rewrite Hget.
    assert (Hinh : JS.inherited n0 = false).
    { unfold expected in Hn0. by destruct (JS.inherited n0). }
    split.
    + intros n. rewrite get_own_update_own.
      destruct (String.eqb n0 n) eqn:Hn.
      * apply String.eqb_eq in Hn. subst n. rewrite Hget. simpl.
        unfold expected in Hn0 |- *. rewrite Hinh in Hn0 |- *.
        rewrite records_of_snoc. fold n0. rewrite Hpos, String.eqb_refl. simpl.
        destruct (records_of championsCache n0 records) as [| r rs] eqn:Hrs; [done |].
        injection Hn0 as ->. rewrite <- Hrs.
        assert (records_of championsCache n0 records ++ [u] ≠ []) as Hne
          by (by destruct (records_of championsCache n0 records)).
        destruct (records_of championsCache n0 records ++ [u]) eqn:Hnew; [done |].
        rewrite <- Hnew. f_equal. unfold stats_of. cbn [Stats.total Stats.count Stats.maxStars].
        rewrite sum_damage_snoc, max_level_snoc, length_app. simpl.
        f_equal; unfold JS.Math_max; lia.
      * rewrite Hlookup. symmetry. apply expected_snoc_other.
        fold n0. by rewrite Hn, andb_false_r.
    + rewrite keys_update_own, Hkeys, encountered_snoc. fold n0.
      rewrite Hpos, Hinh. simpl. rewrite key_order_snoc. unfold add_key.
      assert (n0 ∈ key_order (encountered championsCache records)) as Hin.
      { rewrite <- Hkeys. apply get_own_is_Some. by eexists. }
      apply existsb_eqb_elem_of in Hin. by rewrite Hin.
  - destruct (JS.inherited n0) eqn:Hinh.
    + rewrite Hget. split.
      * intros n. rewrite Hlookup.
        destruct (String.eqb n0 n) eqn:Hn.
        -- apply String.eqb_eq in Hn. subst n. unfold expected. by rewrite Hinh.
        -- symmetry. apply expected_snoc_other. fold n0. by rewrite Hn, andb_false_r.
      * rewrite encountered_snoc. fold n0. rewrite Hpos, Hinh. simpl. by rewrite app_nil_r.
    + rewrite (get_own_set_own _ _ _ _ Hget), String.eqb_refl.
      assert (Hempty : records_of championsCache n0 records = []).
      { unfold expected in Hn0. rewrite Hinh in Hn0.
        by destruct (records_of championsCache n0 records). }
      split.
      * intros n. rewrite get_own_update_own, !(get_own_set_own _ _ _ _ Hget).
        destruct (String.eqb n0 n) eqn:Hn.
        -- apply String.eqb_eq in Hn. subst n. rewrite String.eqb_refl. simpl.
           unfold expected. rewrite Hinh, records_of_snoc, Hempty. fold n0.
           rewrite Hpos, String.eqb_refl. simpl. f_equal. unfold stats_of. simpl.
           f_equal; unfold JS.Math_max; lia.
        -- rewrite Hlookup. symmetry. apply expected_snoc_other.
           fold n0. by rewrite Hn, andb_false_r.
      * rewrite keys_update_own, (keys_set_own _ _ _ Hget), Hkeys, encountered_snoc.
        fold n0. rewrite Hpos, Hinh. simpl. by rewrite key_order_snoc.
Qed.

Lemma carry_fold_inv (rest records : list UnitDamage.t) (acc : JS.object Stats.t) :
  carry_inv championsCache records acc →
  carry_inv championsCache (records ++ rest) (fold_left (carry_step championsCache) rest acc).
Proof.
  revert records acc. induction rest as [| u rest IH]; intros records acc Hinv; simpl.
  - by rewrite app_nil_r.
  - replace (records ++ u :: rest) with ((records ++ [u]) ++ rest)
      by (by rewrite <- app_assoc).
    by apply IH, carry_step_inv.
Qed.

Lemma carry_stages_flat (stages : list TrackerStage.t) (acc : JS.object Stats.t) :
  fold_left (carry_stage championsCache) stages acc
  = fold_left (carry_step championsCache) (damage_records stages) acc.
Proof.
  revert acc. induction stages as [| stage stages IH]; intros acc; simpl; [done |].
  rewrite fold_left_app, IH. unfold carry_stage.
  by destruct (TrackerStage.units stage).
Qed.

Lemma damageByUnit_inv (stages : list TrackerStage.t) :
  carry_inv championsCache (damage_records stages) (damageByUnit championsCache stages).
Proof.
  unfold damageByUnit. rewrite carry_stages_flat.
  apply (carry_fold_inv _ [] []). split; [| done].
  intros n. unfold expected. simpl. by destruct (JS.inherited n).
Qed.

(** The entries of the accumulator are the specified ones, in key order. *)
Lemma damageByUnit_entries (stages : list TrackerStage.t) :
  map carry_entry (damageByUnit championsCache stages)
  = map (carry_of championsCache (damage_records stages))
      (key_order (encountered championsCache (damage_records stages))).
Proof.
  destruct (damageByUnit_inv stages) as [Hlookup Hkeys].
  rewrite <- Hkeys. unfold Object_keys. rewrite map_map.
  apply map_ext_in. intros [n st] Hin. apply list_elem_of_In in Hin.
  apply elem_of_get_own in Hin; [| rewrite Hkeys; apply key_order_NoDup].
  rewrite Hlookup in Hin. unfold expected in Hin.
  destruct (JS.inherited n); [done |]. simpl. unfold carry_of.
  destruct (records_of championsCache n (damage_records stages)) eqn:Hrs; [done |].
  by injection Hin as <-.
Qed.

Lemma calculateCarryStats_refines (stages : list TrackerStage.t) :
  calculateCarryStats championsCache stages = ranking_spec championsCache stages.
Proof.
  unfold calculateCarryStats, ranking_spec. by rewrite damageByUnit_entries.
Qed.

Lemma encountered_elem_of (records : list UnitDamage.t) (name : string) :
  name ∈ encountered championsCache records ↔
  records_of championsCache name records ≠ [] ∧ JS.inherited name = false.
Proof.
  unfold encountered, records_of.
  rewrite list_elem_of_In, filter_In, <- list_elem_of_In, list_elem_of_fmap.
  rewrite negb_true_iff. split.
  - intros [(u & -> & Hu) Hinh]. split; [| done].
    apply list_elem_of_In, filter_In in Hu as [Hu Hpos].
    intros Hnil.
    assert (In u (List.filter
                    (λ u0, positive_damage u0
                           && String.eqb (resolved championsCache u0)
                                (resolved championsCache u)) records)) as Hin.
    { apply filter_In. split; [done |]. by rewrite Hpos, String.eqb_refl. }
    by rewrite Hnil in Hin.
  - intros [Hne Hinh]. split; [| done].
    destruct (List.filter _ records) as [| u rs] eqn:Hrs; [done |].
    assert (In u (u :: rs)) as Hin by (by left).
    rewrite <- Hrs in Hin. apply filter_In in Hin as [Hin Hp].
    apply andb_true_iff in Hp as [Hpos Heq]. apply String.eqb_eq in Heq.
    exists u. split; [done |]. apply list_elem_of_In, filter_In. done.
Qed.

Lemma records_of_positive (name : string) (records : list UnitDamage.t) :
  Forall (λ u, 0 < default 0 (UnitDamage.damage u)) (records_of championsCache name records).
Proof.
  rewrite Forall_forall. intros u Hu. apply list_elem_of_In, filter_In in Hu as [_ Hp].
  apply andb_true_iff in Hp as [Hpos _]. unfold positive_damage in Hpos.
  destruct (UnitDamage.damage u) as [d |]; [| done]. simpl.
  apply andb_true_iff in Hpos as [_ Hd]. by apply Z.ltb_lt.
Qed.

Lemma sum_damage_positive (rs : list UnitDamage.t) :
  rs ≠ [] → Forall (λ u, 0 < default 0 (UnitDamage.damage u)) rs → 0 < sum_damage rs.
Proof.
  intros Hne Hall. destruct rs as [| u rs]; [done |].
  assert (∀ l, Forall (λ u, 0 < default 0 (UnitDamage.damage u)) l → 0 ≤ sum_damage l)
    as Hnonneg.
  { clear. unfold sum_damage. induction 1 as [| x l Hx Hl IH]; simpl in *; lia. }
  inversion Hall as [| ? ? Hu Hrs]; subst. specialize (Hnonneg rs Hrs).
  unfold sum_damage in *. simpl in *. lia.
Qed.

End CarryProofs.

Lemma round_div_nearest (t c : Z) :
  0 < c → 2 * t - c < 2 * c * JS.round_div t c ≤ 2 * t + c.
Proof.
  intros Hc. unfold JS.round_div.
  pose proof (Z.div_mod (2 * t + c) (2 * c) ltac:(lia)) as Hdm.
  pose proof (Z.mod_pos_bound (2 * t + c) (2 * c) ltac:(lia)) as Hb.
  lia.
Qed.

Lemma champion_carry_of (championsCache : gmap string string)
    (records : list UnitDamage.t) (names : list string) :
  map Carry.champion (map (carry_of championsCache records) names) = names.
Proof. induction names as [| n names IH]; simpl; [done | by rewrite IH]. Qed.

(** C4, as stated, fails: the average is rounded (1 and 2 average to 2, not
    to 3/2), and of two names with equal totals the one that is an array
    index ranks first although it was met second. *)
Lemma carry_ranking_counterexample :
  let ranking := calculateCarryStats ∅ tie_stages in
  (∃ e, e ∈ ranking ∧
        Carry.avgDamage e * Carry.roundsPlayed e ≠ Carry.totalDamage e) ∧
  first_seen (encountered ∅ (damage_records tie_stages)) = ["Zed"; "7"] ∧
  map Carry.totalDamage ranking = [3; 3] ∧
  map Carry.champion ranking = ["7"; "Zed"].
Proof.
  repeat split; try reflexivity.
  exists (Carry.mk "Zed" 3 2 2 1). split; [| by vm_compute].
  vm_compute. right. left.
Qed.

(** C4 (amended): [calculateCarryStats] computes, for every resolved name
    with a record of positive damage (names inherited from
    [Object.prototype] apart), the total damage, the number of such records
    and the largest star level; [avgDamage] is total/count rounded to the
    nearest integer; the ranking is sorted by total damage, descending;
    entries of equal total keep the key order of the accumulator, which is
    the order of first encounter for names that are not array indices,
    array indices coming first in numeric order.  The records
    {A:100},{B:50},{A:50} rank as [A(150, 75), B(50, 50)]. *)
Theorem calculateCarryStats_ranking :
  (∀ (championsCache : gmap string string) (stages : list TrackerStage.t),
     let records := damage_records stages in
     let names := encountered championsCache records in
     let ranking := calculateCarryStats championsCache stages in
     ranking = ranking_spec championsCache stages ∧
     (∀ e, e ∈ ranking →
        let rs := records_of championsCache (Carry.champion e) records in
        rs ≠ [] ∧
        Carry.totalDamage e = sum_damage rs ∧
        Carry.roundsPlayed e = Z.of_nat (length rs) ∧
        Carry.maxStars e = max_level rs ∧
        Carry.avgDamage e = JS.round_div (Carry.totalDamage e) (Carry.roundsPlayed e) ∧
        0 < Carry.totalDamage e ∧
        2 * Carry.totalDamage e - Carry.roundsPlayed e
          < 2 * Carry.roundsPlayed e * Carry.avgDamage e
          ≤ 2 * Carry.totalDamage e + Carry.roundsPlayed e) ∧
     (∀ name, name ∈ map Carry.champion ranking ↔
              records_of championsCache name records ≠ [] ∧ JS.inherited name = false) ∧
     NoDup (map Carry.champion ranking) ∧
     StronglySorted (λ a b, Carry.totalDamage b ≤ Carry.totalDamage a) ranking ∧
     (∀ t, List.filter (λ e, Carry.totalDamage e =? t) ranking
           = List.filter (λ e, Carry.totalDamage e =? t)
               (map (carry_of championsCache records) (key_order names))) ∧
     List.filter (λ k, negb (is_index k)) (key_order names)
       = List.filter (λ k, negb (is_index k)) (first_seen names) ∧
     key_order names = List.filter is_index (key_order names)
                       ++ List.filter (λ k, negb (is_index k)) (key_order names) ∧
     StronglySorted index_lt (List.filter is_index (key_order names)) ∧
     (Forall (λ n, JS.array_index n = None) names → key_order names = first_seen names)) ∧
  calculateCarryStats ∅ carry_example_stages
  = [Carry.mk "A" 150 75 2 1; Carry.mk "B" 50 50 1 1].
Proof.
  split; [| reflexivity].
  intros championsCache stages records names ranking.
  assert (Hspec : ranking = ranking_spec championsCache stages)
    by apply calculateCarryStats_refines.
  assert (Hperm : ranking ≡ₚ map (carry_of championsCache records) (key_order names)).
  { rewrite Hspec. apply (sort_Permutation Carry.totalDamage). }
  assert (Hmem : ∀ e, e ∈ ranking →
            e = carry_of championsCache records (Carry.champion e) ∧
            Carry.champion e ∈ names).
  { intros e He. rewrite Hperm in He. apply list_elem_of_fmap in He as (n & -> & Hn).
    split; [done |]. apply (proj1 (key_order_elem_of _ _)) in Hn. exact Hn. }
  split; [done |]. split; [| split; [| split; [| split; [| split]]]].
  - intros e He rs. destruct (Hmem e He) as [Heq Hin].
    apply encountered_elem_of in Hin as [Hne _]. fold records rs in Hne.
    assert (Hpos : 0 < sum_damage rs).
    { apply sum_damage_positive; [done | apply records_of_positive]. }
    assert (Hlen : 0 < Z.of_nat (length rs)) by (destruct rs; [done | simpl; lia]).
    rewrite Heq. unfold carry_of. fold records rs.
    cbn [Carry.champion Carry.totalDamage Carry.roundsPlayed Carry.maxStars Carry.avgDamage].
    destruct (round_div_nearest (sum_damage rs) (Z.of_nat (length rs)) Hlen) as [Hlo Hhi].
    repeat split; done.
  - intros name. rewrite Hperm, champion_carry_of, key_order_elem_of.
    apply encountered_elem_of.
  - rewrite Hperm, champion_carry_of. apply key_order_NoDup.
  - rewrite Hspec. apply (sort_sorted Carry.totalDamage).
  - intros t. rewrite Hspec. apply (sort_stable Carry.totalDamage).
  - split; [apply key_order_nonindex |].
    split; [apply key_order_split |].
    split; [apply key_order_split | apply key_order_first_seen].
Qed.

Lemma calculateCarryStats_ranking_witness :
  calculateCarryStats ∅ carry_example_stages = ranking_spec ∅ carry_example_stages ∧
  key_order (encountered ∅ (damage_records carry_example_stages))
  = first_seen (encountered ∅ (damage_records carry_example_stages)).
Proof.
  destruct calculateCarryStats_ranking as [Hall _].
  destruct (Hall ∅ carry_example_stages)
    as (Hspec & _ & _ & _ & _ & _ & _ & _ & _ & Hfirst).
  split; [exact Hspec |]. apply Hfirst. repeat constructor.
Defined.

(** ** The normaliser and the per-round summaries *)

Lemma index_of_nat {A : Type} (l : list A) (i : nat) : index l (Z.of_nat i) = l !! i.
Proof.
  unfold index. destruct (Z.of_nat i <? 0) eqn:H; [apply Z.ltb_lt in H; lia |].
  by rewrite Nat2Z.id.
Qed.

Lemma index_out_of_range {A : Type} (l : list A) (i : Z) :
  i < 0 ∨ Z.of_nat (length l) ≤ i → index l i = None.
Proof.
  intros Hi. unfold index. destruct (i <? 0) eqn:H; [done |].
  apply Z.ltb_ge in H. apply lookup_ge_None. lia.
Qed.

Lemma formatAllStages_lookup (gameName : string) (stages : list TrackerStage.t) (i : nat) :
  formatAllStages gameName stages !! i = round_summary gameName i <$> stages !! i.
Proof. unfold formatAllStages. apply list_lookup_imap. Qed.

Lemma parse_digits_Some (radix : Z) (s : string) (a : Z) :
  is_Some (JS.parse_digits radix (Some a) s).
Proof.
  revert a. induction s as [| c s IH]; intros a; simpl; [by eexists |].
  destruct (JS.digit_val radix c); [apply IH | by eexists].
Qed.

(** [parseInt] gives [NaN] exactly on the strings that do not start with a
    number. *)
Lemma parseInt_NaN (s : string) : JS.parseInt s = JS.NaN ↔ starts_numeric s = false.
Proof.
  unfold JS.parseInt, starts_numeric.
  destruct (JS.strip_sign (JS.skip_spaces s)) as [sign s1].
  destruct (JS.strip_hex_prefix s1) as [radix s2].
  destruct s2 as [| c s2]; simpl; [done |].
  destruct (JS.digit_val radix c) as [d |] eqn:Hd.
  - destruct (parse_digits_Some radix s2 (radix * 0 + d)) as [n Hn]. rewrite Hn.
    split; [done |]. rewrite bool_decide_eq_false. intros H. exfalso. apply H. by eexists.
  - split; [| done]. intros _. apply bool_decide_eq_false. by intros [? ?].
Qed.

(** C5, as stated, fails: an income of zero is kept in the summary. *)
Lemma income_zero_counterexample :
  TrackerStage.gold_earned zero_income_stage = Some 0 ∧
  TrackerStage.rerolls zero_income_stage = Some 0 ∧
  map RoundSummary.income (formatAllStages "Player" [zero_income_stage]) = [Some 0] ∧
  map RoundSummary.rerolls (formatAllStages "Player" [zero_income_stage]) = [None].
Proof. repeat split. Qed.

(** C5 (amended): the summary of a round carries [income] exactly when the
    stage has [gold_earned], zero included, and carries [rerolls] exactly
    when the stage has [rerolls] and it is positive. *)
Theorem formatAllStages_economy (gameName : string) (stages : list TrackerStage.t)
    (i : nat) (stage : TrackerStage.t) :
  stages !! i = Some stage →
  ∃ summary,
    formatAllStages gameName stages !! i = Some summary ∧
    RoundSummary.round summary = Z.of_nat i + 1 ∧
    RoundSummary.income summary = TrackerStage.gold_earned stage ∧
    (∀ r, RoundSummary.rerolls summary = Some r ↔
          TrackerStage.rerolls stage = Some r ∧ 0 < r) ∧
    (TrackerStage.rerolls stage = Some 0 → RoundSummary.rerolls summary = None).
Proof.
  intros Hi. exists (round_summary gameName i stage).
  rewrite formatAllStages_lookup, Hi.
  split; [done |]. split; [done |]. split; [done |]. split.
  - intros r. simpl.
    destruct (TrackerStage.rerolls stage) as [r' |]; [| split; [done | by intros [? _]]].
    destruct (0 <? r') eqn:Hr.
    + apply Z.ltb_lt in Hr. split; [by intros [= <-] | by intros [[= <-] _]].
    + apply Z.ltb_ge in Hr. split; [done | intros [[= <-] ?]; lia].
  - intros H. simpl. by rewrite H.
Qed.

Lemma formatAllStages_economy_witness :
  ∃ summary,
    formatAllStages "Player" [zero_income_stage] !! 0%nat = Some summary ∧
    RoundSummary.round summary = Z.of_nat 0 + 1 ∧
    RoundSummary.income summary = TrackerStage.gold_earned zero_income_stage ∧
    (∀ r, RoundSummary.rerolls summary = Some r ↔
          TrackerStage.rerolls zero_income_stage = Some r ∧ 0 < r) ∧
    (TrackerStage.rerolls zero_income_stage = Some 0 → RoundSummary.rerolls summary = None).
Proof.
  apply (formatAllStages_economy "Player" [zero_income_stage] 0 zero_income_stage).
  reflexivity.
Defined.

Lemma formatStageData_in_range (championsCache itemsCache : gmap string string)
    (stages : list TrackerStage.t) (i : nat) (stage : TrackerStage.t) :
  stages !! i = Some stage →
  ∃ f,
    formatStageData championsCache itemsCache stages (Z.of_nat i) = Some f ∧
    Formatted.player f = player_of <$> TrackerStage.me stage ∧
    Formatted.board f =
      TrackerStage.board_pieces stage ≫= (λ o,
        when_nonempty (map (board_unit championsCache itemsCache) (Object_values o))) ∧
    Formatted.bench f =
      TrackerStage.bench_pieces stage ≫= (λ o,
        when_nonempty (map (bench_unit championsCache) (Object_values o))).
Proof.
  intros Hi. unfold formatStageData. rewrite index_of_nat, Hi.
  eexists. repeat split; reflexivity.
Qed.


(** ** Numeric strings *)

Lemma number_or_NaN (s : string) (d : Z) :
  starts_numeric s = false → JS.number_or (JS.parseInt s) d = d.
Proof. intros H. apply parseInt_NaN in H. by rewrite H. Qed.

Lemma string_or_falsy (v : option string) (d : string) :
  JS.truthy_string v = false → JS.string_or v d = d.
Proof. by destruct v as [[|] |]. Qed.

(** C2, as stated, fails: a star level that cannot be parsed becomes 1, and
    a missing health of the first stage becomes 100. *)
Lemma numeric_default_counterexample :
  starts_numeric (JS.ToString (BoardPiece.level unnumbered_piece)) = false ∧
  stars_of unnumbered_piece = 1 ∧
  stars_of (BoardPiece.mk "TFT16_Ahri" None None None None) = 1 ∧
  ((index [empty_stage] 0 ≫= TrackerStage.me) ≫= Me.health) = None ∧
  (λ r, MatchSummary.startingHealth (Result.summary r))
    <$> assembled_result (sample_handler (SDArray [empty_stage]) 0 None)
  = Some (JS.Num 100).
Proof. repeat split. Qed.

(** A gold of the last stage that does not start with a number is not
    defaulted in the summary of the match: [parseInt] gives [NaN]. *)
Lemma final_gold_not_numeric :
  (λ r, MatchSummary.finalGold (Result.summary r))
    <$> assembled_result (sample_handler (SDArray [unnumbered_stage]) 0 None)
  = Some JS.NaN.
Proof. reflexivity. Qed.

(** C2 (amended): the health and gold of a player that are missing or do
    not start with a number become 0 in the snapshot and in the round
    summary; a star level that is missing or does not start with a number
    becomes 1; in the summary of the match a missing (or empty) health of
    the first stage becomes 100 and a missing health or gold of the last
    stage becomes 0.  All of these are total functions: none raises. *)
Theorem numeric_strings_default :
  (∀ me, starts_numeric (JS.ToString (Me.health me)) = false →
         Player.health (player_of me) = 0) ∧
  (∀ me, starts_numeric (JS.ToString (Me.gold me)) = false →
         Player.gold (player_of me) = 0) ∧
  (∀ u, starts_numeric (JS.ToString (BoardPiece.level u)) = false → stars_of u = 1) ∧
  (∀ championsCache itemsCache gameName stages (i : nat) stage,
     stages !! i = Some stage →
     ∃ f s,
       formatStageData championsCache itemsCache stages (Z.of_nat i) = Some f ∧
       formatAllStages gameName stages !! i = Some s ∧
       Formatted.player f = player_of <$> TrackerStage.me stage ∧
       RoundSummary.hp s = Player.health <$> Formatted.player f ∧
       RoundSummary.gold s = Player.gold <$> Formatted.player f ∧
       (∀ units, Formatted.board f = Some units →
                 map BoardUnit.stars units
                 = map stars_of (Object_values (default [] (TrackerStage.board_pieces stage)))) ∧
       (∀ units, Formatted.bench f = Some units →
                 map BenchUnit.stars units
                 = map stars_of (Object_values (default [] (TrackerStage.bench_pieces stage))))) ∧
  (∀ w matchId mode appMatch trackerData stages,
     let firstStage := index stages 0 in
     let lastStage := index stages (Z.of_nat (length stages) - 1) in
     ∃ r,
       assemble w matchId mode appMatch trackerData stages = text_reply (Assembled r) false ∧
       (JS.truthy_string ((firstStage ≫= TrackerStage.me) ≫= Me.health) = false →
        MatchSummary.startingHealth (Result.summary r) = JS.Num 100) ∧
       (JS.truthy_string ((lastStage ≫= TrackerStage.me) ≫= Me.health) = false →
        MatchSummary.finalHealth (Result.summary r) = JS.Num 0) ∧
       (JS.truthy_string ((lastStage ≫= TrackerStage.me) ≫= Me.gold) = false →
        MatchSummary.finalGold (Result.summary r) = JS.Num 0) ∧
       map BoardUnit.stars (Result.finalBoard r)
       = map stars_of (Object_values (default [] (lastStage ≫= TrackerStage.board_pieces)))).
Proof.
  split; [| split; [| split; [| split]]].
  - intros me H. by apply number_or_NaN.
  - intros me H. by apply number_or_NaN.
  - intros u H. by apply number_or_NaN.
  - intros championsCache itemsCache gameName stages i stage Hi.
    destruct (formatStageData_in_range championsCache itemsCache stages i stage Hi)
      as (f & Hf & Hplayer & Hboard & Hbench).
    exists f, (round_summary gameName i stage).
    rewrite formatAllStages_lookup, Hi, Hplayer, Hboard, Hbench.
    repeat split; try done.
    + intros units. destruct (TrackerStage.board_pieces stage) as [o |]; [| done].
      simpl. unfold when_nonempty.
      destruct (map _ (Object_values o)) as [| b bs] eqn:Hmap; [done |].
      intros [= <-]. rewrite <- Hmap, map_map. done.
    + intros units. destruct (TrackerStage.bench_pieces stage) as [o |]; [| done].
      simpl. unfold when_nonempty.
      destruct (map _ (Object_values o)) as [| b bs] eqn:Hmap; [done |].
      intros [= <-]. rewrite <- Hmap, map_map. done.
  - intros w matchId mode appMatch trackerData stages firstStage lastStage.
    unfold assemble. fold firstStage lastStage. eexists. split; [reflexivity |].
    cbn [Result.summary Result.finalBoard MatchSummary.startingHealth
         MatchSummary.finalHealth MatchSummary.finalGold].
    repeat split.
    + intros H. by rewrite (string_or_falsy _ _ H).
    + intros H. by rewrite (string_or_falsy _ _ H).
    + intros H. by rewrite (string_or_falsy _ _ H).
    + destruct (lastStage ≫= TrackerStage.board_pieces) as [o |]; [| done].
      simpl. by rewrite map_map.
Qed.

Lemma numeric_strings_default_witness :
  Player.health (player_of (Me.mk (Some "n/a") (Some "lots") None)) = 0 ∧
  Player.gold (player_of (Me.mk (Some "n/a") (Some "lots") None)) = 0 ∧
  stars_of unnumbered_piece = 1 ∧
  (∃ r, assemble (sample_world 0) "EUW1_1" "summary" (AppMatch.mk "uuid-1" "1" 0)
          (sample_envelope SDUndefined) [empty_stage] = text_reply (Assembled r) false ∧
        MatchSummary.startingHealth (Result.summary r) = JS.Num 100 ∧
        MatchSummary.finalHealth (Result.summary r) = JS.Num 0 ∧
        MatchSummary.finalGold (Result.summary r) = JS.Num 0).
Proof.
  destruct numeric_strings_default as (Hhealth & Hgold & Hstars & _ & Hsummary).
  split; [apply Hhealth; reflexivity |].
  split; [apply Hgold; reflexivity |].
  split; [apply Hstars; reflexivity |].
  destruct (Hsummary (sample_world 0) "EUW1_1" "summary" (AppMatch.mk "uuid-1" "1" 0)
              (sample_envelope SDUndefined) [empty_stage])
    as (r & Hr & Hstart & Hfinal & Hfgold & _).
  exists r. split; [exact Hr |].
  split; [apply Hstart; reflexivity |].
  split; [apply Hfinal; reflexivity | apply Hfgold; reflexivity].
Defined.

(** ** The handler *)

Section HandlerProofs.
Context (gunzipSync : string → option string).
Context (JSON_parse_TrackerData : string → M TrackerData.t).
Context (JSON_parse_stages : string → option Stages).

Abbreviation handler := (handleTftMatchTracker gunzipSync JSON_parse_TrackerData JSON_parse_stages).
Abbreviation handler_pipeline := (pipeline JSON_parse_stages).

Lemma handler_delivered (w : World.t) (matchId : string) (mode : option string)
    (appMatch : AppMatch.t) (text : string) :
  delivered gunzipSync w matchId appMatch text →
  handler w (Params.mk matchId mode) =
  reply_of (bind (JSON_parse_TrackerData text)
              (λ trackerData,
                 handler_pipeline w matchId (default "summary" mode) appMatch trackerData)).
Proof.
  intros (profile & ms & response & Hprofile & Hms & Hfind & Hfetch & Hok & Htext).
  unfold handleTftMatchTracker, run, fetchTrackerData. simpl.
  rewrite Hprofile. simpl. rewrite Hms.
  destruct ms as [| m ms]; [done |]. rewrite Hfind.
  change (METATFT_S3 +:+ "/" +:+ AppMatch.uuid appMatch +:+ ".json")
    with (tracker_url (AppMatch.uuid appMatch)).
  rewrite Hfetch. simpl. rewrite Hok. simpl.
  unfold envelope_text in Htext. rewrite Htext. done.
Qed.

Lemma assemble_relabel (w : World.t) (matchId mode : string) (appMatch : AppMatch.t)
    (trackerData : TrackerData.t) (stages : list TrackerStage.t) :
  String.eqb mode "complete" = false →
  assemble w matchId mode appMatch trackerData stages
  = relabel mode (assemble w matchId "summary" appMatch trackerData stages).
Proof.
  intros Hmode. unfold assemble, relabel, text_reply, relabel_payload, relabel_result.
  cbn. rewrite Hmode. done.
Qed.

Lemma assemble_same_inputs (w1 w2 : World.t) (matchId mode : string)
    (appMatch : AppMatch.t) (trackerData : TrackerData.t) (stages : list TrackerStage.t) :
  same_inputs w1 w2 →
  assemble w1 matchId mode appMatch trackerData stages
  = assemble w2 matchId mode appMatch trackerData stages.
Proof.
  intros (Hname & Hchampions & Hitems & _). unfold assemble.
  by rewrite Hname, Hchampions, Hitems.
Qed.


Lemma assembled_result_relabel (mode : string) (reply : ToolResult.t) :
  assembled_result (relabel mode reply) = relabel_result mode <$> assembled_result reply.
Proof.
  unfold assembled_result, relabel. simpl.
  destruct (ToolResult.content reply) as [| c [| c' cs]]; simpl; try done.
  by destruct (Content.text c).
Qed.

Lemma run_relabel (w : World.t) (matchId mode : string) :
  String.eqb mode "complete" = false →
  reply_of (run gunzipSync JSON_parse_TrackerData JSON_parse_stages w matchId mode)
  = relabel mode
      (reply_of (run gunzipSync JSON_parse_TrackerData JSON_parse_stages w matchId "summary")).
Proof.
  intros Hmode. unfold run.
  destruct (World.fetchMetaTFTProfile w) as [[msg] | profile]; simpl; [done |].
  destruct (ProfileResponse.app_matches profile) as [[| m ms] |]; try done.
  destruct (List.find _ (m :: ms)) as [appMatch |]; [| done].
  destruct (fetchTrackerData gunzipSync JSON_parse_TrackerData w (AppMatch.uuid appMatch))
    as [[msg] | trackerData]; simpl; [done |].
  unfold pipeline.
  destruct (as_array (parse_stage_data JSON_parse_stages (TrackerData.stage_data trackerData)))
    as [[msg] | stages]; simpl; [done |].
  by apply assemble_relabel.
Qed.

(** C1 (amended): an absent mode gives the reply of "summary".  A mode
    other than "complete" gives the reply of "summary" with that mode echoed
    in the mode field and, unless it is "summary", without
    [roundProgression]: the same error status and, on success, the same
    key-stage [stageProgression]. *)
Theorem mode_defaults_to_summary (w : World.t) (matchId : string) :
  handler w (Params.mk matchId None) = handler w (Params.mk matchId (Some "summary")) ∧
  ∀ mode : string,
    mode ≠ "complete" →
    let reply := handler w (Params.mk matchId (Some mode)) in
    let summary := handler w (Params.mk matchId (Some "summary")) in
    reply = relabel mode summary ∧
    ToolResult.isError reply = ToolResult.isError summary ∧
    Result.stageProgression <$> assembled_result reply
      = Result.stageProgression <$> assembled_result summary ∧
    Result.mode <$> assembled_result reply = (λ _, mode) <$> assembled_result summary.
Proof.
  split; [reflexivity |].
  intros mode Hmode reply summary.
  assert (Heq : reply = relabel mode summary).
  { apply run_relabel. by apply String.eqb_neq. }
  split; [exact Heq |]. rewrite Heq, assembled_result_relabel.
  split; [done |]. by destruct (assembled_result summary).
Qed.

(** ** Decoding of the stage data *)

Lemma array_ToString_rejected (stages : list TrackerStage.t) :
  JSON_parse_stages "" = None →
  (∀ rest, JSON_parse_stages ("[object Object]" +:+ rest) = None) →
  JSON_parse_stages (array_ToString stages) = None.
Proof.
  intros Hempty Htag. destruct stages as [| s [| s' stages]]; simpl.
  - exact Hempty.
  - apply (Htag "").
  - apply (Htag ("," +:+ array_ToString (s' :: stages))).
Qed.

Lemma pipeline_predecoded (w : World.t) (matchId mode : string) (appMatch : AppMatch.t)
    (trackerData : TrackerData.t) :
  JSON_parse_stages "" = None →
  (∀ rest, JSON_parse_stages ("[object Object]" +:+ rest) = None) →
  handler_pipeline w matchId mode appMatch (predecoded JSON_parse_stages trackerData)
  = handler_pipeline w matchId mode appMatch trackerData.
Proof.
  intros Hempty Htag. unfold predecoded.
  destruct (TrackerData.stage_data trackerData) as [t | l |] eqn:Hsd; try done.
  destruct (JSON_parse_stages t) as [[l | | |] |] eqn:Ht; try done.
  unfold pipeline. rewrite Hsd. simpl.
  unfold parse_stage_data. simpl.
  by rewrite (array_ToString_rejected l Hempty Htag), Ht.
Qed.

(** C6: a stage-data text and the array it decodes to give the same stage
    sequence, the same pipeline result and the same reply of the handler;
    an array is taken as it is.  [JSON.parse] is assumed to reject the
    empty text and the texts that start with [[object Object]], which is
    what an array of objects converts to. *)
Theorem stage_data_forms_agree (w : World.t) (matchId mode : string) (appMatch : AppMatch.t)
    (trackerData : TrackerData.t) (text : string) (stages : list TrackerStage.t) :
  JSON_parse_stages "" = None →
  (∀ rest, JSON_parse_stages ("[object Object]" +:+ rest) = None) →
  JSON_parse_stages text = Some (Array stages) →
  parse_stage_data JSON_parse_stages (SDArray stages) = Array stages ∧
  parse_stage_data JSON_parse_stages (SDString text) = Array stages ∧
  handler_pipeline w matchId mode appMatch (with_stage_data trackerData (SDString text))
  = handler_pipeline w matchId mode appMatch (with_stage_data trackerData (SDArray stages)) ∧
  handler_pipeline w matchId mode appMatch (with_stage_data trackerData (SDArray stages))
  = ret (assemble w matchId mode appMatch trackerData stages) ∧
  (∀ params,
     handleTftMatchTracker gunzipSync
       (λ s, bind (JSON_parse_TrackerData s) (λ td, ret (predecoded JSON_parse_stages td)))
       JSON_parse_stages w params
     = handler w params).
Proof.
  intros Hempty Htag Htext.
  assert (Harray : ∀ l, parse_stage_data JSON_parse_stages (SDArray l) = Array l).
  { intros l. unfold parse_stage_data. simpl.
    by rewrite (array_ToString_rejected l Hempty Htag). }
  assert (Hstring : parse_stage_data JSON_parse_stages (SDString text) = Array stages).
  { unfold parse_stage_data. simpl. by rewrite Htext. }
  split; [apply Harray |]. split; [exact Hstring |].
  split; [| split].
  - unfold pipeline. simpl. by rewrite Harray, Hstring.
  - unfold pipeline. simpl. by rewrite Harray.
  - intros params. unfold handleTftMatchTracker, run.
    destruct (World.fetchMetaTFTProfile w) as [[msg] | profile]; simpl; [done |].
    destruct (ProfileResponse.app_matches profile) as [[| m ms] |]; try done.
    destruct (List.find _ (m :: ms)) as [am |]; [| done].
    unfold fetchTrackerData.
    destruct (World.fetch w _) as [[msg] | response]; simpl; [done |].
    destruct (Response.ok response); simpl; [| done].
    destruct (JSON_parse_TrackerData _) as [[msg] | td]; simpl; [done |].
    by rewrite (pipeline_predecoded w _ _ am td Hempty Htag).
Qed.

Lemma assemble_succeeds (w : World.t) (matchId mode : string) (appMatch : AppMatch.t)
    (trackerData : TrackerData.t) (stages : list TrackerStage.t) :
  ∃ r, assemble w matchId mode appMatch trackerData stages = text_reply (Assembled r) false.
Proof. unfold assemble. by eexists. Qed.

(** Every reply has one text entry, and it is a success exactly when that
    entry is an assembled result. *)
Lemma reply_shape (w : World.t) (params : Params.t) :
  ∃ payload,
    ToolResult.content (handler w params) = [Content.mk "text" payload] ∧
    (ToolResult.isError (handler w params) = false ↔ ∃ r, payload = Assembled r).
Proof.
  unfold handleTftMatchTracker, run.
  destruct (World.fetchMetaTFTProfile w) as [[msg] | profile]; simpl.
  { eexists. split; [reflexivity |]. simpl. split; [done | by intros [? ?]]. }
  assert (Hnone : ∀ error tip,
            ∃ payload,
              ToolResult.content (text_reply (NoTrackerData error tip) true)
                = [Content.mk "text" payload] ∧
              (ToolResult.isError (text_reply (NoTrackerData error tip) true) = false
               ↔ ∃ r, payload = Assembled r)).
  { intros. eexists. split; [reflexivity |]. simpl. split; [done | by intros [? ?]]. }
  destruct (ProfileResponse.app_matches profile) as [[| m ms] |]; try apply Hnone.
  destruct (List.find _ (m :: ms)) as [appMatch |].
  2:{ eexists. split; [reflexivity |]. simpl. split; [done | by intros [? ?]]. }
  destruct (fetchTrackerData gunzipSync JSON_parse_TrackerData w (AppMatch.uuid appMatch))
    as [[msg] | trackerData]; simpl.
  { eexists. split; [reflexivity |]. simpl. split; [done | by intros [? ?]]. }
  unfold pipeline.
  destruct (as_array (parse_stage_data JSON_parse_stages (TrackerData.stage_data trackerData)))
    as [[msg] | stages]; simpl.
  { eexists. split; [reflexivity |]. simpl. split; [done | by intros [? ?]]. }
  unfold assemble, text_reply. eexists. split; [reflexivity |]. simpl.
  split; [by eexists | done].
Qed.

Lemma fetchTrackerData_same_inputs (w1 w2 : World.t) (uuid : string) :
  same_inputs w1 w2 →
  fetchTrackerData gunzipSync JSON_parse_TrackerData w1 uuid
  = fetchTrackerData gunzipSync JSON_parse_TrackerData w2 uuid.
Proof. intros (_ & _ & _ & _ & Hfetch). unfold fetchTrackerData. by rewrite Hfetch. Qed.

Lemma pipeline_same_inputs (w1 w2 : World.t) (matchId mode : string)
    (appMatch : AppMatch.t) (trackerData : TrackerData.t) :
  same_inputs w1 w2 →
  pipeline JSON_parse_stages w1 matchId mode appMatch trackerData
  = pipeline JSON_parse_stages w2 matchId mode appMatch trackerData.
Proof.
  intros Hsame. unfold pipeline.
  destruct (as_array _) as [e | stages]; simpl; [done |].
  by rewrite (assemble_same_inputs w1 w2 _ _ _ _ _ Hsame).
Qed.

(** C9: the reply is a function of the request, the network answers, the
    game name and the champion and item caches.  Two worlds that agree on
    these give the same assembled result, whatever their clocks, locales
    and other state; they give the same error replies as well when their
    locales format dates alike. *)
Theorem replies_depend_on_inputs_only (w1 w2 : World.t) (params : Params.t) :
  same_inputs w1 w2 →
  (ToolResult.isError (handler w1 params) = false → handler w2 params = handler w1 params) ∧
  ((∀ t, World.toLocaleString w1 t = World.toLocaleString w2 t) →
   handler w2 params = handler w1 params).
Proof.
  intros Hsame. pose proof Hsame as (_ & _ & _ & Hprofile & _).
  unfold handleTftMatchTracker, run. rewrite <- Hprofile.
  destruct (World.fetchMetaTFTProfile w1) as [[msg] | profile]; simpl; [done |].
  destruct (ProfileResponse.app_matches profile) as [[| m ms] |]; try done.
  destruct (List.find _ (m :: ms)) as [appMatch |].
  - rewrite <- (fetchTrackerData_same_inputs w1 w2 _ Hsame).
    destruct (fetchTrackerData gunzipSync JSON_parse_TrackerData w1 (AppMatch.uuid appMatch))
      as [[msg] | trackerData]; simpl; [done |].
    by rewrite <- (pipeline_same_inputs w1 w2 _ _ _ _ Hsame).
  - split; [done |]. intros Hlocale.
    erewrite map_ext; [reflexivity |]. intros a. simpl. by rewrite Hlocale.
Qed.

(** C10: when the decoded stage array is empty the reply is a success, in
    every mode; the key-stage selection is the single index -1, at which
    (as at every index out of range) [formatStageData] gives null, so that
    the stage progression is [null] in every mode but "complete", where it
    is empty; there are no rounds, no final board and no carries, and the
    starting and final health are 100 and 0. *)
Theorem empty_stage_array (w : World.t) (matchId : string) (mode : option string)
    (appMatch : AppMatch.t) (text : string) (trackerData : TrackerData.t) :
  delivered gunzipSync w matchId appMatch text →
  JSON_parse_TrackerData text = ret trackerData →
  parse_stage_data JSON_parse_stages (TrackerData.stage_data trackerData) = Array [] →
  findKeyProgressionStages [] = [-1] ∧
  (∀ championsCache itemsCache stages i,
     i < 0 ∨ Z.of_nat (length stages) ≤ i →
     formatStageData championsCache itemsCache stages i = None) ∧
  ∃ r,
    handler w (Params.mk matchId mode) = text_reply (Assembled r) false ∧
    Result.mode r = default "summary" mode ∧
    Result.stageProgression r
      = (if String.eqb (default "summary" mode) "complete" then [] else [None]) ∧
    Result.roundProgression r
      = (if String.eqb (default "summary" mode) "summary" then Some [] else None) ∧
    (mode = None ∨ mode = Some "summary" →
     Result.stageProgression r = [None] ∧ Result.roundProgression r = Some []) ∧
    Result.totalRounds r = 0 ∧
    Result.finalBoard r = [] ∧
    Result.topCarries r = [] ∧
    MatchSummary.startingHealth (Result.summary r) = JS.Num 100 ∧
    MatchSummary.finalHealth (Result.summary r) = JS.Num 0 ∧
    MatchSummary.finalGold (Result.summary r) = JS.Num 0 ∧
    MatchSummary.totalRerolls (Result.summary r) = 0 ∧
    MatchSummary.totalIncome (Result.summary r) = 0.
Proof.
  intros Hdelivered Hparse Hstages.
  split; [reflexivity |]. split.
  { intros championsCache itemsCache stages i Hi. unfold formatStageData.
    by rewrite (index_out_of_range stages i Hi). }
  rewrite (handler_delivered w matchId mode appMatch text Hdelivered).
  rewrite Hparse. simpl. unfold pipeline. rewrite Hstages. simpl.
  eexists. split; [reflexivity |]. cbn.
  split; [done |]. split; [by destruct (String.eqb _ "complete") |].
  split; [done |]. split; [| done].
  by intros [-> | ->].
Qed.

End HandlerProofs.

(** ** Sample runs *)


(** C1, as stated, fails: with the mode "full" the reply echoes "full" and
    has no [roundProgression], unlike the reply for "summary". *)
Lemma invalid_mode_counterexample :
  sample_handler (SDArray [empty_stage]) 0 (Some "full")
    ≠ sample_handler (SDArray [empty_stage]) 0 (Some "summary") ∧
  Result.mode <$> assembled_result (sample_handler (SDArray [empty_stage]) 0 (Some "full"))
    = Some "full" ∧
  Result.roundProgression
    <$> assembled_result (sample_handler (SDArray [empty_stage]) 0 (Some "full"))
    = Some None ∧
  is_Some (assembled_result (sample_handler (SDArray [empty_stage]) 0 (Some "summary"))
             ≫= Result.roundProgression).
Proof.
  split; [| split; [| split]]; try reflexivity.
  - intros H. apply (f_equal assembled_result) in H. vm_compute in H. discriminate H.
  - vm_compute. by eexists.
Qed.

Lemma mode_defaults_to_summary_witness :
  sample_handler (SDArray [empty_stage]) 0 None
    = sample_handler (SDArray [empty_stage]) 0 (Some "summary") ∧
  sample_handler (SDArray [empty_stage]) 0 (Some "full")
    = relabel "full" (sample_handler (SDArray [empty_stage]) 0 (Some "summary")).
Proof.
  destruct (mode_defaults_to_summary sample_gunzip
              (λ _, ret (sample_envelope (SDArray [empty_stage]))) sample_parse_stages
              (sample_world 0) "EUW1_1") as [Habsent Hother].
  split; [exact Habsent |].
  apply (Hother "full"). discriminate.
Defined.

Lemma stage_data_forms_agree_witness :
  parse_stage_data sample_decode_stages (SDArray [board_stage]) = Array [board_stage] ∧
  parse_stage_data sample_decode_stages (SDString board_stage_text) = Array [board_stage] ∧
  handleTftMatchTracker sample_gunzip
    (λ _, ret (sample_envelope (SDString board_stage_text))) sample_decode_stages
    (sample_world 0) (Params.mk "EUW1_1" None)
  = handleTftMatchTracker sample_gunzip
      (λ _, ret (sample_envelope (SDArray [board_stage]))) sample_decode_stages
      (sample_world 0) (Params.mk "EUW1_1" None) ∧
  (Result.finalBoard
     <$> assembled_result
           (handleTftMatchTracker sample_gunzip
              (λ _, ret (sample_envelope (SDString board_stage_text))) sample_decode_stages
              (sample_world 0) (Params.mk "EUW1_1" None)))
  = Some [BoardUnit.mk "Ahri" 2 []].
Proof.
  destruct (stage_data_forms_agree sample_gunzip
              (λ _, ret (sample_envelope (SDString board_stage_text))) sample_decode_stages
              (sample_world 0) "EUW1_1" "summary" (AppMatch.mk "uuid-1" "1" 0)
              (sample_envelope SDUndefined) board_stage_text [board_stage])
    as (Harray & Hstring & _ & _ & Hhandler).
  - reflexivity.
  - intros rest. reflexivity.
  - reflexivity.
  - split; [exact Harray |]. split; [exact Hstring |]. split.
    + symmetry. apply (Hhandler (Params.mk "EUW1_1" None)).
    + reflexivity.
Defined.


Lemma sample_delivered (clock : Z) :
  delivered sample_gunzip (sample_world clock) "EUW1_1" (AppMatch.mk "uuid-1" "1" 0) "{}".
Proof. do 3 eexists. repeat split. Defined.

Lemma sample_same_inputs : same_inputs (sample_world 0) other_world.
Proof. repeat split. Defined.

Lemma replies_depend_on_inputs_only_witness :
  handleTftMatchTracker sample_gunzip
    (λ _, ret (sample_envelope (SDArray [unnumbered_stage]))) sample_parse_stages
    other_world (Params.mk "EUW1_1" None)
  = sample_handler (SDArray [unnumbered_stage]) 0 None.
Proof.
  apply (proj1 (replies_depend_on_inputs_only sample_gunzip
                  (λ _, ret (sample_envelope (SDArray [unnumbered_stage])))
                  sample_parse_stages (sample_world 0) other_world
                  (Params.mk "EUW1_1" None) sample_same_inputs)).
  reflexivity.
Defined.

Lemma empty_stage_array_witness :
  (∃ r,
     sample_handler (SDString "[]") 0 None = text_reply (Assembled r) false ∧
     Result.stageProgression r = [None] ∧
     Result.totalRounds r = 0) ∧
  (∃ r,
     sample_handler (SDString "[]") 0 (Some "complete") = text_reply (Assembled r) false ∧
     Result.stageProgression r = [] ∧
     Result.roundProgression r = None ∧
     Result.totalRounds r = 0 ∧
     MatchSummary.startingHealth (Result.summary r) = JS.Num 100).
Proof.
  split.
  - destruct (empty_stage_array sample_gunzip (λ _, ret (sample_envelope (SDString "[]")))
                sample_parse_stages (sample_world 0) "EUW1_1" None
                (AppMatch.mk "uuid-1" "1" 0) "{}" (sample_envelope (SDString "[]"))
                (sample_delivered 0) eq_refl eq_refl)
      as (_ & _ & r & Hreply & _ & Hprogression & _ & _ & Hrounds & _).
    exists r. split; [exact Hreply |]. split; [exact Hprogression | exact Hrounds].
  - destruct (empty_stage_array sample_gunzip (λ _, ret (sample_envelope (SDString "[]")))
                sample_parse_stages (sample_world 0) "EUW1_1" (Some "complete")
                (AppMatch.mk "uuid-1" "1" 0) "{}" (sample_envelope (SDString "[]"))
                (sample_delivered 0) eq_refl eq_refl)
      as (_ & _ & r & Hreply & _ & Hprogression & Hround & _ & Hrounds & _ & _ & Hhealth & _).
    exists r. split; [exact Hreply |]. split; [exact Hprogression |].
    split; [exact Hround |]. split; [exact Hrounds | exact Hhealth].
Defined.

(** ** Further properties of the tracker *)

(** X1: [extractItems] keeps the non-empty item slots, in slot order:
    at most three items, none of them empty. *)
Theorem extractItems_compacts (piece : BoardPiece.t) :
  extractItems piece
  = omap (λ slot, if JS.truthy_string slot then slot else None)
      [BoardPiece.item_1 piece; BoardPiece.item_2 piece; BoardPiece.item_3 piece] ∧
  (length (extractItems piece) ≤ 3)%nat ∧
  Forall (λ item, item ≠ "") (extractItems piece).
Proof.
  unfold extractItems, push_if_truthy.
  destruct (BoardPiece.item_1 piece) as [[| c1 s1] |],
           (BoardPiece.item_2 piece) as [[| c2 s2] |],
           (BoardPiece.item_3 piece) as [[| c3 s3] |];
    simpl; (split; [reflexivity |]); (split; [lia |]); repeat constructor; discriminate.
Qed.

(** *** Shape of the key-stage selection *)

Lemma key_step_count (i : Z) (stage : TrackerStage.t) (st : list Z * list string) :
  length st.1 = length st.2 → NoDup st.2 → Forall (λ s, s ∈ keyRounds) st.2 →
  length (key_step i stage st).1 = length (key_step i stage st).2 ∧
  NoDup (key_step i stage st).2 ∧
  Forall (λ s, s ∈ keyRounds) (key_step i stage st).2.
Proof.
  destruct st as [ks found]. cbn [fst snd]. intros Hlen Hnd Hsub.
  unfold key_step. destruct (stageInfo stage) as [s |]; [| done].
  destruct (JS.truthy_string (Some s)); [| done]. cbn [andb].
  destruct (existsb (String.eqb s) keyRounds) eqn:Hkey; [| done].
  destruct (existsb (String.eqb s) found) eqn:Hin; [done |]. cbn [andb negb fst snd].
  apply existsb_eqb_elem_of in Hkey. apply existsb_eqb_not_elem_of in Hin.
  rewrite !length_app, Hlen. split; [done |]. split.
  - apply NoDup_app. repeat split; [done | | apply NoDup_singleton].
    intros x Hx ->%list_elem_of_singleton. done.
  - apply Forall_app. split; [done |]. constructor; [done | constructor].
Qed.

Lemma key_loop_count (stages : list TrackerStage.t) (i : Z) (st : list Z * list string) :
  length st.1 = length st.2 → NoDup st.2 → Forall (λ s, s ∈ keyRounds) st.2 →
  length (key_loop i stages st).1 = length (key_loop i stages st).2 ∧
  NoDup (key_loop i stages st).2 ∧
  Forall (λ s, s ∈ keyRounds) (key_loop i stages st).2.
Proof.
  revert i st. induction stages as [| stage stages IH]; intros i st Hlen Hnd Hsub; [done |].
  cbn [key_loop]. destruct (key_step_count i stage st Hlen Hnd Hsub) as (H1 & H2 & H3).
  by apply IH.
Qed.

(** For a sequence with stages the selection is not empty, lies within the
    sequence, ascends strictly, ends with the last index and has at most six
    indices. *)
Lemma findKeyProgressionStages_shape (stages : list TrackerStage.t) :
  stages ≠ [] →
  Forall (λ k, 0 ≤ k < Z.of_nat (length stages)) (findKeyProgressionStages stages) ∧
  StronglySorted Z.lt (findKeyProgressionStages stages) ∧
  last (findKeyProgressionStages stages) = Some (Z.of_nat (length stages) - 1) ∧
  (1 ≤ length (findKeyProgressionStages stages) ≤ 6)%nat.
Proof.
  intros Hne.
  assert (Hpos : 0 < Z.of_nat (length stages)) by (destruct stages; [done | simpl; lia]).
  pose proof (key_loop_inv stages [] ([], []) key_inv_init) as Hinv.
  pose proof (key_loop_count stages 0 ([], []) eq_refl (NoDup_nil_2) (Forall_nil_2 _))
    as (Hlen & Hnd & Hsub).
  simpl in Hinv. change (Z.of_nat 0) with 0 in Hinv.
  unfold findKeyProgressionStages.
  destruct (key_loop 0 stages ([], [])) as [ks found].
  destruct Hinv as [Hsorted Hbound _ _]. cbn [fst snd] in *.
  assert (Hfive : (length ks ≤ 5)%nat).
  { rewrite Hlen. change 5%nat with (length keyRounds).
    apply submseteq_length, NoDup_submseteq; [done |].
    intros x Hx. rewrite Forall_forall in Hsub. by apply Hsub. }
  set (lastIndex := Z.of_nat (length stages) - 1).
  destruct (last ks) as [k |] eqn:Hlast.
  - destruct (k =? lastIndex) eqn:Hk.
    + apply Z.eqb_eq in Hk. subst k.
      split; [done |]. split; [done |]. split; [done |].
      destruct ks; [done | simpl in *; lia].
    + apply Z.eqb_neq in Hk. apply last_Some in Hlast as [ks' ->].
      pose proof (StronglySorted_snoc_inv _ _ Hsorted) as Hlt.
      apply Forall_app in Hbound as Hb. destruct Hb as [Hb1 Hb2].
      inversion Hb2; subst.
      split; [| split; [| split]].
      * apply Forall_app. split; [done |].
        constructor; [unfold lastIndex; lia | constructor].
      * apply StronglySorted_snoc_lt; [done |]. apply Forall_app. split.
        -- eapply Forall_impl; [exact Hlt |]. simpl. unfold lastIndex. lia.
        -- constructor; [unfold lastIndex; lia | constructor].
      * by rewrite last_snoc.
      * rewrite length_app. cbn [length]. lia.
  - apply last_None in Hlast. subst ks. simpl.
    split; [| split; [| split]].
    + constructor; [unfold lastIndex; lia | constructor].
    + repeat constructor.
    + done.
    + lia.
Qed.

Lemma formatStageData_stageNumber (championsCache itemsCache : gmap string string)
    (stages : list TrackerStage.t) (k : Z) :
  0 ≤ k < Z.of_nat (length stages) →
  ∃ f, formatStageData championsCache itemsCache stages k = Some f ∧
       Formatted.stageNumber f = k + 1.
Proof.
  intros Hk. unfold formatStageData, index.
  destruct (k <? 0) eqn:Hneg; [apply Z.ltb_lt in Hneg; lia |].
  destruct (stages !! Z.to_nat k) as [stage |] eqn:Hstage.
  - eexists. split; [reflexivity | done].
  - apply lookup_ge_None in Hstage. lia.
Qed.

Lemma formatStageData_selection (championsCache itemsCache : gmap string string)
    (stages : list TrackerStage.t) (ks : list Z) :
  Forall (λ k, 0 ≤ k < Z.of_nat (length stages)) ks →
  ∃ fs, map (formatStageData championsCache itemsCache stages) ks = map Some fs ∧
        map Formatted.stageNumber fs = map (λ k, k + 1) ks.
Proof.
  induction 1 as [| k ks Hk Hks (fs & Hfs & Hnum)]; [by exists [] |].
  destruct (formatStageData_stageNumber championsCache itemsCache stages k Hk)
    as (f & Hf & Hn).
  exists (f :: fs). simpl. by rewrite Hf, Hfs, Hn, Hnum.
Qed.

Lemma last_map {A B : Type} (f : A → B) (l : list A) :
  last (map f l) = f <$> last l.
Proof. induction l as [| x [| y l] IH]; [done | done |]. exact IH. Qed.

Lemma StronglySorted_succ (ks : list Z) :
  StronglySorted Z.lt ks → StronglySorted Z.lt (map (λ k, k + 1) ks).
Proof.
  induction 1 as [| k ks Hs IH Hall]; simpl; constructor; [done |].
  apply Forall_fmap. eapply Forall_impl; [exact Hall |]. simpl. lia.
Qed.

(** The fields of the result that [assemble] builds. *)
Lemma assemble_fields (w : World.t) (matchId mode : string) (appMatch : AppMatch.t)
    (trackerData : TrackerData.t) (stages : list TrackerStage.t) :
  let championsCache := World.championsCache w in
  let itemsCache := World.itemsCache w in
  ∃ r,
    assemble w matchId mode appMatch trackerData stages = text_reply (Assembled r) false ∧
    Result.matchId r = matchId ∧
    Result.trackerUuid r = AppMatch.uuid appMatch ∧
    Result.mode r = mode ∧
    Result.totalRounds r = Z.of_nat (length stages) ∧
    Result.roundProgression r =
      (if String.eqb mode "summary"
       then Some (formatAllStages (Arguments.gameName (World.args w)) stages) else None) ∧
    Result.stageProgression r =
      (if String.eqb mode "complete"
       then imap (λ idx (_ : TrackerStage.t),
                    formatStageData championsCache itemsCache stages (Z.of_nat idx)) stages
       else map (formatStageData championsCache itemsCache stages)
              (findKeyProgressionStages stages)) ∧
    Result.topCarries r = JS.slice0 5 (calculateCarryStats championsCache stages) ∧
    Result.finalBoard r =
      match index stages (Z.of_nat (length stages) - 1) ≫= TrackerStage.board_pieces with
      | Some o => map (board_unit championsCache itemsCache) (Object_values o)
      | None => []
      end ∧
    MatchSummary.totalRerolls (Result.summary r) =
      fold_left (λ acc stage, add_if_truthy acc (TrackerStage.rerolls stage)) stages 0 ∧
    MatchSummary.totalIncome (Result.summary r) =
      fold_left (λ acc stage, add_if_truthy acc (TrackerStage.gold_earned stage)) stages 0.
Proof. intros. unfold assemble. eexists. repeat split. Qed.

Section TrackerReplies.
Context (gunzipSync : string → option string).
Context (JSON_parse_TrackerData : string → M TrackerData.t).
Context (JSON_parse_stages : string → option Stages).

Abbreviation handler := (handleTftMatchTracker gunzipSync JSON_parse_TrackerData JSON_parse_stages).
Abbreviation handler_decoded :=
  (decoded gunzipSync JSON_parse_TrackerData JSON_parse_stages).

Lemma handler_assembles (w : World.t) (matchId : string) (mode : option string)
    (appMatch : AppMatch.t) (trackerData : TrackerData.t) (stages : list TrackerStage.t) :
  handler_decoded w matchId appMatch trackerData stages →
  handler w (Params.mk matchId mode)
  = assemble w matchId (default "summary" mode) appMatch trackerData stages.
Proof.
  intros (text & Hdelivered & Hparse & Hstages).
  rewrite (handler_delivered _ _ _ w matchId mode appMatch text Hdelivered).
  rewrite Hparse. unfold pipeline. cbn [bind ret]. rewrite Hstages. done.
Qed.

(** X2: in the mode "complete" the result has no [roundProgression] and
    its [stageProgression] holds one snapshot per stage, none of them null,
    in stage order and numbered from 1. *)
Theorem complete_mode_lists_every_stage (w : World.t) (matchId : string)
    (appMatch : AppMatch.t) (trackerData : TrackerData.t) (stages : list TrackerStage.t) :
  handler_decoded w matchId appMatch trackerData stages →
  ∃ r,
    handler w (Params.mk matchId (Some "complete")) = text_reply (Assembled r) false ∧
    Result.mode r = "complete" ∧
    Result.roundProgression r = None ∧
    Result.totalRounds r = Z.of_nat (length stages) ∧
    length (Result.stageProgression r) = length stages ∧
    ∀ (i : nat), (i < length stages)%nat →
      ∃ f, Result.stageProgression r !! i = Some (Some f) ∧
           Formatted.stageNumber f = Z.of_nat i + 1.
Proof.
  intros Hdecoded. rewrite (handler_assembles w matchId _ _ _ _ Hdecoded).
  destruct (assemble_fields w matchId "complete" appMatch trackerData stages)
    as (r & Hr & _ & _ & Hmode & Hrounds & Hround & Hstage & _).
  exists r. cbn [default]. split; [exact Hr |].
  change (String.eqb "complete" "summary") with false in Hround.
  change (String.eqb "complete" "complete") with true in Hstage.
  rewrite Hstage. repeat split; try done.
  - apply length_imap.
  - intros i Hi. rewrite list_lookup_imap.
    destruct (stages !! i) as [stage |] eqn:Hstagei.
    + destruct (formatStageData_stageNumber (World.championsCache w) (World.itemsCache w)
                  stages (Z.of_nat i) ltac:(lia)) as (f & Hf & Hn).
      exists f. simpl. by rewrite Hf.
    + apply lookup_ge_None in Hstagei. lia.
Qed.

(** X3: in every other mode, for a sequence with stages, the
    [stageProgression] holds between one and six snapshots, none of them
    null, with strictly ascending stage numbers, the last of them the final
    stage; in the mode "summary" (or without a mode) [roundProgression]
    holds one entry per stage. *)
Theorem summary_mode_lists_key_stages (w : World.t) (matchId : string)
    (mode : option string) (appMatch : AppMatch.t) (trackerData : TrackerData.t)
    (stages : list TrackerStage.t) :
  handler_decoded w matchId appMatch trackerData stages →
  mode ≠ Some "complete" →
  stages ≠ [] →
  ∃ r snapshots,
    handler w (Params.mk matchId mode) = text_reply (Assembled r) false ∧
    Result.stageProgression r = map Some snapshots ∧
    (1 ≤ length snapshots ≤ 6)%nat ∧
    StronglySorted Z.lt (map Formatted.stageNumber snapshots) ∧
    last (map Formatted.stageNumber snapshots) = Some (Result.totalRounds r) ∧
    (default "summary" mode = "summary" →
     ∃ rounds, Result.roundProgression r = Some rounds ∧
               length rounds = length stages).
Proof.
  intros Hdecoded Hmode Hne. rewrite (handler_assembles w matchId _ _ _ _ Hdecoded).
  destruct (assemble_fields w matchId (default "summary" mode) appMatch trackerData stages)
    as (r & Hr & _ & _ & _ & Hrounds & Hround & Hstage & _).
  assert (Hnot : String.eqb (default "summary" mode) "complete" = false).
  { destruct mode as [m |]; [| done]. apply String.eqb_neq. simpl. congruence. }
  rewrite Hnot in Hstage.
  destruct (findKeyProgressionStages_shape stages Hne) as (Hrange & Hsorted & Hlast & Hlen).
  destruct (formatStageData_selection (World.championsCache w) (World.itemsCache w)
              stages _ Hrange) as (fs & Hfs & Hnum).
  exists r, fs. split; [exact Hr |]. split; [by rewrite Hstage |].
  assert (Hsame : length fs = length (findKeyProgressionStages stages)).
  { rewrite <- (length_map Formatted.stageNumber fs), Hnum. apply length_map. }
  split; [lia |]. rewrite Hnum. split; [by apply StronglySorted_succ |]. split.
  - rewrite last_map, Hlast, Hrounds. simpl. f_equal. lia.
  - intros Hsummary. rewrite Hsummary in Hround. eexists. split; [exact Hround |].
    apply length_imap.
Qed.


(** *** Totals, carries and the final board *)

Lemma fold_add_if_truthy {A : Type} (f : A → option Z) (l : list A) (acc : Z) :
  fold_left (λ acc x, add_if_truthy acc (f x)) l acc
  = acc + sum_Z (map (λ x, default 0 (f x)) l).
Proof.
  revert acc. induction l as [| x l IH]; intros acc; [unfold sum_Z; simpl; lia |].
  cbn [fold_left map]. rewrite IH. unfold sum_Z, add_if_truthy. cbn [foldr].
  destruct (f x) as [n |]; cbn [default]; unfold id; [| lia].
  destruct (n =? 0) eqn:Hn; [apply Z.eqb_eq in Hn |]; lia.
Qed.

Lemma map_imap_const {A B C : Type} (f : nat → A → B) (g : B → C) (h : A → C) (l : list A) :
  (∀ i x, g (f i x) = h x) → map g (imap f l) = map h l.
Proof.
  revert f. induction l as [| x l IH]; intros f Hf; [done |].
  cbn [imap map]. rewrite Hf. f_equal. apply IH. intros i y. apply Hf.
Qed.

Lemma map_ext_Forall {A B : Type} (f g : A → B) (l : list A) :
  Forall (λ x, f x = g x) l → map f l = map g l.
Proof. induction 1 as [| x l Hx _ IH]; simpl; [done | by rewrite Hx, IH]. Qed.

(** X4: the totals of the summary are the sums of the stages' rerolls and
    earned gold, an absent field counting as 0; the income total is the sum
    of the [income] fields of the round summaries, and so is the reroll
    total for the [rerolls] fields when no stage has negative rerolls. *)
Theorem summary_totals (w : World.t) (matchId : string) (mode : option string)
    (appMatch : AppMatch.t) (trackerData : TrackerData.t) (stages : list TrackerStage.t) :
  handler_decoded w matchId appMatch trackerData stages →
  ∃ r,
    handler w (Params.mk matchId mode) = text_reply (Assembled r) false ∧
    let rounds := formatAllStages (Arguments.gameName (World.args w)) stages in
    MatchSummary.totalRerolls (Result.summary r)
      = sum_Z (map (λ stage, default 0 (TrackerStage.rerolls stage)) stages) ∧
    MatchSummary.totalIncome (Result.summary r)
      = sum_Z (map (λ stage, default 0 (TrackerStage.gold_earned stage)) stages) ∧
    MatchSummary.totalIncome (Result.summary r)
      = sum_Z (map (λ s, default 0 (RoundSummary.income s)) rounds) ∧
    (Forall (λ stage, ∀ n, TrackerStage.rerolls stage = Some n → 0 ≤ n) stages →
     MatchSummary.totalRerolls (Result.summary r)
       = sum_Z (map (λ s, default 0 (RoundSummary.rerolls s)) rounds)).
Proof.
  intros Hdecoded. rewrite (handler_assembles w matchId _ _ _ _ Hdecoded).
  destruct (assemble_fields w matchId (default "summary" mode) appMatch trackerData stages)
    as (r & Hr & _ & _ & _ & _ & _ & _ & _ & _ & Hrerolls & Hincome).
  exists r. split; [exact Hr |]. intros rounds.
  rewrite Hrerolls, Hincome, !fold_add_if_truthy, !Z.add_0_l.
  split; [done |]. split; [done |]. split.
  - subst rounds. unfold formatAllStages.
    by rewrite (map_imap_const _ _ (λ stage, default 0 (TrackerStage.gold_earned stage))).
  - intros Hnonneg. subst rounds. unfold formatAllStages.
    rewrite (map_imap_const _ _
               (λ stage, default 0 (match TrackerStage.rerolls stage with
                                    | Some n => if 0 <? n then Some n else None
                                    | None => None
                                    end))); [| done].
    f_equal. apply map_ext_Forall. eapply Forall_impl; [exact Hnonneg |].
    intros stage Hstage. cbn beta in Hstage.
    destruct (TrackerStage.rerolls stage) as [n |]; [| done].
    specialize (Hstage n eq_refl). cbn [default].
    destruct (0 <? n) eqn:Hn; [done |]. apply Z.ltb_ge in Hn. cbn [default]. unfold id. lia.
Qed.

Lemma in_ranking (championsCache : gmap string string) (stages : list TrackerStage.t)
    (e : Carry.t) :
  e ∈ calculateCarryStats championsCache stages →
  ∃ name, name ∈ encountered championsCache (damage_records stages) ∧
          e = carry_of championsCache (damage_records stages) name.
Proof.
  rewrite calculateCarryStats_refines. unfold ranking_spec.
  rewrite (sort_Permutation Carry.totalDamage). intros He.
  apply list_elem_of_In, in_map_iff in He as (name & <- & Hname).
  exists name. split; [| done]. by apply key_order_elem_of, list_elem_of_In.
Qed.

Lemma ranking_champions_NoDup (championsCache : gmap string string)
    (stages : list TrackerStage.t) :
  NoDup (map Carry.champion (calculateCarryStats championsCache stages)).
Proof.
  rewrite calculateCarryStats_refines. unfold ranking_spec.
  assert (Hperm :
    map Carry.champion
      (JS.sort (λ a b, Carry.totalDamage b - Carry.totalDamage a)
         (map (carry_of championsCache (damage_records stages))
            (key_order (encountered championsCache (damage_records stages)))))
    ≡ₚ key_order (encountered championsCache (damage_records stages))).
  { rewrite <- (champion_carry_of championsCache (damage_records stages)
                  (key_order (encountered championsCache (damage_records stages)))) at 2.
    apply Permutation_map, (sort_Permutation Carry.totalDamage). }
  rewrite Hperm. apply key_order_NoDup.
Qed.

(** X5: [topCarries] is the head of the ranking of [calculateCarryStats]:
    its first five entries, or all of them when there are fewer.  They are
    sorted by total damage, descending; no entry left out has more damage
    than one that is kept; no champion appears twice, and every entry has a
    positive total. *)
Theorem topCarries_lead_the_ranking (w : World.t) (matchId : string)
    (mode : option string) (appMatch : AppMatch.t) (trackerData : TrackerData.t)
    (stages : list TrackerStage.t) :
  handler_decoded w matchId appMatch trackerData stages →
  ∃ r rest,
    handler w (Params.mk matchId mode) = text_reply (Assembled r) false ∧
    calculateCarryStats (World.championsCache w) stages = Result.topCarries r ++ rest ∧
    length (Result.topCarries r)
      = (length (calculateCarryStats (World.championsCache w) stages) `min` 5)%nat ∧
    StronglySorted (λ a b, Carry.totalDamage b ≤ Carry.totalDamage a) (Result.topCarries r) ∧
    (∀ a b, a ∈ Result.topCarries r → b ∈ rest →
            Carry.totalDamage b ≤ Carry.totalDamage a) ∧
    NoDup (map Carry.champion (Result.topCarries r)) ∧
    Forall (λ e, 0 < Carry.totalDamage e) (Result.topCarries r).
Proof.
  intros Hdecoded. rewrite (handler_assembles w matchId _ _ _ _ Hdecoded).
  destruct (assemble_fields w matchId (default "summary" mode) appMatch trackerData stages)
    as (r & Hr & _ & _ & _ & _ & _ & _ & Htop & _).
  set (ranking := calculateCarryStats (World.championsCache w) stages) in *.
  exists r, (drop 5 ranking). split; [exact Hr |].
  rewrite Htop. unfold JS.slice0. change (firstn 5 ranking) with (take 5 ranking).
  assert (Hsplit : ranking = take 5 ranking ++ drop 5 ranking) by (by rewrite take_drop).
  assert (Hsorted : StronglySorted (λ a b, Carry.totalDamage b ≤ Carry.totalDamage a)
                      (take 5 ranking ++ drop 5 ranking)).
  { rewrite <- Hsplit. apply (sort_sorted Carry.totalDamage). }
  split; [exact Hsplit |]. split; [rewrite length_take; lia |]. split; [| split; [| split]].
  - revert Hsorted. generalize (take 5 ranking) (drop 5 ranking). clear.
    induction l as [| x l IH]; intros l' Hs; [constructor |].
    inversion Hs as [| ? ? Hl Hx]; subst. constructor; [by apply (IH l') |].
    by apply Forall_app in Hx as [Hx _].
  - revert Hsorted. generalize (take 5 ranking) (drop 5 ranking). clear.
    induction l as [| x l IH]; intros l' Hs a b Ha Hb; [by apply elem_of_nil in Ha |].
    inversion Hs as [| ? ? Hl Hx]; subst.
    apply elem_of_cons in Ha as [-> | Ha]; [| by apply (IH l' Hl)].
    apply Forall_app in Hx as [_ Hx]. rewrite Forall_forall in Hx. by apply Hx.
  - assert (Hsub : (Carry.champion <$> take 5 ranking) `sublist_of` (Carry.champion <$> ranking))
      by apply fmap_sublist, sublist_take.
    pose proof (ranking_champions_NoDup (World.championsCache w) stages) as Hnd.
    exact (sublist_NoDup _ _ Hnd Hsub).
  - rewrite Forall_forall. intros e He.
    assert (Hin : e ∈ ranking) by (rewrite Hsplit; apply elem_of_app; by left).
    apply in_ranking in Hin as (name & Hname & ->).
    apply encountered_elem_of in Hname as [Hne _]. simpl.
    apply sum_damage_positive; [done | apply records_of_positive].
Qed.

Lemma default_when_nonempty {A : Type} (l : list A) : default [] (when_nonempty l) = l.
Proof. by destruct l. Qed.

Lemma last_imap_lookup {A B : Type} (f : nat → A → B) (l : list A) (x : A) :
  last l = Some x → last (imap f l) = Some (f (pred (length l)) x).
Proof.
  rewrite !last_lookup, length_imap, list_lookup_imap. intros ->. done.
Qed.

(** X6: for a sequence with stages, the last snapshot of
    [stageProgression] is the one of the final stage, in every mode, and
    [finalBoard] is its board (empty when that snapshot has none). *)
Theorem finalBoard_is_last_snapshot (w : World.t) (matchId : string)
    (mode : option string) (appMatch : AppMatch.t) (trackerData : TrackerData.t)
    (stages : list TrackerStage.t) :
  handler_decoded w matchId appMatch trackerData stages →
  stages ≠ [] →
  ∃ r f,
    handler w (Params.mk matchId mode) = text_reply (Assembled r) false ∧
    last (Result.stageProgression r) = Some (Some f) ∧
    Formatted.stageNumber f = Result.totalRounds r ∧
    Result.finalBoard r = default [] (Formatted.board f).
Proof.
  intros Hdecoded Hne. rewrite (handler_assembles w matchId _ _ _ _ Hdecoded).
  destruct (assemble_fields w matchId (default "summary" mode) appMatch trackerData stages)
    as (r & Hr & _ & _ & _ & Hrounds & _ & Hstage & _ & Hboard & _).
  set (lastIndex := Z.of_nat (length stages) - 1) in *.
  destruct (last stages) as [stage |] eqn:Hlast; [| by apply last_None in Hlast].
  assert (Hindex : index stages lastIndex = Some stage).
  { unfold lastIndex. rewrite last_lookup in Hlast.
    destruct stages as [| s0 stages0]; [done |].
    replace (Z.of_nat (length (s0 :: stages0)) - 1)
      with (Z.of_nat (pred (length (s0 :: stages0)))) by (simpl; lia).
    by rewrite index_of_nat. }
  assert (Hsnapshot : ∃ f,
    formatStageData (World.championsCache w) (World.itemsCache w) stages lastIndex = Some f ∧
    Formatted.stageNumber f = lastIndex + 1 ∧
    Formatted.board f =
      TrackerStage.board_pieces stage ≫= λ o,
        when_nonempty (map (board_unit (World.championsCache w) (World.itemsCache w))
                         (Object_values o))).
  { unfold formatStageData. rewrite Hindex. eexists. split; [reflexivity |]. done. }
  destruct Hsnapshot as (f & Hf & Hnumber & Hfboard).
  exists r, f. split; [exact Hr |]. split; [| split].
  - rewrite Hstage. destruct (String.eqb (default "summary" mode) "complete").
    + rewrite (last_imap_lookup _ _ _ Hlast). rewrite <- Hf. f_equal. f_equal.
      unfold lastIndex. destruct stages; [done | simpl; lia].
    + rewrite last_map.
      destruct (findKeyProgressionStages_shape stages Hne) as (_ & _ & -> & _).
      simpl. by rewrite <- Hf.
  - rewrite Hnumber, Hrounds. unfold lastIndex. lia.
  - rewrite Hboard, Hfboard, Hindex. simpl.
    destruct (TrackerStage.board_pieces stage) as [o |]; simpl; [| done].
    by rewrite default_when_nonempty.
Qed.

(** *** Replies without an assembled result *)

(** X7: a profile without matches gives the reply that no tracker data is
    available; a profile with matches, none of which is the requested one,
    gives the reply that names the requested id and lists the first ten
    matches of the profile, in the order of the profile. *)
Theorem unlisted_match_reply (w : World.t) (matchId : string) (mode : option string)
    (profile : ProfileResponse.t) :
  World.fetchMetaTFTProfile w = ret profile →
  (default [] (ProfileResponse.app_matches profile) = [] →
   ∃ error tip,
     handler w (Params.mk matchId mode) = text_reply (NoTrackerData error tip) true) ∧
  (∀ app_matches,
     ProfileResponse.app_matches profile = Some app_matches →
     app_matches ≠ [] →
     Forall (λ m, AppMatch.match_id_ow m ≠ strip_region_prefix matchId) app_matches →
     ∃ reason listing,
       handler w (Params.mk matchId mode)
       = text_reply (NoTrackerForMatch ("No tracker data for match " +:+ matchId)
                       reason listing) true ∧
       listing = map (available w) (take 10 app_matches) ∧
       (length listing ≤ 10)%nat).
Proof.
  intros Hprofile. unfold handleTftMatchTracker, run. cbn [Params.matchId Params.mode].
  rewrite Hprofile. cbn [bind ret]. split.
  - intros Hnone. destruct (ProfileResponse.app_matches profile) as [[| m ms] |];
      [by do 2 eexists | done | by do 2 eexists].
  - intros app_matches -> Hne Hall.
    destruct app_matches as [| m ms]; [done |].
    assert (Hfind : List.find (λ m0, String.eqb (AppMatch.match_id_ow m0)
                                       (strip_region_prefix matchId)) (m :: ms) = None).
    { revert Hall. generalize (m :: ms). clear. intros l.
      induction 1 as [| x l Hx _ IH]; [done |]. cbn [List.find].
      apply String.eqb_neq in Hx. by rewrite Hx. }
    rewrite Hfind. do 2 eexists. split; [reflexivity |]. unfold JS.slice0. split.
    + unfold available. apply firstn_map.
    + rewrite length_firstn. lia.
Qed.

(** X8: a failure of a collaborator reaches the caller as an error reply
    that carries the message of the failure: a failed profile lookup, a
    failed storage request, a storage answer that is not ok (the message
    then names the status), an envelope that does not parse. *)
Theorem collaborator_failures_reported (w : World.t) (matchId : string)
    (mode : option string) :
  (∀ message,
     World.fetchMetaTFTProfile w = throw (Error message) →
     handler w (Params.mk matchId mode) = text_reply (Failure message) true) ∧
  (∀ appMatch,
     listed w matchId appMatch →
     (∀ message,
        World.fetch w (tracker_url (AppMatch.uuid appMatch)) = throw (Error message) →
        handler w (Params.mk matchId mode) = text_reply (Failure message) true) ∧
     (∀ response,
        World.fetch w (tracker_url (AppMatch.uuid appMatch)) = ret response →
        Response.ok response = false →
        handler w (Params.mk matchId mode)
        = text_reply (Failure ("S3 fetch error: " +:+ pretty (Response.status response)))
            true) ∧
     (∀ response message,
        World.fetch w (tracker_url (AppMatch.uuid appMatch)) = ret response →
        Response.ok response = true →
        JSON_parse_TrackerData (envelope_text gunzipSync (Response.body response))
          = throw (Error message) →
        handler w (Params.mk matchId mode) = text_reply (Failure message) true)).
Proof.
  split.
  - intros message Hprofile. unfold handleTftMatchTracker, run.
    cbn [Params.matchId Params.mode]. by rewrite Hprofile.
  - intros appMatch (profile & ms & Hprofile & Hms & Hfind).
    assert (Hrun : ∀ m,
      run gunzipSync JSON_parse_TrackerData JSON_parse_stages w matchId m
      = bind (fetchTrackerData gunzipSync JSON_parse_TrackerData w (AppMatch.uuid appMatch))
          (λ trackerData, pipeline JSON_parse_stages w matchId m appMatch trackerData)).
    { intros m. unfold run. rewrite Hprofile. cbn [bind ret]. rewrite Hms.
      destruct ms as [| m0 ms]; [done |]. by rewrite Hfind. }
    unfold handleTftMatchTracker. cbn [Params.matchId Params.mode]. rewrite Hrun.
    unfold fetchTrackerData.
    change (METATFT_S3 +:+ "/" +:+ AppMatch.uuid appMatch +:+ ".json")
      with (tracker_url (AppMatch.uuid appMatch)).
    split; [| split].
    + intros message ->. done.
    + intros response -> Hok. cbn [bind ret]. by rewrite Hok.
    + intros response message -> Hok Hparse. cbn [bind ret]. rewrite Hok. cbn [negb].
      unfold envelope_text in Hparse. by rewrite Hparse.
Qed.

End TrackerReplies.

(** *** Parts of a snapshot *)

Lemma damage_or_0_default (u : UnitDamage.t) :
  damage_or_0 u = default 0 (UnitDamage.damage u).
Proof.
  unfold damage_or_0, JS.Z_or. destruct (UnitDamage.damage u) as [d |]; [| done].
  simpl. destruct (d =? 0) eqn:Hd; [apply Z.eqb_eq in Hd |]; done.
Qed.

Lemma StronglySorted_map {A B : Type} (R : A → A → Prop) (S : B → B → Prop)
    (f : A → B) (l : list A) :
  (∀ a b, R a b → S (f a) (f b)) → StronglySorted R l → StronglySorted S (map f l).
Proof.
  intros HRS. induction 1 as [| x l _ IH Hx]; simpl; constructor; [done |].
  apply Forall_forall. intros y Hy. apply list_elem_of_In, in_map_iff in Hy as (a & <- & Ha).
  apply HRS. rewrite Forall_forall in Hx. by apply Hx, list_elem_of_In.
Qed.

Lemma when_nonempty_Some {A : Type} (l l' : list A) :
  when_nonempty l = Some l' → l' = l ∧ l ≠ [].
Proof. destruct l; [done |]. by intros [= <-]. Qed.

(** X9: the [unitDamage] of a snapshot holds the units of the stage that
    dealt damage, one entry for each record with a positive damage, sorted
    by damage, descending, records of equal damage in the order of the
    stage; it is omitted exactly when no record has a positive damage. *)
Theorem unitDamage_ranks_positive_records (championsCache itemsCache : gmap string string)
    (stages : list TrackerStage.t) (i : nat) (stage : TrackerStage.t) :
  stages !! i = Some stage →
  ∃ f,
    formatStageData championsCache itemsCache stages (Z.of_nat i) = Some f ∧
    let positive :=
      List.filter positive_damage (default [] (Object_values <$> TrackerStage.units stage)) in
    (Formatted.unitDamage f = None ↔ positive = []) ∧
    ∀ l, Formatted.unitDamage f = Some l →
      l ≡ₚ map (damage_unit championsCache) positive ∧
      Forall positive_entry l ∧
      StronglySorted (λ a b, default 0 (DamageUnit.damage b) ≤ default 0 (DamageUnit.damage a)) l ∧
      ∀ d, List.filter (λ e, default 0 (DamageUnit.damage e) =? d) l
           = List.filter (λ e, default 0 (DamageUnit.damage e) =? d)
               (map (damage_unit championsCache) positive).
Proof.
  intros Hi. unfold formatStageData. rewrite index_of_nat, Hi.
  eexists. split; [reflexivity |]. cbn [Formatted.unitDamage].
  destruct (TrackerStage.units stage) as [o |];
    cbn [mbind option_bind fmap option_fmap option_map default]; unfold id; [| by split].
  set (positive := List.filter positive_damage (Object_values o)).
  set (sorted := JS.sort (λ a b, damage_or_0 b - damage_or_0 a) positive).
  assert (Hperm : sorted ≡ₚ positive) by apply (sort_Permutation damage_or_0).
  split.
  - split.
    + intros Hnone. destruct sorted as [| u us] eqn:Hsorted; [| done].
      by apply Permutation_nil_l in Hperm.
    + intros Hnil. unfold sorted. by rewrite Hnil.
  - intros l Hl. apply when_nonempty_Some in Hl as [-> _].
    split; [by apply Permutation_map |]. split; [| split].
    + apply Forall_forall. intros e He.
      apply list_elem_of_In, in_map_iff in He as (u & <- & Hu).
      apply list_elem_of_In in Hu. rewrite Hperm in Hu.
      apply list_elem_of_In, filter_In in Hu as [_ Hpos].
      unfold positive_damage in Hpos. unfold positive_entry. simpl.
      destruct (UnitDamage.damage u) as [d |]; [| done].
      apply andb_true_iff in Hpos as [_ Hd]. apply Z.ltb_lt in Hd. by exists d.
    + apply (StronglySorted_map (λ a b, damage_or_0 b ≤ damage_or_0 a));
        [| apply (sort_sorted damage_or_0)].
      intros a b. by rewrite !damage_or_0_default.
    + intros d.
      assert (Hfilter : ∀ us,
        List.filter (λ e, default 0 (DamageUnit.damage e) =? d)
          (map (damage_unit championsCache) us)
        = map (damage_unit championsCache) (List.filter (λ u, damage_or_0 u =? d) us)).
      { induction us as [| u us IH]; [done |]. cbn [map List.filter].
        rewrite IH, damage_or_0_default. simpl.
        by destruct (default 0 (UnitDamage.damage u) =? d). }
      rewrite !Hfilter. f_equal. apply (sort_stable damage_or_0).
Qed.

(** X10: the [allPlayers] of a snapshot holds one entry for each player of
    the roster, sorted by health, descending, players of equal health in
    the order of the roster; a player with a tag line is named
    [name#tag]. *)
Theorem allPlayers_ranks_the_roster (championsCache itemsCache : gmap string string)
    (stages : list TrackerStage.t) (i : nat) (stage : TrackerStage.t)
    (roster : JS.object PlayerStatus.t) :
  stages !! i = Some stage →
  TrackerStage.player_status stage = Some roster →
  ∃ f players,
    formatStageData championsCache itemsCache stages (Z.of_nat i) = Some f ∧
    Formatted.allPlayers f = Some players ∧
    players ≡ₚ map player_info roster ∧
    length players = length roster ∧
    StronglySorted (λ a b, PlayerInfo.health b ≤ PlayerInfo.health a) players ∧
    (∀ h, List.filter (λ p, PlayerInfo.health p =? h) players
          = List.filter (λ p, PlayerInfo.health p =? h) (map player_info roster)) ∧
    (∀ name data, (name, data) ∈ roster →
       ∃ p, p ∈ players ∧ PlayerInfo.health p = PlayerStatus.health data ∧
            PlayerInfo.level p = PlayerStatus.xp data ∧
            PlayerInfo.name p =
              match PlayerStatus.tag_line data with
              | Some (String c tag) => name +:+ "#" +:+ String c tag
              | _ => name
              end).
Proof.
  intros Hi Hroster. unfold formatStageData. rewrite index_of_nat, Hi.
  do 2 eexists. split; [reflexivity |]. cbn [Formatted.allPlayers]. rewrite Hroster.
  split; [reflexivity |].
  pose proof (sort_Permutation PlayerInfo.health (map player_info roster)) as Hperm.
  split; [exact Hperm |]. split; [by rewrite Hperm, length_map |].
  split; [apply (sort_sorted PlayerInfo.health) |].
  split; [intros h; apply (sort_stable PlayerInfo.health) |].
  intros name data Hin. exists (player_info (name, data)). split.
  - rewrite Hperm. apply list_elem_of_In, in_map. by apply list_elem_of_In.
  - simpl. split; [done |]. split; [done |].
    by destruct (PlayerStatus.tag_line data) as [[| c tag] |].
Qed.

(** *** Match ids *)

Lemma append_cons (c : ascii) (a b : string) : String c a +:+ b = String c (a +:+ b).
Proof. reflexivity. Qed.

Lemma append_nil_l (b : string) : "" +:+ b = b.
Proof. reflexivity. Qed.

Ltac push_append := rewrite ?append_cons, ?append_nil_l.

Lemma append_assoc (a b c : string) : (a +:+ b) +:+ c = a +:+ (b +:+ c).
Proof. induction a as [| x a IH]; push_append; [done | by rewrite IH]. Qed.

Lemma append_nil_r (a : string) : a +:+ "" = a.
Proof. induction a as [| x a IH]; push_append; [done | by rewrite IH]. Qed.

Lemma prefix_spec (a b : string) : String.prefix a b = true ↔ ∃ post, b = a +:+ post.
Proof.
  revert b. induction a as [| x a IH]; intros b.
  - split; [intros _; by exists b | intros _; by destruct b].
  - destruct b as [| y b]; simpl; [split; [done | by intros [? ?]] |].
    destruct (ascii_dec x y) as [-> | Hxy].
    + rewrite IH. split; intros [post Hpost]; exists post.
      * by rewrite Hpost.
      * rewrite append_cons in Hpost. by injection Hpost.
    + split; [done |]. intros [post Hpost]. rewrite append_cons in Hpost.
      injection Hpost as ? ?. done.
Qed.

Lemma digit_not_upper (c : ascii) : JS.is_digit c = true → JS.is_upper c = false.
Proof.
  unfold JS.is_digit, JS.is_upper. rewrite andb_true_iff, andb_false_iff, !Z.leb_le, !Z.leb_gt.
  lia.
Qed.

Lemma skip_upper_app (u r : string) :
  string_forall JS.is_upper u = true →
  (∀ c, first_char r = Some c → JS.is_upper c = false) →
  skip_upper (u +:+ r) = r.
Proof.
  intros Hu Hr. induction u as [| c u IH]; push_append.
  - destruct r as [| c r]; [done |]. simpl. by rewrite (Hr c eq_refl).
  - simpl in Hu. apply andb_true_iff in Hu as [Hc Hu]. simpl. rewrite Hc. by apply IH.
Qed.

Lemma skip_digits_app (d r : string) :
  string_forall JS.is_digit d = true →
  (∀ c, first_char r = Some c → JS.is_digit c = false) →
  DataDragon.skip_digits (d +:+ r) = r.
Proof.
  intros Hd Hr. induction d as [| c d IH]; push_append.
  - destruct r as [| c r]; [done |]. simpl. by rewrite (Hr c eq_refl).
  - simpl in Hd. apply andb_true_iff in Hd as [Hc Hd]. simpl. rewrite Hc. by apply IH.
Qed.

Lemma skip_upper_split (s : string) :
  ∃ u, s = u +:+ skip_upper s ∧ string_forall JS.is_upper u = true.
Proof.
  induction s as [| c s (u & Hu & Hupper)]; [by exists "" |]. simpl.
  destruct (JS.is_upper c) eqn:Hc; [| by exists ""].
  exists (String c u). simpl. rewrite Hc, Hupper. push_append. split; [by rewrite <- Hu | done].
Qed.

Lemma skip_digits_split (s : string) :
  ∃ d, s = d +:+ DataDragon.skip_digits s ∧ string_forall JS.is_digit d = true.
Proof.
  induction s as [| c s (d & Hd & Hdigit)]; [by exists "" |]. simpl.
  destruct (JS.is_digit c) eqn:Hc; [| by exists ""].
  exists (String c d). simpl. rewrite Hc, Hdigit. push_append. split; [by rewrite <- Hd | done].
Qed.

Lemma first_char_skip_upper (s : string) (c : ascii) :
  first_char (skip_upper s) = Some c → JS.is_upper c = false.
Proof.
  induction s as [| x s IH]; simpl; [done |].
  destruct (JS.is_upper x) eqn:Hx; [done |]. simpl. by intros [= <-].
Qed.

Ltac ascii_cases c := destruct c as [[|] [|] [|] [|] [|] [|] [|] [|]].

(** X11: [strip_region_prefix] removes a leading region tag: capital
    letters, then digits, then an underscore.  An id of that form loses the
    tag; every other id is returned unchanged. *)
Theorem strip_region_prefix_spec (matchId : string) :
  (∀ region digits rest,
     region ≠ "" →
     string_forall JS.is_upper region = true →
     string_forall JS.is_digit digits = true →
     matchId = region +:+ digits +:+ "_" +:+ rest →
     strip_region_prefix matchId = rest) ∧
  (strip_region_prefix matchId = matchId ∨
   ∃ region digits,
     region ≠ "" ∧
     string_forall JS.is_upper region = true ∧
     string_forall JS.is_digit digits = true ∧
     matchId = region +:+ digits +:+ "_" +:+ strip_region_prefix matchId).
Proof.
  split.
  - intros region digits rest Hne Hupper Hdigit ->.
    destruct region as [| c region]; [done |].
    pose proof Hupper as Hregion. simpl in Hupper. apply andb_true_iff in Hupper as [Hc _].
    unfold strip_region_prefix. rewrite append_cons, Hc, <- append_cons.
    rewrite skip_upper_app; [| done |].
    + rewrite skip_digits_app; [done | done |]. by intros c' [= <-].
    + intros c'. destruct digits as [| d digits]; push_append; simpl; [by intros [= <-] |].
      intros [= <-]. simpl in Hdigit. apply andb_true_iff in Hdigit as [Hd _].
      by apply digit_not_upper.
  - destruct matchId as [| c s]; [by left |].
    unfold strip_region_prefix. destruct (JS.is_upper c) eqn:Hc; [| by left].
    destruct (skip_upper_split (String c s)) as (u & Hu & Hupper).
    destruct (skip_digits_split (skip_upper (String c s))) as (d & Hd & Hdigit).
    pose proof (first_char_skip_upper (String c s)) as Hfirst.
    destruct (DataDragon.skip_digits (skip_upper (String c s))) as [| c' rest] eqn:Hrest;
      [by left |].
    ascii_cases c'; try (by left).
    right. exists u, d. split; [| split; [done | split; [done |]]].
    + intros ->. rewrite append_nil_l in Hu. rewrite <- Hu in Hfirst.
      specialize (Hfirst c eq_refl). congruence.
    + rewrite Hu at 1. by rewrite Hd at 1.
Qed.

Section RegionPrefix.
Context (gunzipSync : string → option string).
Context (JSON_parse_TrackerData : string → M TrackerData.t).
Context (JSON_parse_stages : string → option Stages).

(** X12: the handler uses the requested id only through
    [strip_region_prefix] and as an echo: two ids that differ by a region
    tag get the same reply, apart from the places that repeat the id. *)
Theorem region_prefix_is_optional (w : World.t) (id1 id2 : string) (mode : option string) :
  strip_region_prefix id1 = strip_region_prefix id2 →
  handleTftMatchTracker gunzipSync JSON_parse_TrackerData JSON_parse_stages w
    (Params.mk id2 mode)
  = readdress id2
      (handleTftMatchTracker gunzipSync JSON_parse_TrackerData JSON_parse_stages w
         (Params.mk id1 mode)).
Proof.
  intros Hids. unfold handleTftMatchTracker, run. cbn [Params.matchId Params.mode].
  rewrite Hids.
  destruct (World.fetchMetaTFTProfile w) as [[msg] | profile]; cbn [bind ret]; [done |].
  destruct (ProfileResponse.app_matches profile) as [[| m ms] |]; try done.
  destruct (List.find _ (m :: ms)) as [appMatch |]; [| done].
  destruct (fetchTrackerData gunzipSync JSON_parse_TrackerData w (AppMatch.uuid appMatch))
    as [[msg] | trackerData]; cbn [bind ret]; [done |].
  unfold pipeline.
  destruct (as_array (parse_stage_data JSON_parse_stages (TrackerData.stage_data trackerData)))
    as [[msg] | stages]; cbn [bind ret]; done.
Qed.

End RegionPrefix.

(** *** Fallback names *)

Lemma dot_run_prefix (r : string) : ∃ post, r = DataDragon.dot_run r +:+ post.
Proof.
  induction r as [| c r [post Hpost]]; [by exists "" |]. cbn [DataDragon.dot_run].
  destruct (JS.is_newline c || String.prefix DataDragon.LS (String c r)
            || String.prefix DataDragon.PS (String c r)).
  - by exists (String c r).
  - exists post. push_append. by rewrite <- Hpost.
Qed.

Lemma nonempty_Some (s g : string) : DataDragon.nonempty s = Some g → g = s ∧ s ≠ "".
Proof. destruct s; [done |]. by intros [= <-]. Qed.

Lemma search_Some (here : string → option string) (s g : string) :
  DataDragon.search here s = Some g → ∃ pre t, s = pre +:+ t ∧ here t = Some g.
Proof.
  induction s as [| c s IH]; cbn [DataDragon.search].
  - destruct (here "") eqn:Hhere; [| done]. intros [= <-]. by exists "", "".
  - destruct (here (String c s)) eqn:Hhere.
    + intros [= <-]. by exists "", (String c s).
    + intros Hs. destruct (IH Hs) as (pre & t & -> & Ht). by exists (String c pre), t.
Qed.

Lemma search_here (here : string → option string) (s g : string) :
  here s = Some g → DataDragon.search here s = Some g.
Proof. intros Hhere. destruct s; cbn [DataDragon.search]; by rewrite Hhere. Qed.

Lemma substring_of_refl (s : string) : substring_of s s.
Proof. exists "", "". by rewrite append_nil_l, append_nil_r. Qed.

Lemma substring_of_suffix (g pre t : string) : substring_of g t → substring_of g (pre +:+ t).
Proof.
  intros (a & b & ->). exists (pre +:+ a), b. by rewrite append_assoc.
Qed.

Lemma match_set_prefix_here_Some (s g : string) :
  DataDragon.match_set_prefix_here s = Some g → substring_of g s ∧ g ≠ "".
Proof.
  unfold DataDragon.match_set_prefix_here.
  destruct s as [| c1 s]; [done |]. ascii_cases c1; try done.
  destruct s as [| c2 s]; [done |]. ascii_cases c2; try done.
  destruct s as [| c3 s]; [done |]. ascii_cases c3; try done.
  destruct s as [| d r]; [done |].
  destruct (JS.is_digit d); [| done].
  destruct (skip_digits_split r) as (ds & Hds & _).
  destruct (DataDragon.skip_digits r) as [| c4 rest]; [done |].
  ascii_cases c4; try done.
  intros Hg. apply nonempty_Some in Hg as [-> Hne]. split; [| done].
  destruct (dot_run_prefix rest) as [post Hpost].
  exists ("TFT" +:+ String d ds +:+ "_"), post. rewrite Hds.
  rewrite !append_assoc. push_append. by rewrite <- Hpost.
Qed.

(** X13: a champion id that is not in the cache resolves to the text that
    follows its first set tag (TFT, digits, underscore), up to the end of
    the line; an id without a set tag resolves to itself.  The name is a
    piece of the id, and it is not empty unless the id is. *)
Theorem getChampionName_fallback (championsCache : gmap string string) (apiName : string) :
  championsCache !! JS.toLowerCase apiName = None →
  (∀ digits name,
     digits ≠ "" → string_forall JS.is_digit digits = true →
     name ≠ "" → DataDragon.dot_run name = name →
     apiName = "TFT" +:+ digits +:+ "_" +:+ name →
     DataDragon.getChampionName championsCache apiName = name) ∧
  substring_of (DataDragon.getChampionName championsCache apiName) apiName ∧
  (apiName ≠ "" → DataDragon.getChampionName championsCache apiName ≠ "").
Proof.
  intros Hmiss. unfold DataDragon.getChampionName. rewrite Hmiss. split; [| split].
  - intros digits name Hdigits Hdigit Hname Hrun ->.
    rewrite (search_here _ _ name); [done |].
    destruct digits as [| d digits]; [done |]. simpl in Hdigit.
    apply andb_true_iff in Hdigit as [Hd Hdigit].
    push_append. cbn [DataDragon.match_set_prefix_here]. rewrite Hd.
    rewrite skip_digits_app; [| done | by intros c [= <-]].
    push_append. rewrite Hrun. by destruct name.
  - destruct (DataDragon.search DataDragon.match_set_prefix_here apiName) as [g |] eqn:Hsearch;
      [| apply substring_of_refl].
    apply search_Some in Hsearch as (pre & t & -> & Ht).
    apply substring_of_suffix. by apply match_set_prefix_here_Some in Ht as [Hsub _].
  - intros Hne.
    destruct (DataDragon.search DataDragon.match_set_prefix_here apiName) as [g |] eqn:Hsearch;
      [| done].
    apply search_Some in Hsearch as (pre & t & _ & Ht).
    by apply match_set_prefix_here_Some in Ht as [_ Hg].
Qed.

Lemma substring_full (s : string) : substring 0 (String.length s) s = s.
Proof. induction s as [| c s IH]; simpl; [done | by rewrite IH]. Qed.

Lemma first_char_skip_spaces (s : string) (c : ascii) :
  first_char (JS.skip_spaces s) = Some c → JS.is_space c = false.
Proof.
  induction s as [| x s IH]; simpl; [done |].
  destruct (JS.is_space x) eqn:Hx; [done |]. simpl. by intros [= <-].
Qed.

Lemma first_char_drop_trailing_spaces (s : string) (c : ascii) :
  first_char (JS.drop_trailing_spaces s) = Some c → first_char s = Some c.
Proof.
  destruct s as [| x s]; simpl; [done |].
  destruct (JS.drop_trailing_spaces s); [| done].
  by destruct (JS.is_space x).
Qed.

Lemma last_char_drop_trailing_spaces (s : string) (c : ascii) :
  last_char (JS.drop_trailing_spaces s) = Some c → JS.is_space c = false.
Proof.
  induction s as [| x s IH]; simpl; [done |].
  destruct (JS.drop_trailing_spaces s) as [| y r] eqn:Hr.
  - destruct (JS.is_space x) eqn:Hx; simpl; [done |]. by intros [= <-].
  - intros Hlast. apply IH. exact Hlast.
Qed.

Lemma trimmed_trim (s : string) : trimmed (JS.trim s).
Proof.
  split; intros c Hc.
  - apply first_char_drop_trailing_spaces in Hc. by apply first_char_skip_spaces in Hc.
  - by apply last_char_drop_trailing_spaces in Hc.
Qed.

Lemma without_spaces_skip_spaces (s : string) :
  without_spaces (JS.skip_spaces s) = without_spaces s.
Proof.
  induction s as [| x s IH]; simpl; [done |].
  destruct (JS.is_space x) eqn:Hx; [done |]. simpl. by rewrite Hx.
Qed.

Lemma without_spaces_drop_trailing_spaces (s : string) :
  without_spaces (JS.drop_trailing_spaces s) = without_spaces s.
Proof.
  induction s as [| x s IH]; simpl; [done |].
  destruct (JS.drop_trailing_spaces s) as [| y r] eqn:Hr.
  - rewrite <- IH. simpl. destruct (JS.is_space x) eqn:Hx; simpl; [done | by rewrite Hx].
  - rewrite <- IH. done.
Qed.

Lemma upper_not_space (c : ascii) : JS.is_upper c = true → JS.is_space c = false.
Proof.
  unfold JS.is_upper, JS.is_space.
  rewrite andb_true_iff, orb_false_iff, andb_false_iff, !Z.leb_le, !Z.leb_gt, Z.eqb_neq. lia.
Qed.

Lemma without_spaces_space_capitals (s : string) :
  without_spaces (DataDragon.space_capitals s) = without_spaces s.
Proof.
  induction s as [| x s IH]; simpl; [done |].
  destruct (JS.is_upper x) eqn:Hx; simpl; rewrite IH; [| done].
  change (JS.is_space " ") with true. cbn iota. done.
Qed.

(** X14: an item id that is not in the cache and begins with the item tag
    resolves to the rest of the id with a space put before each capital
    letter and the outer white space removed: the name neither begins nor
    ends with white space, and without its spaces it is the rest of the
    id without its spaces. *)
Theorem getItemName_fallback (itemsCache : gmap string string) (apiName rest : string) :
  itemsCache !! JS.toLowerCase apiName = None →
  apiName = "TFT_Item_" +:+ rest →
  rest ≠ "" → DataDragon.dot_run rest = rest →
  DataDragon.getItemName itemsCache apiName = JS.trim (DataDragon.space_capitals rest) ∧
  trimmed (DataDragon.getItemName itemsCache apiName) ∧
  without_spaces (DataDragon.getItemName itemsCache apiName) = without_spaces rest.
Proof.
  intros Hmiss -> Hne Hrun.
  assert (Hname : DataDragon.getItemName itemsCache ("TFT_Item_" +:+ rest)
                  = JS.trim (DataDragon.space_capitals rest)).
  { unfold DataDragon.getItemName. rewrite Hmiss.
    rewrite (search_here _ _ rest); [done |].
    unfold DataDragon.match_item_prefix_here.
    rewrite (proj2 (prefix_spec "TFT_Item_" ("TFT_Item_" +:+ rest))); [| by exists rest].
    change (String.length ("TFT_Item_" +:+ rest)) with (9 + String.length rest)%nat.
    replace (9 + String.length rest - 9)%nat with (String.length rest) by lia.
    change (substring 9 (String.length rest) ("TFT_Item_" +:+ rest))
      with (substring 0 (String.length rest) rest).
    rewrite substring_full, Hrun. by destruct rest. }
  rewrite Hname. split; [done |]. split; [apply trimmed_trim |].
  unfold JS.trim.
  by rewrite without_spaces_drop_trailing_spaces, without_spaces_skip_spaces,
    without_spaces_space_capitals.
Qed.

(** *** Round outcomes *)

Lemma includes_spec (hay needle : string) :
  JS.includes hay needle = true ↔ substring_of needle hay.
Proof.
  split.
  - induction hay as [| c hay IH]; cbn [JS.includes]; rewrite orb_true_iff.
    + intros [Hp | ?]; [| done]. apply prefix_spec in Hp as [post ->]. by exists "", post.
    + intros [Hp | Hrec].
      * apply prefix_spec in Hp as [post ->]. by exists "", post.
      * destruct (IH Hrec) as (pre & post & ->). by exists (String c pre), post.
  - intros (pre & post & ->). induction pre as [| c pre IH].
    + assert (Hp : String.prefix needle ("" +:+ needle +:+ post) = true)
        by (apply prefix_spec; by exists post).
      destruct ("" +:+ needle +:+ post); cbn [JS.includes]; by rewrite Hp.
    + push_append. cbn [JS.includes]. rewrite IH. apply orb_true_r.
Qed.

Lemma find_first {A : Type} (p : A → bool) (l : list A) (x : A) :
  List.find p l = Some x ↔
  ∃ pre post, l = pre ++ x :: post ∧ Forall (λ y, p y = false) pre ∧ p x = true.
Proof.
  induction l as [| y l IH]; cbn [List.find].
  - split; [done |]. intros (pre & post & Hl & _). by destruct pre.
  - destruct (p y) eqn:Hy.
    + split.
      * intros [= <-]. by exists [], l.
      * intros (pre & post & Hl & Hpre & Hx). destruct pre as [| z pre].
        -- by injection Hl as <- _.
        -- injection Hl as <- _. inversion Hpre; subst. congruence.
    + rewrite IH. split.
      * intros (pre & post & -> & Hpre & Hx). exists (y :: pre), post.
        split; [done |]. split; [by constructor | done].
      * intros (pre & post & Hl & Hpre & Hx). destruct pre as [| z pre].
        -- injection Hl as <- _. congruence.
        -- injection Hl as <- ->. inversion Hpre; subst. by exists pre, post.
Qed.

Lemma find_none {A : Type} (p : A → bool) (l : list A) :
  List.find p l = None ↔ Forall (λ y, p y = false) l.
Proof.
  induction l as [| y l IH]; cbn [List.find]; [split; [by constructor | done] |].
  destruct (p y) eqn:Hy.
  - split; [done |]. intros H. inversion H; subst. congruence.
  - rewrite IH. split; [by constructor | by inversion 1].
Qed.


(** *** Loading of the name caches *)

Lemma initializeDataDragon_initialized (fetch : string → M CDragonData.t) (st : Caches.t) :
  Caches.isInitialized (initializeDataDragon fetch st).2 = true.
Proof.
  unfold initializeDataDragon. destruct (Caches.isInitialized st) eqn:Hinit; [done |].
  by destruct (fetch CDRAGON_BASE).
Qed.

Lemma initialize_each_initialized (fetches : list (string → M CDragonData.t))
    (st : Caches.t) :
  Caches.isInitialized st = true → initialize_each fetches st = ([], st).
Proof.
  intros Hinit. induction fetches as [| fetch fetches IH]; [done |].
  cbn [initialize_each]. unfold initializeDataDragon. by rewrite Hinit, IH.
Qed.

(** X16: the caches are loaded at most once.  The first call of
    [initializeDataDragon] on an uninitialised module sends one request;
    whether the download succeeds or fails the module is initialised
    afterwards, and no later call sends a request or changes the state,
    whatever the network would answer.  A failed download leaves the
    caches as they were. *)
Theorem initializeDataDragon_once (fetch : string → M CDragonData.t)
    (fetches : list (string → M CDragonData.t)) (st : Caches.t) :
  initialize_each (fetch :: fetches) st = initializeDataDragon fetch st ∧
  Caches.isInitialized (initializeDataDragon fetch st).2 = true ∧
  (initializeDataDragon fetch st).1
    = (if Caches.isInitialized st then [] else [CDRAGON_BASE]) ∧
  (∀ e, fetch CDRAGON_BASE = throw e →
     let st' := (initializeDataDragon fetch st).2 in
     Caches.championsCache st' = Caches.championsCache st ∧
     Caches.itemsCache st' = Caches.itemsCache st ∧
     Caches.traitsCache st' = Caches.traitsCache st ∧
     Caches.augmentsCache st' = Caches.augmentsCache st).
Proof.
  split; [| split; [| split]].
  - cbn [initialize_each].
    pose proof (initializeDataDragon_initialized fetch st) as Hinit.
    destruct (initializeDataDragon fetch st) as [sent st1]. cbn [snd] in Hinit.
    by rewrite (initialize_each_initialized fetches st1 Hinit), app_nil_r.
  - apply initializeDataDragon_initialized.
  - unfold initializeDataDragon. destruct (Caches.isInitialized st); [done |].
    by destruct (fetch CDRAGON_BASE).
  - intros e He. unfold initializeDataDragon.
    destruct (Caches.isInitialized st); [done |]. by rewrite He.
Qed.

Lemma fill_snoc (cache : gmap string string) (entries : list NamedEntry.t)
    (e : NamedEntry.t) :
  fill cache (entries ++ [e])
  = <[ JS.toLowerCase (NamedEntry.apiName e) := NamedEntry.name e ]> (fill cache entries).
Proof. unfold fill. by rewrite fold_left_app. Qed.

(** A cache holds, under a key, the name of the last entry with that key,
    or what it held before when no entry has the key. *)
Lemma fill_lookup (cache : gmap string string) (entries : list NamedEntry.t) (key : string) :
  fill cache entries !! key
  = match last_entry key entries with
    | Some e => Some (NamedEntry.name e)
    | None => cache !! key
    end.
Proof.
  induction entries as [| e entries IH] using rev_ind; [done |].
  rewrite fill_snoc. unfold last_entry in *. rewrite List.filter_app. cbn [List.filter].
  destruct (String.eqb (JS.toLowerCase (NamedEntry.apiName e)) key) eqn:Hkey.
  - apply String.eqb_eq in Hkey. subst key. by rewrite lookup_insert_eq, last_snoc.
  - apply String.eqb_neq in Hkey. rewrite lookup_insert_ne by done.
    by rewrite app_nil_r.
Qed.

Section SortAny.
Context {A : Type} (cmp : A → A → Z).

Lemma sort_insert_perm (x : A) (l : list A) : JS.sort_insert cmp x l ≡ₚ x :: l.
Proof.
  induction l as [| y l IH]; simpl; [done |].
  destruct (0 <? cmp x y); [| done]. rewrite IH. apply Permutation_swap.
Qed.

Lemma sort_perm (l : list A) : JS.sort cmp l ≡ₚ l.
Proof.
  induction l as [| x l IH]; simpl; [done |]. by rewrite sort_insert_perm, IH.
Qed.

End SortAny.

Lemma leb_refl (a : string) : String.leb a a = true.
Proof. by destruct (String.leb_total a a). Qed.

Lemma leb_trans (a b c : string) :
  String.leb a b = true → String.leb b c = true → String.leb a c = true.
Proof.
  unfold String.leb. intros Hab Hbc.
  destruct (String.compare a b) eqn:Eab; [| | done].
  - apply String.compare_eq_iff in Eab. by subst b.
  - destruct (String.compare b c) eqn:Ebc; [| | done].
    + apply String.compare_eq_iff in Ebc. subst c. by rewrite Eab.
    + apply OrderedTypeEx.String_as_OT.cmp_lt in Eab, Ebc.
      pose proof (OrderedTypeEx.String_as_OT.lt_trans _ _ _ Eab Ebc) as Hac.
      apply OrderedTypeEx.String_as_OT.cmp_lt in Hac.
      unfold OrderedTypeEx.String_as_OT.cmp in Hac. by rewrite Hac.
Qed.

Lemma string_cmp_positive (x y : string) :
  (0 <? string_cmp x y) = negb (String.leb x y).
Proof. unfold string_cmp, String.leb. by destruct (String.compare x y). Qed.

Lemma sort_insert_string_sorted (x : string) (l : list string) :
  StronglySorted (λ a b, String.leb a b = true) l →
  StronglySorted (λ a b, String.leb a b = true) (JS.sort_insert string_cmp x l).
Proof.
  induction 1 as [| y l Hl IH Hy]; simpl; [repeat constructor |].
  rewrite string_cmp_positive. destruct (String.leb x y) eqn:Hxy; simpl.
  - constructor; [by constructor |]. constructor; [done |].
    eapply Forall_impl; [exact Hy |]. intros z Hz. by apply (leb_trans x y z).
  - constructor; [done |]. rewrite sort_insert_perm. constructor; [| done].
    destruct (String.leb_total x y) as [H | H]; [congruence | done].
Qed.

Lemma sort_string_sorted (l : list string) :
  StronglySorted (λ a b, String.leb a b = true) (JS.sort string_cmp l).
Proof.
  induction l as [| x l IH]; simpl; [constructor | by apply sort_insert_string_sorted].
Qed.

Lemma last_sorted_greatest (l : list string) (m : string) :
  StronglySorted (λ a b, String.leb a b = true) l →
  last l = Some m → ∀ k, k ∈ l → String.leb k m = true.
Proof.
  induction 1 as [| x l Hl IH Hx]; intros Hlast k Hk; [by apply elem_of_nil in Hk |].
  destruct l as [| y l].
  - injection Hlast as <-. apply list_elem_of_singleton in Hk as ->. apply leb_refl.
  - change (last (x :: y :: l)) with (last (y :: l)) in Hlast.
    apply elem_of_cons in Hk as [-> | Hk]; [| by apply IH].
    rewrite Forall_forall in Hx. apply Hx. by apply last_Some_elem_of.
Qed.

(** X17: a successful download fills the champion and trait caches from
    one set, the one whose key is the greatest in the order of the code
    units, and the item cache from the item list.  Each cache then holds,
    under a lower-cased id, the name of the last entry with that id, and
    otherwise what it held before; [getChampionName] resolves every
    spelling of such an id to that name. *)
Theorem load_fills_from_greatest_set (fetch : string → M CDragonData.t)
    (data : CDragonData.t) (st : Caches.t) :
  Caches.isInitialized st = false →
  fetch CDRAGON_BASE = ret data →
  let st' := (initializeDataDragon fetch st).2 in
  let keys := Object_keys (CDragonData.sets data) in
  (latestSet data = None ↔ keys = []) ∧
  (∀ k, latestSet data = Some k →
        k ∈ keys ∧ ∀ k', k' ∈ keys → String.leb k' k = true) ∧
  (∀ key, Caches.itemsCache st' !! key
          = match last_entry key (default [] (CDragonData.items data)) with
            | Some e => Some (NamedEntry.name e)
            | None => Caches.itemsCache st !! key
            end) ∧
  (∀ k sd,
     latestSet data = Some k →
     JS.get_own (CDragonData.sets data) k = Some sd →
     (∀ key, Caches.championsCache st' !! key
             = match last_entry key (default [] (SetData.champions sd)) with
               | Some e => Some (NamedEntry.name e)
               | None => Caches.championsCache st !! key
               end) ∧
     (∀ key, Caches.traitsCache st' !! key
             = match last_entry key (default [] (SetData.traits sd)) with
               | Some e => Some (NamedEntry.name e)
               | None => Caches.traitsCache st !! key
               end) ∧
     (∀ apiName e,
        last_entry (JS.toLowerCase apiName) (default [] (SetData.champions sd)) = Some e →
        DataDragon.getChampionName (Caches.championsCache st') apiName
        = NamedEntry.name e)).
Proof.
  intros Hinit Hfetch st' keys. subst st' keys. unfold initializeDataDragon.
  rewrite Hinit, Hfetch. cbn [snd].
  pose proof (sort_perm string_cmp (Object_keys (CDragonData.sets data))) as Hperm.
  pose proof (sort_string_sorted (Object_keys (CDragonData.sets data))) as Hsorted.
  split; [| split; [| split]].
  - unfold latestSet. rewrite last_None. split.
    + intros Hnil. rewrite Hnil in Hperm. by apply Permutation_nil_l in Hperm.
    + by intros ->.
  - intros k Hk. unfold latestSet in Hk. split.
    + rewrite <- Hperm. by apply last_Some_elem_of.
    + intros k' Hk'. apply (last_sorted_greatest _ _ Hsorted Hk). by rewrite Hperm.
  - intros key. unfold load. cbn [Caches.itemsCache]. apply fill_lookup.
  - intros k sd Hk Hsd.
    assert (Hchampions : ∀ key,
      Caches.championsCache (load data st) !! key
      = match last_entry key (default [] (SetData.champions sd)) with
        | Some e => Some (NamedEntry.name e)
        | None => Caches.championsCache st !! key
        end).
    { intros key. unfold load. cbn [Caches.championsCache]. rewrite Hk. cbn [mbind option_bind].
      rewrite Hsd. apply fill_lookup. }
    assert (Htraits : ∀ key,
      Caches.traitsCache (load data st) !! key
      = match last_entry key (default [] (SetData.traits sd)) with
        | Some e => Some (NamedEntry.name e)
        | None => Caches.traitsCache st !! key
        end).
    { intros key. unfold load. cbn [Caches.traitsCache]. rewrite Hk. cbn [mbind option_bind].
      rewrite Hsd. apply fill_lookup. }
    split; [exact Hchampions |]. split; [exact Htraits |].
    intros apiName e He. unfold DataDragon.getChampionName.
    by rewrite Hchampions, He.
Qed.

(** *** Formatting of traits and units *)

(** X18: [formatActiveTraits] gives one line for each trait whose style is
    positive: the lines follow the styles in descending order, traits of
    equal style keep the order of the input, and a line is the trait's
    name, a space and its number of units. *)
Theorem formatActiveTraits_ranks_active (traitsCache : gmap string string)
    (traits : list Trait.t) :
  let active := List.filter (λ t, 0 <? Trait.style t) traits in
  ∃ ranked,
    formatActiveTraits traitsCache traits = map (trait_line traitsCache) ranked ∧
    ranked ≡ₚ active ∧
    Forall (λ t, 0 < Trait.style t) ranked ∧
    StronglySorted (λ a b, Trait.style b ≤ Trait.style a) ranked ∧
    (∀ s, List.filter (λ t, Trait.style t =? s) ranked
          = List.filter (λ t, Trait.style t =? s) active) ∧
    length (formatActiveTraits traitsCache traits) = length active.
Proof.
  intros active.
  exists (JS.sort (λ a b, Trait.style b - Trait.style a) active).
  pose proof (sort_Permutation Trait.style active) as Hperm.
  split; [done |]. split; [exact Hperm |]. split; [| split; [| split]].
  - rewrite Hperm. apply Forall_forall. intros t Ht.
    apply list_elem_of_In, filter_In in Ht as [_ Ht]. by apply Z.ltb_lt.
  - apply (sort_sorted Trait.style).
  - intros s. apply (sort_stable Trait.style).
  - unfold formatActiveTraits. fold active. by rewrite length_map, Hperm.
Qed.

Lemma mapM_ret {A B : Type} (f : A → M B) (g : A → B) (l : list A) :
  Forall (λ x, f x = ret (g x)) l → mapM f l = ret (map g l).
Proof.
  induction 1 as [| x l Hx _ IH]; [done |]. cbn [mapM map]. by rewrite Hx, IH.
Qed.

Lemma mapM_throw {A B : Type} (f : A → M B) (g : A → B) (pre post : list A)
    (x : A) (e : exn) :
  Forall (λ y, f y = ret (g y)) pre → f x = throw e →
  mapM f (pre ++ x :: post) = throw e.
Proof.
  induction 1 as [| y pre Hy _ IH]; intros Hx.
  - cbn [app mapM]. by rewrite Hx.
  - cbn [app mapM]. rewrite Hy. cbn [bind ret]. by rewrite (IH Hx).
Qed.

Lemma length_copies (n : nat) (s : string) :
  String.length (copies n s) = (n * String.length s)%nat.
Proof.
  induction n as [| n IH]; [done |]. cbn [copies].
  assert (Happ : ∀ a b, String.length (a +:+ b) = (String.length a + String.length b)%nat).
  { clear. induction a as [| c a IHa]; intros b; [done |].
    rewrite append_cons. simpl. by rewrite IHa. }
  rewrite Happ, IH. lia.
Qed.

(** X19: [formatUnits] gives one line per unit, in order (the name, a
    space, one star per tier and the items in parentheses when there are
    any) provided no unit has a negative tier; otherwise it throws for the
    first unit with a negative tier, and gives no lines. *)
Theorem formatUnits_lines (championsCache itemsCache : gmap string string)
    (units : list Unit.t) :
  let line u :=
    DataDragon.getChampionName championsCache (Unit.character_id u) +:+ " "
      +:+ copies (Z.to_nat (Unit.tier u)) star
      +:+ items_suffix itemsCache (Unit.itemNames u) in
  (Forall (λ u, 0 ≤ Unit.tier u) units →
   formatUnits championsCache itemsCache units = ret (map line units)) ∧
  (∀ pre u post,
     units = pre ++ u :: post →
     Forall (λ u, 0 ≤ Unit.tier u) pre →
     Unit.tier u < 0 →
     formatUnits championsCache itemsCache units
     = throw (Error ("Invalid count value: " +:+ pretty (Unit.tier u)))) ∧
  (∀ u, String.length (copies (Z.to_nat (Unit.tier u)) star)
        = (3 * Z.to_nat (Unit.tier u))%nat) ∧
  (∀ u, Unit.itemNames u = [] → items_suffix itemsCache (Unit.itemNames u) = "").
Proof.
  intros line.
  assert (Hline : ∀ l, Forall (λ u, 0 ≤ Unit.tier u) l →
            Forall (λ u, unit_line championsCache itemsCache u = ret (line u)) l).
  { intros l Hl. eapply Forall_impl; [exact Hl |]. intros u Hu.
    unfold unit_line, String_repeat. cbn beta in Hu.
    destruct (Unit.tier u <? 0) eqn:Hneg; [apply Z.ltb_lt in Hneg; lia | done]. }
  split; [| split; [| split]].
  - intros Hall. unfold formatUnits. by apply mapM_ret, Hline.
  - intros pre u post -> Hpre Hu. unfold formatUnits.
    apply (mapM_throw _ line); [by apply Hline |].
    unfold unit_line, String_repeat. apply Z.ltb_lt in Hu. by rewrite Hu.
  - intros u. rewrite length_copies. simpl. lia.
  - by intros u ->.
Qed.

(** *** Region and platform *)

Lemma to_lower_char_not_upper (c : ascii) : JS.is_upper (JS.to_lower_char c) = false.
Proof. ascii_cases c; reflexivity. Qed.

Lemma toLowerCase_no_upper (s : string) :
  string_forall (λ c, negb (JS.is_upper c)) (JS.toLowerCase s) = true.
Proof.
  induction s as [| c s IH]; [done |]. cbn [JS.toLowerCase string_forall].
  by rewrite to_lower_char_not_upper, IH.
Qed.

Lemma inherited_lower_case (s : string) :
  JS.inherited (JS.toLowerCase s) = true → JS.toLowerCase s ∈ lower_case_inherited.
Proof.
  intros Hinh. pose proof (toLowerCase_no_upper s) as Hlower.
  apply existsb_eqb_elem_of in Hinh. unfold JS.Object_prototype_keys in Hinh.
  repeat (apply elem_of_cons in Hinh as [Hk | Hinh];
          [rewrite Hk in Hlower |- *; first [discriminate Hlower | by repeat constructor] |]).
  by apply elem_of_nil in Hinh.
Qed.

Lemma property_of_Own (table : JS.object string) (k v : string) :
  property_of table k = Some (Own v) → (k, v) ∈ table.
Proof.
  unfold property_of. destruct (JS.get_own table k) as [v' |] eqn:Hown.
  - intros [= <-]. by apply get_own_Some_elem_of.
  - by destruct (JS.inherited k).
Qed.

Lemma property_of_Inherited (table : JS.object string) (k k' : string) :
  property_of table k = Some (Inherited k') → k' = k ∧ JS.inherited k = true.
Proof.
  unfold property_of. destruct (JS.get_own table k); [done |].
  destruct (JS.inherited k); [| done]. by intros [= <-].
Qed.

Lemma table_values (table : JS.object string) (values : list string) (k v : string) :
  forallb (λ e, existsb (String.eqb e.2) values) table = true →
  (k, v) ∈ table → v ∈ values.
Proof.
  intros Hall Hin. rewrite forallb_forall in Hall.
  apply list_elem_of_In in Hin. specialize (Hall _ Hin). by apply existsb_eqb_elem_of.
Qed.

(** X20: the region that [detectRegion] returns is one of the four valid
    regions, and the platform that [detectPlatform] returns is one of the
    platforms, unless the lower-cased tag line is [constructor] or
    [__proto__], which the tables inherit.  A valid explicit region wins
    over the tag line; the letter case of the tag line is irrelevant; a tag
    line unknown to the platform table gets [euw1]; and every tag line with
    a region in the table has a platform in the table, [sea] apart. *)
Theorem detected_region_and_platform (tagLine : string) (explicitRegion : option string) :
  (∀ r, detectRegion tagLine explicitRegion = Some (Own r) → r ∈ VALID_REGIONS) ∧
  (∀ k, detectRegion tagLine explicitRegion = Some (Inherited k) →
        k = JS.toLowerCase tagLine ∧ k ∈ lower_case_inherited) ∧
  (∀ r, explicitRegion = Some r → r ∈ VALID_REGIONS →
        detectRegion tagLine explicitRegion = Some (Own r)) ∧
  (∀ p, detectPlatform tagLine = Own p → p ∈ platforms) ∧
  (∀ k, detectPlatform tagLine = Inherited k →
        k = JS.toLowerCase tagLine ∧ k ∈ lower_case_inherited) ∧
  (∀ other, JS.toLowerCase other = JS.toLowerCase tagLine →
        detectRegion other explicitRegion = detectRegion tagLine explicitRegion ∧
        detectPlatform other = detectPlatform tagLine) ∧
  (property_of PLATFORM_MAPPING (JS.toLowerCase tagLine) = None →
        detectPlatform tagLine = Own "euw1") ∧
  (∀ r, JS.get_own REGION_MAPPING (JS.toLowerCase tagLine) = Some r →
        JS.toLowerCase tagLine = "sea" ∨
        is_Some (JS.get_own PLATFORM_MAPPING (JS.toLowerCase tagLine))).
Proof.
  set (tagLower := JS.toLowerCase tagLine).
  assert (Hinherited : ∀ table k,
            property_of table tagLower = Some (Inherited k) →
            k = tagLower ∧ k ∈ lower_case_inherited).
  { intros table k Hk. apply property_of_Inherited in Hk as [-> Hinh].
    split; [done |]. by apply inherited_lower_case. }
  split; [| split; [| split; [| split; [| split; [| split; [| split]]]]]].
  - intros r. unfold detectRegion. fold tagLower.
    destruct (JS.truthy_string explicitRegion
              && existsb (String.eqb (JS.ToString explicitRegion)) VALID_REGIONS) eqn:Hexplicit.
    + intros [= <-]. apply andb_true_iff in Hexplicit as [_ Hvalid].
      by apply existsb_eqb_elem_of.
    + destruct (truthy_property (property_of REGION_MAPPING tagLower)); [| done].
      intros Hr. apply property_of_Own in Hr.
      by apply (table_values REGION_MAPPING VALID_REGIONS tagLower r).
  - intros k. unfold detectRegion. fold tagLower.
    destruct (JS.truthy_string explicitRegion && _); [done |].
    destruct (truthy_property (property_of REGION_MAPPING tagLower)); [| done].
    intros Hk. exact (Hinherited _ _ Hk).
  - intros r -> Hr. unfold detectRegion. cbn [JS.ToString].
    apply existsb_eqb_elem_of in Hr as Hvalid. rewrite Hvalid.
    assert (Htruthy : JS.truthy_string (Some r) = true).
    { unfold VALID_REGIONS in Hr.
      repeat (apply elem_of_cons in Hr as [-> | Hr]; [done |]). by apply elem_of_nil in Hr. }
    by rewrite Htruthy.
  - intros p. unfold detectPlatform. fold tagLower.
    destruct (property_of PLATFORM_MAPPING tagLower) as [q |] eqn:Hq.
    + destruct (truthy_property (Some q)).
      * intros ->. apply property_of_Own in Hq.
        by apply (table_values PLATFORM_MAPPING platforms tagLower p).
      * intros [= <-]. by repeat constructor.
    + intros [= <-]. by repeat constructor.
  - intros k. unfold detectPlatform. fold tagLower.
    destruct (property_of PLATFORM_MAPPING tagLower) as [q |] eqn:Hq; [| done].
    destruct (truthy_property (Some q)); [| done]. intros ->. exact (Hinherited _ _ Hq).
  - intros other Hother. unfold detectRegion, detectPlatform. by rewrite Hother.
  - intros Hnone. unfold detectPlatform. fold tagLower. by rewrite Hnone.
  - intros r Hr. apply get_own_Some_elem_of in Hr.
    assert (Hall : forallb (λ e : string * string,
                      String.eqb e.1 "sea"
                      || bool_decide (is_Some (JS.get_own PLATFORM_MAPPING e.1)))
                     REGION_MAPPING = true) by reflexivity.
    rewrite forallb_forall in Hall. apply list_elem_of_In in Hr.
    specialize (Hall _ Hr). cbn [fst] in Hall. apply orb_true_iff in Hall as [Hsea | Hsome].
    + left. by apply String.eqb_eq.
    + right. by apply bool_decide_eq_true in Hsome.
Qed.

(** *** The profile lookup *)

Lemma hex_round_trip (c : ascii) :
  ascii_of_N (16 * hex_value (hex_digit (N_of_ascii c / 16))
              + hex_value (hex_digit (N_of_ascii c mod 16))) = c.
Proof. ascii_cases c; reflexivity. Qed.

Lemma hex_digit_safe (c : ascii) :
  uri_safe (hex_digit (N_of_ascii c / 16)) = true ∧
  uri_safe (hex_digit (N_of_ascii c mod 16)) = true.
Proof. ascii_cases c; split; reflexivity. Qed.

Lemma percent_decode_other (c : ascii) (r : string) :
  is_unreserved c = true → percent_decode (String c r) = String c (percent_decode r).
Proof. ascii_cases c; try reflexivity; discriminate. Qed.

Lemma percent_decode_encodeURIComponent (s : string) :
  percent_decode (encodeURIComponent s) = s.
Proof.
  induction s as [| c s IH]; [done |]. cbn [encodeURIComponent].
  destruct (is_unreserved c) eqn:Hc.
  - by rewrite percent_decode_other, IH.
  - cbn [percent_decode]. by rewrite hex_round_trip, IH.
Qed.

Lemma encodeURIComponent_safe (s : string) :
  string_forall uri_safe (encodeURIComponent s) = true.
Proof.
  induction s as [| c s IH]; [done |]. cbn [encodeURIComponent].
  destruct (is_unreserved c) eqn:Hc; cbn [string_forall].
  - unfold uri_safe at 1. by rewrite Hc, IH.
  - destruct (hex_digit_safe c) as [-> ->]. by rewrite IH.
Qed.

Lemma replace_first_same (a : ascii) (s : string) : replace_first a a s = s.
Proof.
  induction s as [| c s IH]; [done |]. cbn [replace_first].
  destruct (Ascii.eqb c a) eqn:Hc; [by apply Ascii.eqb_eq in Hc as -> | by rewrite IH].
Qed.

(** X21: the address of the profile lookup has the same shape for every
    player: the platform in capitals, then the game name and the tag line
    escaped.  An escaped part holds only unreserved characters and percent
    signs, so no separator of the address, and it determines the text it
    was made from. *)
Theorem profile_url_segments (args : Arguments.t) :
  let game := encodeURIComponent (Arguments.gameName args) in
  let tag := encodeURIComponent (Arguments.tagLine args) in
  profile_url args
    = METATFT_API +:+ "/public/profile/lookup_by_riotid/"
        +:+ toUpperCase (Arguments.platform args) +:+ "/" +:+ game +:+ "/" +:+ tag
        +:+ "?source=full_profile&tft_set=TFTSet16" ∧
  string_forall uri_safe game = true ∧
  string_forall uri_safe tag = true ∧
  Forall (λ c, uri_safe c = false) ["/"; "?"; "#"; "&"; "="; " "; "+"]%char ∧
  percent_decode game = Arguments.gameName args ∧
  percent_decode tag = Arguments.tagLine args ∧
  (∀ other, encodeURIComponent other = game → other = Arguments.gameName args).
Proof.
  intros game tag. subst game tag. unfold profile_url. rewrite replace_first_same.
  split; [done |]. split; [apply encodeURIComponent_safe |].
  split; [apply encodeURIComponent_safe |]. split; [by repeat constructor |].
  split; [apply percent_decode_encodeURIComponent |].
  split; [apply percent_decode_encodeURIComponent |].
  intros other Hother. apply (f_equal percent_decode) in Hother.
  by rewrite !percent_decode_encodeURIComponent in Hother.
Qed.

Section ProfileLookup.
Context (gunzipSync : string → option string).
Context (JSON_parse_TrackerData : string → M TrackerData.t).
Context (JSON_parse_stages : string → option Stages).

(** X22: when the profile service answers with a status that is not ok,
    the handler replies with an error that names the status, and when the
    request itself fails, with the message of that failure; the profile is
    not read and no tracker data is requested. *)
Theorem profile_failure_reported (w : World.t) (matchId : string) (mode : option string)
    (fetch : string → M Response.t)
    (JSON_parse_ProfileResponse : string → M ProfileResponse.t) :
  World.fetchMetaTFTProfile w
    = fetchMetaTFTProfile fetch JSON_parse_ProfileResponse (World.args w) →
  (∀ response,
     fetch (profile_url (World.args w)) = ret response →
     Response.ok response = false →
     handleTftMatchTracker gunzipSync JSON_parse_TrackerData JSON_parse_stages w
       (Params.mk matchId mode)
     = text_reply (Failure ("MetaTFT API error: " +:+ pretty (Response.status response)))
         true) ∧
  (∀ message,
     fetch (profile_url (World.args w)) = throw (Error message) →
     handleTftMatchTracker gunzipSync JSON_parse_TrackerData JSON_parse_stages w
       (Params.mk matchId mode)
     = text_reply (Failure message) true) ∧
  (∀ response message,
     fetch (profile_url (World.args w)) = ret response →
     Response.ok response = true →
     JSON_parse_ProfileResponse (Response.body response) = throw (Error message) →
     handleTftMatchTracker gunzipSync JSON_parse_TrackerData JSON_parse_stages w
       (Params.mk matchId mode)
     = text_reply (Failure message) true).
Proof.
  intros Hlookup. unfold handleTftMatchTracker, run. cbn [Params.matchId Params.mode].
  rewrite Hlookup. unfold fetchMetaTFTProfile. split; [| split].
  - intros response -> Hok. cbn [bind ret]. by rewrite Hok.
  - by intros message ->.
  - intros response message -> Hok Hparse. cbn [bind ret]. by rewrite Hok, Hparse.
Qed.

(** X24: compression is transparent.  Two worlds that differ only in
    whether the storage serves an envelope compressed or plain give the
    same reply: the handler reads a response body only through the text
    that the decompression attempt leaves. *)
Theorem compression_is_transparent (w1 w2 : World.t) (params : Params.t) :
  same_envelopes gunzipSync w1 w2 →
  handleTftMatchTracker gunzipSync JSON_parse_TrackerData JSON_parse_stages w1 params
  = handleTftMatchTracker gunzipSync JSON_parse_TrackerData JSON_parse_stages w2 params.
Proof.
  intros (Hname & Hchampions & Hitems & Hprofile & Hlocale & Hfetch).
  unfold handleTftMatchTracker, run. rewrite <- Hprofile.
  destruct (World.fetchMetaTFTProfile w1) as [[msg] | profile]; cbn [bind ret]; [done |].
  destruct (ProfileResponse.app_matches profile) as [[| m ms] |]; try done.
  destruct (List.find _ (m :: ms)) as [appMatch |].
  - assert (Hdata :
      fetchTrackerData gunzipSync JSON_parse_TrackerData w1 (AppMatch.uuid appMatch)
      = fetchTrackerData gunzipSync JSON_parse_TrackerData w2 (AppMatch.uuid appMatch)).
    { unfold fetchTrackerData.
      specialize (Hfetch (METATFT_S3 +:+ "/" +:+ AppMatch.uuid appMatch +:+ ".json")).
      unfold same_response, envelope_text in Hfetch.
      destruct (World.fetch w1 _) as [e1 | r1], (World.fetch w2 _) as [e2 | r2];
        try done; cbn [bind ret].
      - by rewrite Hfetch.
      - destruct Hfetch as (Hok & Hstatus & Htext). rewrite <- Hok, <- Hstatus.
        destruct (negb (Response.ok r1)); [done |]. by rewrite Htext. }
    rewrite <- Hdata.
    destruct (fetchTrackerData gunzipSync JSON_parse_TrackerData w1 (AppMatch.uuid appMatch))
      as [[msg] | trackerData]; cbn [bind ret]; [done |].
    unfold pipeline.
    destruct (as_array _) as [[msg] | stages]; cbn [bind ret]; [done |].
    unfold assemble. by rewrite Hname, Hchampions, Hitems.
  - erewrite map_ext; [reflexivity |]. intros a. cbn beta. by rewrite Hlocale.
Qed.

End ProfileLookup.

(** *** Summaries and snapshots *)

Ltac exists_2 s := eexists; exists s.

(** X23: the compact summary and the snapshot of a stage agree: the same
    number, label and type, the same health, gold and level of the player,
    the same income; the board size of the summary is the length of the
    snapshot's board, and a reroll count in the summary is the one of the
    snapshot. *)
Theorem summaries_agree_with_snapshots (championsCache itemsCache : gmap string string)
    (gameName : string) (stages : list TrackerStage.t) (i : nat) (stage : TrackerStage.t) :
  stages !! i = Some stage →
  ∃ f s,
    formatStageData championsCache itemsCache stages (Z.of_nat i) = Some f ∧
    formatAllStages gameName stages !! i = Some s ∧
    RoundSummary.round s = Formatted.stageNumber f ∧
    RoundSummary.stage s = Formatted.stage f ∧
    RoundSummary.type s = Formatted.roundType f ∧
    RoundSummary.hp s = Player.health <$> Formatted.player f ∧
    RoundSummary.gold s = Player.gold <$> Formatted.player f ∧
    RoundSummary.level s = Player.level <$> Formatted.player f ∧
    RoundSummary.income s = Formatted.goldEarned f ∧
    (∀ n, RoundSummary.boardSize s = Some n →
          Z.of_nat (length (default [] (Formatted.board f))) = n) ∧
    (RoundSummary.boardSize s = None → Formatted.board f = None) ∧
    (∀ r, RoundSummary.rerolls s = Some r → Formatted.rerolls f = Some r).
Proof.
  intros Hi. unfold formatStageData. rewrite index_of_nat, Hi.
  exists_2 (round_summary gameName i stage). split; [reflexivity |].
  rewrite formatAllStages_lookup, Hi. split; [reflexivity |].
  cbn [round_summary RoundSummary.round RoundSummary.stage RoundSummary.type RoundSummary.hp
       RoundSummary.gold RoundSummary.level RoundSummary.income RoundSummary.boardSize
       RoundSummary.rerolls Formatted.stageNumber Formatted.stage Formatted.roundType
       Formatted.player Formatted.goldEarned Formatted.board Formatted.rerolls].
  do 7 (split; [reflexivity |]).
  destruct (TrackerStage.board_pieces stage) as [o |]; cbn [fmap option_fmap option_map
    mbind option_bind]; (split; [| split]); try done.
  - intros n [= <-]. rewrite default_when_nonempty. unfold Object_keys, Object_values.
    by rewrite !length_map.
  - intros r. destruct (TrackerStage.rerolls stage) as [r' |]; [| done].
    by destruct (0 <? r'); [intros [= <-] |].
  - intros r. destruct (TrackerStage.rerolls stage) as [r' |]; [| done].
    by destruct (0 <? r'); [intros [= <-] |].
Qed.

(** ** Further sample runs *)

Lemma sample_decoded :
  decoded sample_gunzip (λ _, ret (sample_envelope (SDArray sample_stages)))
    sample_parse_stages (sample_world 0) "EUW1_1" (AppMatch.mk "uuid-1" "1" 0)
    (sample_envelope (SDArray sample_stages)) sample_stages.
Proof. exists "{}". split; [apply sample_delivered | split; reflexivity]. Defined.

Lemma complete_mode_lists_every_stage_witness :
  ∃ r,
    sample_handler (SDArray sample_stages) 0 (Some "complete")
      = text_reply (Assembled r) false ∧
    Result.roundProgression r = None ∧
    length (Result.stageProgression r) = length sample_stages.
Proof.
  destruct (complete_mode_lists_every_stage _ _ _ _ _ _ _ _ sample_decoded)
    as (r & Hr & _ & Hrounds & _ & Hlength & _).
  exists r. split; [exact Hr |]. split; [exact Hrounds | exact Hlength].
Defined.

Lemma summary_mode_lists_key_stages_witness :
  ∃ r snapshots,
    sample_handler (SDArray sample_stages) 0 None = text_reply (Assembled r) false ∧
    Result.stageProgression r = map Some snapshots ∧
    (1 ≤ length snapshots ≤ 6)%nat.
Proof.
  destruct (summary_mode_lists_key_stages _ _ _ _ _ None _ _ _ sample_decoded)
    as (r & snapshots & Hr & Hstages & Hlength & _); [discriminate | discriminate |].
  exists r, snapshots. split; [exact Hr |]. split; [exact Hstages | exact Hlength].
Defined.

Lemma summary_totals_witness :
  ∃ r,
    sample_handler (SDArray sample_stages) 0 None = text_reply (Assembled r) false ∧
    MatchSummary.totalRerolls (Result.summary r)
      = sum_Z (map (λ stage, default 0 (TrackerStage.rerolls stage)) sample_stages) ∧
    MatchSummary.totalIncome (Result.summary r)
      = sum_Z (map (λ stage, default 0 (TrackerStage.gold_earned stage)) sample_stages).
Proof.
  destruct (summary_totals _ _ _ _ _ None _ _ _ sample_decoded)
    as (r & Hr & Hrerolls & Hincome & _).
  exists r. split; [exact Hr |]. split; [exact Hrerolls | exact Hincome].
Defined.

Lemma topCarries_lead_the_ranking_witness :
  ∃ r rest,
    sample_handler (SDArray sample_stages) 0 None = text_reply (Assembled r) false ∧
    calculateCarryStats ∅ sample_stages = Result.topCarries r ++ rest ∧
    NoDup (map Carry.champion (Result.topCarries r)).
Proof.
  destruct (topCarries_lead_the_ranking _ _ _ _ _ None _ _ _ sample_decoded)
    as (r & rest & Hr & Hsplit & _ & _ & _ & Hnodup & _).
  exists r, rest. split; [exact Hr |]. split; [exact Hsplit | exact Hnodup].
Defined.

Lemma finalBoard_is_last_snapshot_witness :
  ∃ r f,
    sample_handler (SDArray sample_stages) 0 None = text_reply (Assembled r) false ∧
    last (Result.stageProgression r) = Some (Some f) ∧
    Result.finalBoard r = default [] (Formatted.board f).
Proof.
  destruct (finalBoard_is_last_snapshot _ _ _ _ _ None _ _ _ sample_decoded)
    as (r & f & Hr & Hlast & _ & Hboard); [discriminate |].
  exists r, f. split; [exact Hr |]. split; [exact Hlast | exact Hboard].
Defined.

Lemma unlisted_match_reply_witness :
  ∃ reason listing,
    handleTftMatchTracker sample_gunzip (λ _, ret (sample_envelope SDUndefined))
      sample_parse_stages (sample_world 0) (Params.mk "EUW1_2" None)
    = text_reply (NoTrackerForMatch "No tracker data for match EUW1_2" reason listing) true ∧
    listing = map (available (sample_world 0)) (take 10 [AppMatch.mk "uuid-1" "1" 0]).
Proof.
  destruct (unlisted_match_reply sample_gunzip (λ _, ret (sample_envelope SDUndefined))
              sample_parse_stages (sample_world 0) "EUW1_2" None
              (ProfileResponse.mk (Some [AppMatch.mk "uuid-1" "1" 0])) eq_refl)
    as [_ Hunlisted].
  destruct (Hunlisted [AppMatch.mk "uuid-1" "1" 0] eq_refl)
    as (reason & listing & Hreply & Hlisting & _).
  - discriminate.
  - constructor; [vm_compute; discriminate | constructor].
  - exists reason, listing. split; [exact Hreply | exact Hlisting].
Defined.

Lemma unitDamage_ranks_positive_records_witness :
  ∃ f,
    formatStageData ∅ ∅ sample_stages 1 = Some f ∧
    ∀ l, Formatted.unitDamage f = Some l → Forall positive_entry l.
Proof.
  destruct (unitDamage_ranks_positive_records ∅ ∅ sample_stages 1 busy_stage eq_refl)
    as (f & Hf & _ & Hl).
  exists f. split; [exact Hf |]. intros l Hsome. exact (proj1 (proj2 (Hl l Hsome))).
Defined.

Lemma allPlayers_ranks_the_roster_witness :
  ∃ f players,
    formatStageData ∅ ∅ sample_stages 1 = Some f ∧
    Formatted.allPlayers f = Some players ∧
    StronglySorted (λ a b, PlayerInfo.health b ≤ PlayerInfo.health a) players.
Proof.
  destruct (allPlayers_ranks_the_roster ∅ ∅ sample_stages 1 busy_stage
              [("Player", PlayerStatus.mk 64 6 (Some "EUW"));
               ("Rival", PlayerStatus.mk 80 7 None)] eq_refl eq_refl)
    as (f & players & Hf & Hplayers & _ & _ & Hsorted & _).
  exists f, players. split; [exact Hf |]. split; [exact Hplayers | exact Hsorted].
Defined.

Lemma region_prefix_is_optional_witness :
  handleTftMatchTracker sample_gunzip (λ _, ret (sample_envelope (SDArray sample_stages)))
    sample_parse_stages (sample_world 0) (Params.mk "1" None)
  = readdress "1" (sample_handler (SDArray sample_stages) 0 None).
Proof.
  apply (region_prefix_is_optional sample_gunzip
           (λ _, ret (sample_envelope (SDArray sample_stages))) sample_parse_stages
           (sample_world 0) "EUW1_1" "1" None).
  reflexivity.
Defined.

Lemma getChampionName_fallback_witness :
  DataDragon.getChampionName ∅ "TFT16_Ahri" = "Ahri" ∧
  substring_of (DataDragon.getChampionName ∅ "TFT16_Ahri") "TFT16_Ahri".
Proof.
  destruct (getChampionName_fallback ∅ "TFT16_Ahri" (lookup_empty _))
    as (Hname & Hsub & _).
  split; [| exact Hsub].
  apply (Hname "16" "Ahri"); [discriminate | reflexivity | discriminate | reflexivity | reflexivity].
Defined.

Lemma getItemName_fallback_witness :
  DataDragon.getItemName ∅ "TFT_Item_GuinsoosRageblade"
    = JS.trim (DataDragon.space_capitals "GuinsoosRageblade") ∧
  trimmed (DataDragon.getItemName ∅ "TFT_Item_GuinsoosRageblade").
Proof.
  destruct (getItemName_fallback ∅ "TFT_Item_GuinsoosRageblade" "GuinsoosRageblade"
              (lookup_empty _) eq_refl)
    as (Hname & Htrimmed & _); [discriminate | reflexivity |].
  split; [exact Hname | exact Htrimmed].
Defined.

Lemma load_fills_from_greatest_set_witness :
  "9" ∈ Object_keys (CDragonData.sets sample_cdragon) ∧
  ∀ k', k' ∈ Object_keys (CDragonData.sets sample_cdragon) → String.leb k' "9" = true.
Proof.
  destruct (load_fills_from_greatest_set (λ _, ret sample_cdragon) sample_cdragon fresh
              eq_refl eq_refl)
    as (_ & Hgreatest & _).
  apply (Hgreatest "9"). reflexivity.
Defined.

Lemma profile_failure_reported_witness :
  handleTftMatchTracker sample_gunzip (λ _, ret (sample_envelope SDUndefined))
    sample_parse_stages refused_world (Params.mk "EUW1_1" None)
  = text_reply (Failure "MetaTFT API error: 503") true.
Proof.
  destruct (profile_failure_reported sample_gunzip (λ _, ret (sample_envelope SDUndefined))
              sample_parse_stages refused_world "EUW1_1" None
              (λ _, ret (Response.mk false 503 "")) (λ _, ret (ProfileResponse.mk None))
              eq_refl) as [Hstatus _].
  apply (Hstatus (Response.mk false 503 "")); reflexivity.
Defined.

Lemma summaries_agree_with_snapshots_witness :
  ∃ f s,
    formatStageData ∅ ∅ sample_stages 1 = Some f ∧
    formatAllStages "Player" sample_stages !! 1%nat = Some s ∧
    RoundSummary.hp s = Player.health <$> Formatted.player f ∧
    RoundSummary.income s = Formatted.goldEarned f.
Proof.
  destruct (summaries_agree_with_snapshots ∅ ∅ "Player" sample_stages 1 busy_stage eq_refl)
    as (f & s & Hf & Hs & _ & _ & _ & Hhp & _ & _ & Hincome & _).
  exists f, s. split; [exact Hf |]. split; [exact Hs |]. split; [exact Hhp | exact Hincome].
Defined.

Lemma compression_is_transparent_witness :
  handleTftMatchTracker sample_gunzip_packed
    (λ _, ret (sample_envelope (SDArray sample_stages))) sample_parse_stages
    packed_world (Params.mk "EUW1_1" None)
  = handleTftMatchTracker sample_gunzip_packed
      (λ _, ret (sample_envelope (SDArray sample_stages))) sample_parse_stages
      (sample_world 0) (Params.mk "EUW1_1" None).
Proof.
  apply (compression_is_transparent sample_gunzip_packed
           (λ _, ret (sample_envelope (SDArray sample_stages))) sample_parse_stages
           packed_world (sample_world 0) (Params.mk "EUW1_1" None)).
  repeat split.
Defined.

(** ** The tracker on payloads with gaps agrees with the tracker on the
    interfaces *)


Lemma fails_bind_ret {A B : Type} (m : M A) (k : A → M B) (a : A) :
  m = ret a → fails (k a) → fails (bind m k).
Proof. by intros ->. Qed.

Lemma not_fails_ret {A : Type} (a : A) : ¬ fails (ret a).
Proof. by intros [e ?]. Qed.

Lemma mapM_readable {A B C : Type} (f : A → M C) (ok : A → bool) (g : B → C) (e : A → B)
    (l : list A) :
  (∀ x, ok x = true → f x = ret (g (e x))) →
  forallb ok l = true → mapM f l = ret (map g (map e l)).
Proof.
  intros Hf. induction l as [| x l IH]; [done |]. cbn [forallb mapM map].
  intros [Hx Hl]%andb_true_iff. by rewrite (Hf x Hx), (IH Hl).
Qed.


Lemma mapM_map {A B C : Type} (f : B → M C) (g : A → B) (l : list A) :
  mapM f (map g l) = mapM (λ x, f (g x)) l.
Proof. induction l as [| x l IH]; [done |]. cbn [map mapM]. by rewrite IH. Qed.

Lemma imapM_ext {A C : Type} (f g : nat → A → M C) (l : list A) :
  (∀ i x, f i x = g i x) → Raw.imapM f l = Raw.imapM g l.
Proof.
  revert f g. induction l as [| x l IH]; intros f g Hfg; [done |].
  cbn [Raw.imapM]. rewrite Hfg.
  by rewrite (IH (λ i, f (S i)) (λ i, g (S i)) (λ i, Hfg (S i))).
Qed.

Lemma imapM_seq {A C : Type} (h : nat → M C) (l : list A) (n : nat) :
  Raw.imapM (λ i _, h (n + i)%nat) l = mapM h (seq n (length l)).
Proof.
  revert n. induction l as [| x l IH]; intros n; [done |].
  cbn [Raw.imapM length seq mapM]. rewrite Nat.add_0_r.
  rewrite (imapM_ext (λ i _, h (n + S i)%nat) (λ i _, h (S n + i)%nat)), IH; [done |].
  intros i _. f_equal. lia.
Qed.

Lemma imap_seq_index {A C : Type} (h : nat → C) (l : list A) (n : nat) :
  imap (λ i _, h (n + i)%nat) l = map h (seq n (length l)).
Proof.
  revert n. induction l as [| x l IH]; intros n; [done |].
  cbn [imap length seq map]. rewrite Nat.add_0_r. f_equal.
  rewrite <- IH. apply imap_ext. intros i y _. cbn. f_equal. lia.
Qed.

Lemma imapM_indices {A C : Type} (h : nat → M C) (l : list A) :
  Raw.imapM (λ i _, h i) l = mapM h (seq 0 (length l)).
Proof. exact (imapM_seq h l 0). Qed.

Lemma imap_indices {A C : Type} (h : nat → C) (l : list A) :
  imap (λ i _, h i) l = map h (seq 0 (length l)).
Proof. exact (imap_seq_index h l 0). Qed.

Lemma imapM_returns {A C : Type} (f : nat → A → M C) (ok : A → bool) (l : list A) :
  (∀ i x, ok x = true → ∃ y, f i x = ret y) →
  forallb ok l = true → ∃ ys, Raw.imapM f l = ret ys.
Proof.
  revert f. induction l as [| x l IH]; intros f Hf; [by eexists |].
  cbn [forallb Raw.imapM]. intros [Hx Hl]%andb_true_iff.
  destruct (Hf 0%nat x Hx) as [y ->].
  destruct (IH (λ i, f (S i)) (λ i, Hf (S i)) Hl) as [ys ->]. by eexists.
Qed.


Lemma imapM_lookup {A C : Type} (f : nat → A → M C) (l : list A) (ys : list C)
    (i : nat) (x : A) :
  Raw.imapM f l = ret ys → l !! i = Some x → ∃ y, ys !! i = Some y ∧ f i x = ret y.
Proof.
  revert f ys i. induction l as [| x0 l IH]; intros f ys i; [done |].
  cbn [Raw.imapM]. destruct (f 0%nat x0) as [e | y0] eqn:Hy0; [done |]. cbn [bind].
  destruct (Raw.imapM (λ i, f (S i)) l) as [e | ys'] eqn:Hys; [done |]. cbn [bind].
  intros [= <-]. destruct i as [| i]; cbn.
  - intros [= <-]. by exists y0.
  - intros Hi. apply (IH (λ i, f (S i)) ys' i Hys Hi).
Qed.



Lemma foldM_readable {A B S : Type} (f : S → A → M S) (ok : A → bool) (g : S → B → S)
    (e : A → B) (l : list A) (s : S) :
  (∀ s x, ok x = true → f s x = ret (g s (e x))) →
  forallb ok l = true → Raw.foldM f l s = ret (fold_left g (map e l) s).
Proof.
  intros Hf. revert s. induction l as [| x l IH]; intros s; [done |].
  cbn [forallb Raw.foldM map fold_left]. intros [Hx Hl]%andb_true_iff.
  rewrite (Hf s x Hx). cbn [bind ret]. by apply IH.
Qed.


Lemma sort_insert_map {A B : Type} (cmpA : A → A → Z) (cmpB : B → B → Z) (f : A → B)
    (x : A) (l : list A) :
  (∀ a b, cmpB (f a) (f b) = cmpA a b) →
  JS.sort_insert cmpB (f x) (map f l) = map f (JS.sort_insert cmpA x l).
Proof.
  intros Hcmp. induction l as [| y l IH]; [done |]. cbn [map JS.sort_insert].
  rewrite Hcmp. destruct (0 <? cmpA x y); [| done]. cbn [map]. by rewrite IH.
Qed.

Lemma sort_map {A B : Type} (cmpA : A → A → Z) (cmpB : B → B → Z) (f : A → B) (l : list A) :
  (∀ a b, cmpB (f a) (f b) = cmpA a b) →
  JS.sort cmpB (map f l) = map f (JS.sort cmpA l).
Proof.
  intros Hcmp. induction l as [| x l IH]; [done |]. cbn [map JS.sort].
  by rewrite IH, (sort_insert_map cmpA cmpB).
Qed.

Lemma forallb_sort_insert {A : Type} (p : A → bool) (cmp : A → A → Z) (x : A) (l : list A) :
  forallb p (JS.sort_insert cmp x l) = p x && forallb p l.
Proof.
  induction l as [| y l IH]; [done |]. cbn [JS.sort_insert].
  destruct (0 <? cmp x y); [| done]. cbn [forallb]. rewrite IH.
  by destruct (p x), (p y).
Qed.

Lemma forallb_sort {A : Type} (p : A → bool) (cmp : A → A → Z) (l : list A) :
  forallb p (JS.sort cmp l) = forallb p l.
Proof.
  induction l as [| x l IH]; [done |]. cbn [JS.sort forallb].
  by rewrite forallb_sort_insert, IH.
Qed.

Lemma forallb_values {A B : Type} (p : B → bool) (f : A → B) (l : list A) :
  forallb p (map f l) = forallb (λ x, p (f x)) l.
Proof. induction l as [| x l IH]; [done |]. cbn [map forallb]. by rewrite IH. Qed.

(** *** Erasure and the accessors *)

Lemma Object_values_erase {A B : Type} (f : A → B) (o : JS.object A) :
  Object_values (map_values f o) = map f (Object_values o).
Proof. unfold Object_values, map_values. rewrite !map_map. done. Qed.

Lemma Object_keys_erase {A B : Type} (f : A → B) (o : JS.object A) :
  Object_keys (map_values f o) = Object_keys o.
Proof. unfold Object_keys, map_values. rewrite !map_map. done. Qed.

Lemma board_pieces_erase (s : Raw.TrackerStage.t) :
  TrackerStage.board_pieces (erase_stage (Some s))
  = map_values erase_piece <$> Raw.TrackerStage.board_pieces s.
Proof. destruct s as [[[o |] |] ? ? ? ? ? ? ? ? ?]; reflexivity. Qed.

Lemma bench_pieces_erase (s : Raw.TrackerStage.t) :
  TrackerStage.bench_pieces (erase_stage (Some s))
  = map_values erase_piece <$> Raw.TrackerStage.bench_pieces s.
Proof. destruct s as [? [[o |] |] ? ? ? ? ? ? ? ?]; reflexivity. Qed.

Lemma player_status_erase (s : Raw.TrackerStage.t) :
  TrackerStage.player_status (erase_stage (Some s))
  = map_values erase_status <$> Raw.TrackerStage.player_status s.
Proof. destruct s as [? ? ? [[o |] |] ? ? ? ? ? ?]; reflexivity. Qed.

Lemma units_erase (s : Raw.TrackerStage.t) :
  TrackerStage.units (erase_stage (Some s))
  = map_values erase_unit <$> Raw.TrackerStage.units s.
Proof. destruct s as [? ? ? ? ? [[o |] |] ? ? ? ?]; reflexivity. Qed.

Lemma round_type_erase (s : Raw.TrackerStage.t) :
  TrackerStage.round_type (erase_stage (Some s)) = Raw.TrackerStage.round_type s.
Proof. destruct s as [? ? ? ? [mi |] ? ? ? ? ?]; reflexivity. Qed.

Lemma opponent_erase (s : Raw.TrackerStage.t) :
  TrackerStage.match_info (erase_stage (Some s)) ≫= MatchInfo.opponent
  = Raw.TrackerStage.opponent s.
Proof. destruct s as [? ? ? ? [mi |] ? ? ? ? ?]; reflexivity. Qed.

Lemma round_outcome_erase (s : Raw.TrackerStage.t) :
  TrackerStage.match_info (erase_stage (Some s)) ≫= MatchInfo.round_outcome
  = map_values erase_outcome <$> Raw.TrackerStage.round_outcome s.
Proof. destruct s as [? ? ? ? [mi |] ? ? ? ? ?]; reflexivity. Qed.

Lemma index_map {A B : Type} (f : A → B) (l : list A) (i : Z) :
  index (map f l) i = f <$> index l i.
Proof. unfold index. destruct (i <? 0); [done |]. apply list_lookup_fmap. Qed.

Lemma not_null_index {A : Type} (l : list (option A)) (i : Z) :
  forallb not_null l = true → index l i ≠ Some None.
Proof.
  intros Hl Hi. unfold index in Hi. destruct (i <? 0); [done |].
  revert Hl Hi. generalize (Z.to_nat i). induction l as [| x l IH]; intros n; [done |].
  cbn [forallb]. intros [Hx Hl]%andb_true_iff. destruct n as [| n]; cbn.
  - intros [= ->]. done.
  - by apply IH.
Qed.

(** *** The snapshot of a stage *)

Section RawSnapshot.
Context (championsCache itemsCache : gmap string string).

Lemma getChampionName_named (n : Raw.Name.t) :
  named n = true →
  Raw.getChampionName championsCache n
  = ret (DataDragon.getChampionName championsCache (erase_name n)).
Proof. by destruct n. Qed.


Lemma extractItems_erase (u : Raw.BoardPiece.t) :
  extractItems (erase_piece (Some u)) = Raw.extractItems u.
Proof. done. Qed.

Lemma board_unit_readable (u : option Raw.BoardPiece.t) :
  readable_piece u = true →
  Raw.board_unit championsCache itemsCache u
  = ret (board_unit championsCache itemsCache (erase_piece u)).
Proof.
  destruct u as [u |]; [| done]. cbn [readable_piece Raw.board_unit]. intros Hu.
  by rewrite (getChampionName_named _ Hu).
Qed.


Lemma bench_unit_readable (u : option Raw.BoardPiece.t) :
  readable_piece u = true →
  Raw.bench_unit championsCache u = ret (bench_unit championsCache (erase_piece u)).
Proof.
  destruct u as [u |]; [| done]. cbn [readable_piece Raw.bench_unit]. intros Hu.
  by rewrite (getChampionName_named _ Hu).
Qed.


Lemma shop_name_readable (s : option Raw.ShopPiece.t) :
  readable_shop_piece s = true →
  Raw.shop_name championsCache s
  = ret (DataDragon.getChampionName championsCache (ShopPiece.name (erase_shop_piece s))).
Proof.
  destruct s as [s |]; [| done]. cbn [readable_shop_piece Raw.shop_name]. intros Hs.
  by rewrite (getChampionName_named _ Hs).
Qed.


Lemma player_info_readable (e : string * option PlayerStatus.t) :
  not_null e.2 = true → Raw.player_info e = ret (player_info (e.1, erase_status e.2)).
Proof. by destruct e as [name [data |]]. Qed.


Lemma board_field_readable (stage : Raw.TrackerStage.t) :
  all_values readable_piece (Raw.TrackerStage.board_pieces stage) = true →
  Raw.board_field championsCache itemsCache stage
  = ret (TrackerStage.board_pieces (erase_stage (Some stage)) ≫= λ o,
           when_nonempty (map (board_unit championsCache itemsCache) (Object_values o))).
Proof.
  unfold Raw.board_field. rewrite board_pieces_erase.
  destruct (Raw.TrackerStage.board_pieces stage) as [o |]; [| done]. cbn. intros Ho.
  rewrite (mapM_readable _ readable_piece (board_unit championsCache itemsCache) erase_piece _
             board_unit_readable Ho).
  by rewrite Object_values_erase.
Qed.


Lemma bench_field_readable (stage : Raw.TrackerStage.t) :
  all_values readable_piece (Raw.TrackerStage.bench_pieces stage) = true →
  Raw.bench_field championsCache stage
  = ret (TrackerStage.bench_pieces (erase_stage (Some stage)) ≫= λ o,
           when_nonempty (map (bench_unit championsCache) (Object_values o))).
Proof.
  unfold Raw.bench_field. rewrite bench_pieces_erase.
  destruct (Raw.TrackerStage.bench_pieces stage) as [o |]; [| done]. cbn. intros Ho.
  rewrite (mapM_readable _ readable_piece (bench_unit championsCache) erase_piece _
             bench_unit_readable Ho).
  by rewrite Object_values_erase.
Qed.


(** The filter keeps the records of positive damage when no entry is
    null, and throws otherwise. *)
Lemma filter_positive_not_null (units : list (option Raw.UnitDamage.t)) :
  forallb not_null units = true →
  ∃ positive,
    Raw.filter_positive units = ret positive ∧
    map (λ u, erase_unit (Some u)) positive = List.filter positive_damage (map erase_unit units) ∧
    forallb (λ u, named (Raw.UnitDamage.name u)) positive = forallb readable_unit units.
Proof.
  induction units as [| [u |] units IH]; [by exists [] | | done].
  cbn [forallb not_null andb]. intros Hunits.
  destruct (IH Hunits) as (positive & Hfilter & Herase & Hnamed).
  cbn [Raw.filter_positive map List.filter forallb readable_unit]. rewrite Hfilter. cbn [bind ret].
  change (positive_damage (erase_unit (Some u))) with (Raw.positive_damage u).
  destruct (Raw.positive_damage u); eexists; (split; [reflexivity |]);
    cbn [map forallb negb orb]; by rewrite Herase, Hnamed.
Qed.


Lemma readable_units_not_null (units : list (option Raw.UnitDamage.t)) :
  forallb readable_unit units = true → forallb not_null units = true.
Proof.
  induction units as [| [u |] units IH]; [done | | done].
  cbn [forallb not_null andb]. intros [_ H]%andb_true_iff. by apply IH.
Qed.

Lemma damage_unit_named (u : Raw.UnitDamage.t) :
  named (Raw.UnitDamage.name u) = true →
  Raw.damage_unit championsCache u = ret (damage_unit championsCache (erase_unit (Some u))).
Proof. intros Hu. unfold Raw.damage_unit. by rewrite (getChampionName_named _ Hu). Qed.


Lemma unitDamage_field_readable (stage : Raw.TrackerStage.t) :
  all_values readable_unit (Raw.TrackerStage.units stage) = true →
  Raw.unitDamage_field championsCache stage
  = ret (TrackerStage.units (erase_stage (Some stage)) ≫= λ o,
           let units :=
             JS.sort (λ a b, damage_or_0 b - damage_or_0 a)
               (List.filter positive_damage (Object_values o)) in
           when_nonempty (map (damage_unit championsCache) units)).
Proof.
  unfold Raw.unitDamage_field. rewrite units_erase.
  destruct (Raw.TrackerStage.units stage) as [o |]; [| done]. cbn [all_values]. intros Ho.
  destruct (filter_positive_not_null _ (readable_units_not_null _ Ho))
    as (positive & -> & Herase & Hnamed).
  cbn [bind ret fmap option_fmap option_map mbind option_bind].
  rewrite Object_values_erase, <- Herase.
  rewrite (sort_map (λ a b, Raw.damage_or_0 b - Raw.damage_or_0 a)
             (λ a b, damage_or_0 b - damage_or_0 a) (λ u, erase_unit (Some u)) positive)
    by done.
  rewrite (mapM_readable _ (λ u, named (Raw.UnitDamage.name u)) (damage_unit championsCache)
             (λ u, erase_unit (Some u)) _ damage_unit_named); [done |].
  by rewrite forallb_sort, Hnamed.
Qed.


Lemma allPlayers_field_readable (stage : Raw.TrackerStage.t) :
  all_values not_null (Raw.TrackerStage.player_status stage) = true →
  Raw.allPlayers_field stage
  = ret ((λ o, JS.sort (λ a b, PlayerInfo.health b - PlayerInfo.health a) (map player_info o))
           <$> TrackerStage.player_status (erase_stage (Some stage))).
Proof.
  unfold Raw.allPlayers_field. rewrite player_status_erase.
  destruct (Raw.TrackerStage.player_status stage) as [o |]; [| done].
  cbn [all_values]. intros Ho.
  rewrite (mapM_readable _ (λ e, not_null e.2) player_info
             (λ e : string * option PlayerStatus.t, (e.1, erase_status e.2)) o
             player_info_readable); [done |].
  unfold Object_values in Ho. by rewrite forallb_values in Ho.
Qed.


Lemma shop_field_readable (stage : Raw.TrackerStage.t) :
  all_values readable_shop_piece (Raw.TrackerStage.last_shop_pieces stage) = true →
  Raw.shop_field championsCache stage
  = ret (TrackerStage.shops (erase_stage (Some stage)) ≫= λ shops,
           last shops ≫= λ lastShop,
             (λ o, map (λ s, DataDragon.getChampionName championsCache (ShopPiece.name s))
                     (Object_values o))
               <$> Shop.shop_pieces lastShop).
Proof.
  unfold Raw.shop_field, Raw.TrackerStage.last_shop_pieces.
  destruct stage as [? ? ? ? ? ? ? ? ? [l |]]; [| done].
  cbn [Raw.TrackerStage.shops erase_stage TrackerStage.shops fmap option_fmap option_map
       mbind option_bind].
  rewrite last_map. destruct (last l) as [[[[o |]] |] |]; try done.
  cbn [all_values Raw.Shop.shop_pieces]. intros Ho.
  rewrite (mapM_readable _ readable_shop_piece
             (λ s, DataDragon.getChampionName championsCache (ShopPiece.name s))
             erase_shop_piece _ shop_name_readable Ho).
  cbn. by rewrite Object_values_erase.
Qed.


Lemma formatStageData_readable (stages : list (option Raw.TrackerStage.t)) (i : Z)
    (stage : Raw.TrackerStage.t) :
  index stages i = Some (Some stage) →
  snapshot_readable stage = true →
  Raw.formatStageData championsCache itemsCache stages i
  = ret (formatStageData championsCache itemsCache (map erase_stage stages) i).
Proof.
  intros Hi. unfold snapshot_readable. rewrite !andb_true_iff.
  intros [[[[Hboard Hbench] Hunits] Hplayers] Hshop].
  unfold Raw.formatStageData, formatStageData. rewrite index_map, Hi.
  rewrite (board_field_readable _ Hboard), (bench_field_readable _ Hbench),
    (unitDamage_field_readable _ Hunits), (allPlayers_field_readable _ Hplayers),
    (shop_field_readable _ Hshop).
  cbn [bind ret fmap option_fmap option_map].
  rewrite round_type_erase, opponent_erase. done.
Qed.


(** A stage that is missing or null gives no snapshot. *)
Lemma formatStageData_no_stage (stages : list (option Raw.TrackerStage.t)) (i : Z) :
  mjoin (index stages i) = None →
  Raw.formatStageData championsCache itemsCache stages i = ret None.
Proof. unfold Raw.formatStageData. by destruct (index stages i) as [[stage |] |]. Qed.

(** On an array without null entries, [formatStageData] at a readable index
    is the snapshot of the stages read at the interfaces. *)
Lemma formatStageData_readable_at (stages : list (option Raw.TrackerStage.t)) (i : Z) :
  forallb not_null stages = true →
  snapshot_readable_at stages i = true →
  Raw.formatStageData championsCache itemsCache stages i
  = ret (formatStageData championsCache itemsCache (map erase_stage stages) i).
Proof.
  intros Hnull. unfold snapshot_readable_at.
  destruct (index stages i) as [[stage |] |] eqn:Hi.
  - by apply formatStageData_readable.
  - by destruct (not_null_index stages i Hnull).
  - intros _. unfold Raw.formatStageData, formatStageData. by rewrite index_map, Hi.
Qed.


End RawSnapshot.

(** *** The round summaries *)

Section RawSummary.
Context (toLowerCase : string → string) (gameName : string).

Lemma round_summary_readable (i : nat) (stage : option Raw.TrackerStage.t) :
  summary_readable toLowerCase gameName stage = true →
  ∃ s, Raw.round_summary toLowerCase gameName i stage = ret s.
Proof.
  destruct stage as [stage |]; [| done].
  unfold summary_readable, Raw.round_summary, Raw.outcome_field.
  destruct (Raw.TrackerStage.round_outcome stage) as [o |]; [| by eexists].
  destruct (Raw.my_outcome toLowerCase gameName o) as [[k [entry |]] |]; [| done |];
    by eexists.
Qed.



Lemma formatAllStages_readable (stages : list (option Raw.TrackerStage.t)) :
  forallb (summary_readable toLowerCase gameName) stages = true →
  ∃ rounds, Raw.formatAllStages toLowerCase gameName stages = ret rounds.
Proof.
  apply (imapM_returns _ (summary_readable toLowerCase gameName)).
  intros i x. apply round_summary_readable.
Qed.



Lemma summary_readable_not_null (stages : list (option Raw.TrackerStage.t)) :
  forallb (summary_readable toLowerCase gameName) stages = true →
  forallb not_null stages = true.
Proof.
  induction stages as [| [stage |] stages IH]; [done | | done].
  cbn [forallb not_null andb]. intros [_ H]%andb_true_iff. by apply IH.
Qed.

End RawSummary.

(** *** The key stages, the totals and the carries *)

Lemma key_step_not_null (i : Z) (stage : Raw.TrackerStage.t) (st : list Z * list string) :
  Raw.key_step i (Some stage) st = ret (key_step i (erase_stage (Some stage)) st).
Proof.
  destruct st as [keyIndices found]. unfold Raw.key_step, key_step, Raw.stageInfo, stageInfo.
  cbn [bind ret]. rewrite round_type_erase.
  destruct (RoundType.stage <$> Raw.TrackerStage.round_type stage) as [s |]; [| done].
  by destruct (JS.truthy_string (Some s) && existsb (String.eqb s) keyRounds
               && negb (existsb (String.eqb s) found)).
Qed.

Lemma key_loop_not_null (i : Z) (stages : list (option Raw.TrackerStage.t))
    (st : list Z * list string) :
  forallb not_null stages = true →
  Raw.key_loop i stages st = ret (key_loop i (map erase_stage stages) st).
Proof.
  revert i st. induction stages as [| [stage |] stages IH]; intros i st; [done | | done].
  cbn [forallb not_null andb Raw.key_loop map key_loop]. intros Hstages.
  rewrite key_step_not_null. cbn [bind ret]. by apply IH.
Qed.

Lemma findKeyProgressionStages_not_null (stages : list (option Raw.TrackerStage.t)) :
  forallb not_null stages = true →
  Raw.findKeyProgressionStages stages
  = ret (findKeyProgressionStages (map erase_stage stages)).
Proof.
  intros Hstages. unfold Raw.findKeyProgressionStages, findKeyProgressionStages.
  rewrite (key_loop_not_null _ _ _ Hstages). cbn [bind ret].
  destruct (key_loop 0 (map erase_stage stages) ([], [])) as [keyIndices found].
  by rewrite length_map.
Qed.

Lemma totals_not_null (stages : list (option Raw.TrackerStage.t)) (a b : Z) :
  forallb not_null stages = true →
  Raw.foldM Raw.totals_step stages (a, b)
  = ret (fold_left (λ acc stage, add_if_truthy acc (TrackerStage.rerolls stage))
           (map erase_stage stages) a,
         fold_left (λ acc stage, add_if_truthy acc (TrackerStage.gold_earned stage))
           (map erase_stage stages) b).
Proof.
  revert a b. induction stages as [| [stage |] stages IH]; intros a b; [done | | done].
  cbn [forallb not_null andb Raw.foldM Raw.totals_step map fold_left bind ret].
  intros Hstages. by rewrite (IH _ _ Hstages).
Qed.

Section RawCarries.
Context (championsCache itemsCache : gmap string string).

Lemma carry_step_readable (damageByUnit : JS.object Stats.t) (u : option Raw.UnitDamage.t) :
  readable_unit u = true →
  Raw.carry_step championsCache damageByUnit u
  = ret (carry_step championsCache damageByUnit (erase_unit u)).
Proof.
  destruct u as [u |]; [| done]. unfold readable_unit, Raw.carry_step, carry_step.
  change (positive_damage (erase_unit (Some u))) with (Raw.positive_damage u).
  destruct (Raw.positive_damage u); [| done]. cbn [negb orb]. intros Hu.
  by rewrite (getChampionName_named _ _ Hu).
Qed.


Lemma carry_stage_readable (damageByUnit : JS.object Stats.t)
    (stage : option Raw.TrackerStage.t) :
  carry_readable stage = true →
  Raw.carry_stage championsCache damageByUnit stage
  = ret (carry_stage championsCache damageByUnit (erase_stage stage)).
Proof.
  destruct stage as [stage |]; [| done]. unfold carry_readable, Raw.carry_stage, carry_stage.
  rewrite units_erase. destruct (Raw.TrackerStage.units stage) as [o |]; [| done].
  cbn [all_values fmap option_fmap option_map]. intros Ho.
  rewrite Object_values_erase.
  apply (foldM_readable _ readable_unit (carry_step championsCache) erase_unit); [| done].
  intros s x. apply carry_step_readable.
Qed.


Lemma calculateCarryStats_readable (stages : list (option Raw.TrackerStage.t)) :
  forallb carry_readable stages = true →
  Raw.calculateCarryStats championsCache stages
  = ret (calculateCarryStats championsCache (map erase_stage stages)).
Proof.
  intros Hstages. unfold Raw.calculateCarryStats, calculateCarryStats, damageByUnit.
  by rewrite (foldM_readable _ carry_readable (carry_stage championsCache) erase_stage
                stages [] (λ s x, carry_stage_readable s x) Hstages).
Qed.


(** *** The final board and the stage progression *)

Lemma last_board_pieces_erase (stages : list (option Raw.TrackerStage.t)) (i : Z) :
  index (map erase_stage stages) i ≫= TrackerStage.board_pieces
  = map_values erase_piece <$> (mjoin (index stages i) ≫= Raw.TrackerStage.board_pieces).
Proof.
  rewrite index_map. destruct (index stages i) as [[stage |] |]; [| done | done].
  apply board_pieces_erase.
Qed.

Lemma me_erase (stages : list (option Raw.TrackerStage.t)) (i : Z) :
  index (map erase_stage stages) i ≫= TrackerStage.me
  = mjoin (index stages i) ≫= Raw.TrackerStage.me.
Proof. rewrite index_map. by destruct (index stages i) as [[stage |] |]. Qed.

Lemma finalBoard_of_readable (stages : list (option Raw.TrackerStage.t)) :
  finalBoard_readable stages = true →
  Raw.finalBoard championsCache itemsCache stages
  = ret match index (map erase_stage stages) (Z.of_nat (length (map erase_stage stages)) - 1)
                ≫= TrackerStage.board_pieces with
        | Some o => map (board_unit championsCache itemsCache) (Object_values o)
        | None => []
        end.
Proof.
  unfold finalBoard_readable, Raw.finalBoard. rewrite last_board_pieces_erase, length_map.
  destruct (mjoin (index stages (Z.of_nat (length stages) - 1))
              ≫= Raw.TrackerStage.board_pieces) as [o |]; [| done].
  cbn [all_values fmap option_fmap option_map]. intros Ho.
  rewrite Object_values_erase.
  apply (mapM_readable _ readable_piece); [| done]. apply board_unit_readable.
Qed.


Lemma stageProgression_readable (mode : string) (stages : list (option Raw.TrackerStage.t)) :
  forallb not_null stages = true →
  progression_readable mode stages = true →
  Raw.stageProgression championsCache itemsCache mode stages
  = ret (if String.eqb mode "complete" then
           imap (λ idx (_ : TrackerStage.t),
                   formatStageData championsCache itemsCache (map erase_stage stages)
                     (Z.of_nat idx)) (map erase_stage stages)
         else
           map (λ idx, formatStageData championsCache itemsCache (map erase_stage stages) idx)
             (findKeyProgressionStages (map erase_stage stages))).
Proof.
  intros Hnull. unfold progression_readable, Raw.stageProgression.
  destruct (String.eqb mode "complete").
  - intros Hall.
    rewrite (imapM_indices
               (λ n, Raw.formatStageData championsCache itemsCache stages (Z.of_nat n)) stages).
    rewrite (imap_indices
               (λ n, formatStageData championsCache itemsCache (map erase_stage stages)
                       (Z.of_nat n)) (map erase_stage stages)).
    rewrite length_map.
    rewrite <- (mapM_map (Raw.formatStageData championsCache itemsCache stages) Z.of_nat).
    rewrite (mapM_readable (Raw.formatStageData championsCache itemsCache stages)
               (snapshot_readable_at stages)
               (formatStageData championsCache itemsCache (map erase_stage stages)) id _
               (λ i, formatStageData_readable_at _ _ stages i Hnull) Hall).
    by rewrite map_id, map_map.
  - intros Hkeys. rewrite (findKeyProgressionStages_not_null _ Hnull). cbn [bind ret].
    rewrite (mapM_readable (λ idx, Raw.formatStageData championsCache itemsCache stages idx)
               (snapshot_readable_at stages)
               (formatStageData championsCache itemsCache (map erase_stage stages)) id _
               (λ i, formatStageData_readable_at _ _ stages i Hnull) Hkeys).
    by rewrite map_id.
Qed.


End RawCarries.

(** *** The handler *)

Section RawHandler.
Context (gunzipSync : string → option string).
Context (JSON_parse_TrackerData : string → M Raw.TrackerData.t).
Context (JSON_parse_stages : string → option Raw.Stages).
Context (toLowerCase : string → string).

Abbreviation raw_handler :=
  (Raw.handleTftMatchTracker gunzipSync JSON_parse_TrackerData JSON_parse_stages toLowerCase).

Lemma assemble_readable (w : World.t) (matchId mode : string) (appMatch : AppMatch.t)
    (td : Raw.TrackerData.t) (stages : list (option Raw.TrackerStage.t)) :
  readable toLowerCase (Arguments.gameName (World.args w)) mode stages = true →
  ∃ rounds r,
    Raw.formatAllStages toLowerCase (Arguments.gameName (World.args w)) stages = ret rounds ∧
    assemble w matchId mode appMatch (erase_envelope td) (map erase_stage stages)
      = text_reply (Assembled r) false ∧
    Raw.assemble toLowerCase w matchId mode appMatch td stages
      = ret (text_reply (Assembled (with_rounds rounds r)) false).
Proof.
  unfold readable. rewrite !andb_true_iff. intros [[[Hsummary Hboard] Hcarry] Hprogression].
  destruct (formatAllStages_readable _ _ _ Hsummary) as [rounds Hrounds].
  pose proof (summary_readable_not_null _ _ _ Hsummary) as Hnull.
  exists rounds. eexists. split; [exact Hrounds |]. split; [reflexivity |].
  unfold Raw.assemble.
  rewrite Hrounds, (finalBoard_of_readable _ _ _ Hboard), (totals_not_null _ _ _ Hnull),
    (calculateCarryStats_readable _ _ Hcarry),
    (stageProgression_readable _ _ _ _ Hnull Hprogression).
  cbn [bind ret fst snd]. unfold with_rounds.
  cbn [Result.matchId Result.trackerUuid Result.server Result.summonerName Result.mode
       Result.portal Result.rank Result.set Result.totalRounds Result.summary
       Result.topCarries Result.finalBoard Result.stageProgression Result.roundProgression
       erase_envelope TrackerData.server TrackerData.summoner_name TrackerData.portal
       TrackerData.summoner_tier TrackerData.tft_set_core_name].
  rewrite !me_erase, !length_map.
  by destruct (String.eqb mode "summary").
Qed.







End RawHandler.

(** *** The normalizer on stages with missing parts *)

Lemma forallb_lookup {A : Type} (p : A → bool) (l : list A) (i : nat) (x : A) :
  forallb p l = true → l !! i = Some x → p x = true.
Proof.
  revert i. induction l as [| y l IH]; intros i; [done |]. cbn [forallb].
  intros [Hy Hl]%andb_true_iff. destruct i as [| i]; cbn.
  - by intros [= <-].
  - by apply IH.
Qed.

Lemma round_summary_fields (toLowerCase : string → string) (gameName : string) (i : nat)
    (stage : Raw.TrackerStage.t) (s : RoundSummary.t) :
  Raw.round_summary toLowerCase gameName i (Some stage) = ret s →
  RoundSummary.hp s = Player.health <$> (player_of <$> Raw.TrackerStage.me stage) ∧
  RoundSummary.gold s = Player.gold <$> (player_of <$> Raw.TrackerStage.me stage) ∧
  RoundSummary.level s = Player.level <$> (player_of <$> Raw.TrackerStage.me stage) ∧
  RoundSummary.boardSize s
  = (λ o : JS.object (option Raw.BoardPiece.t), Z.of_nat (length (Object_keys o)))
      <$> Raw.TrackerStage.board_pieces stage ∧
  Raw.outcome_field toLowerCase gameName stage = ret (RoundSummary.outcome s).
Proof.
  unfold Raw.round_summary.
  destruct (Raw.outcome_field toLowerCase gameName stage) as [e | outcome]; [done |].
  cbn [bind ret]. by intros [= <-].
Qed.


(** X15: when no stage is null and no outcome entry under the player's
    key is null, [formatAllStages] returns, and the [outcome] of the
    summary of a round is the outcome recorded under the first key, in the
    order of the record, whose lower case holds the lower case of the
    player's game name; there is none exactly when no key holds it. *)
Theorem outcome_is_first_match (toLowerCase : string → string) (gameName : string)
    (stages : list (option Raw.TrackerStage.t)) (i : nat) (stage : Raw.TrackerStage.t)
    (outcomes : JS.object (option RoundOutcome.t)) :
  stages !! i = Some (Some stage) →
  Raw.TrackerStage.round_outcome stage = Some outcomes →
  forallb (summary_readable toLowerCase gameName) stages = true →
  ∃ rounds s,
    Raw.formatAllStages toLowerCase gameName stages = ret rounds ∧
    rounds !! i = Some s ∧
    (RoundSummary.outcome s = None ↔
     Forall (λ e, ¬ names_player toLowerCase gameName e.1) outcomes) ∧
    (∀ x, RoundSummary.outcome s = Some x ↔
       ∃ pre k v post,
         outcomes = pre ++ (k, Some v) :: post ∧
         Forall (λ e, ¬ names_player toLowerCase gameName e.1) pre ∧
         names_player toLowerCase gameName k ∧
         RoundOutcome.outcome v = x).
Proof.
  intros Hi Houtcomes Hreadable.
  destruct (formatAllStages_readable _ _ _ Hreadable) as [rounds Hrounds].
  destruct (imapM_lookup _ _ _ i _ Hrounds Hi) as (s & Hs & Hsummary).
  apply round_summary_fields in Hsummary as (_ & _ & _ & _ & Houtcome).
  pose proof (forallb_lookup _ _ _ _ Hreadable Hi) as Hstage.
  exists rounds, s. split; [done |]. split; [done |].
  unfold summary_readable in Hstage. unfold Raw.outcome_field in Houtcome.
  rewrite Houtcomes in Hstage, Houtcome. unfold Raw.my_outcome in Hstage, Houtcome.
  set (p := λ e : string * option RoundOutcome.t,
              JS.includes (toLowerCase e.1) (toLowerCase gameName)) in *.
  assert (Hp : ∀ l, Forall (λ e, p e = false) l
                    ↔ Forall (λ e : string * option RoundOutcome.t,
                                ¬ names_player toLowerCase gameName e.1) l).
  { intros l. apply Forall_iff. intros e. unfold p, names_player.
    rewrite <- includes_spec. by destruct (JS.includes _ _). }
  destruct (List.find p outcomes) as [[k [entry |]] |] eqn:Hfind; [| done |].
  - injection Houtcome as <-. split.
    + split; [done |]. intros Hnone%Hp%find_none. congruence.
    + intros x. split.
      * intros [= <-]. apply find_first in Hfind as (pre & post & -> & Hpre & Hk).
        exists pre, k, entry, post. split; [done |]. split; [by apply Hp |].
        split; [| done]. by apply includes_spec.
      * intros (pre & k' & v & post & -> & Hpre & Hk & <-).
        assert (Hfind' : List.find p (pre ++ (k', Some v) :: post) = Some (k', Some v)).
        { apply find_first. exists pre, post. split; [done |]. split; [by apply Hp |].
          by apply includes_spec. }
        rewrite Hfind' in Hfind. by injection Hfind as _ <-.
  - injection Houtcome as <-. split.
    + split; [| done]. intros _. by apply Hp, find_none.
    + intros x. split; [done |].
      intros (pre & k & v & post & -> & Hpre & Hk & _).
      assert (Hfind' : List.find p (pre ++ (k, Some v) :: post) = Some (k, Some v)).
      { apply find_first. exists pre, post. split; [done |]. split; [by apply Hp |].
        by apply includes_spec. }
      congruence.
Qed.

(** *** Payloads of the interfaces *)

Lemma map_values_map_values {A B C : Type} (f : A → B) (g : B → C) (o : JS.object A) :
  map_values g (map_values f o) = map_values (λ v, g (f v)) o.
Proof. unfold map_values. rewrite map_map. done. Qed.

Lemma map_values_id {A : Type} (f : A → A) (o : JS.object A) :
  (∀ v, f v = v) → map_values f o = o.
Proof.
  intros Hf. unfold map_values. induction o as [| [k v] o IH]; [done |].
  cbn [map fst snd]. by rewrite Hf, IH.
Qed.

Lemma map_field_map_field {A B : Type} (f : A → B) (g : B → A)
    (x : option (option (JS.object A))) :
  (∀ v, g (f v) = v) → map_field g (map_field f x) = x.
Proof.
  intros Hgf. destruct x as [[o |] |]; [| done | done]. cbn [map_field].
  by rewrite map_values_map_values, (map_values_id _ o Hgf).
Qed.

Lemma erase_lift_shop (s : Shop.t) : erase_shop (lift_shop s) = s.
Proof.
  destruct s as [[o |]]; [| done]. unfold lift_shop, erase_shop.
  cbn [Raw.Shop.shop_pieces Shop.shop_pieces fmap option_fmap option_map].
  rewrite map_values_map_values, map_values_id; [done |]. by intros [name].
Qed.

Lemma erase_lift_stage (s : TrackerStage.t) : erase_stage (lift_stage s) = s.
Proof.
  destruct s as [board bench me roster match_info damage gold rerolls metrics shops].
  unfold lift_stage, erase_stage.
  cbn [Raw.TrackerStage.board Raw.TrackerStage.bench Raw.TrackerStage.me
       Raw.TrackerStage.roster Raw.TrackerStage.match_info
       Raw.TrackerStage.local_player_damage Raw.TrackerStage.gold_earned
       Raw.TrackerStage.rerolls Raw.TrackerStage.metrics Raw.TrackerStage.shops
       TrackerStage.board TrackerStage.bench TrackerStage.me TrackerStage.roster
       TrackerStage.match_info TrackerStage.local_player_damage TrackerStage.gold_earned
       TrackerStage.rerolls TrackerStage.metrics TrackerStage.shops].
  rewrite !map_field_map_field; [| by intros [] | done | by intros [] | by intros []].
  f_equal.
  - destruct match_info as [[round_type [o |] opponent] |]; [| done | done].
    unfold lift_match_info, erase_match_info.
    cbn [fmap option_fmap option_map Raw.MatchInfo.round_type Raw.MatchInfo.round_outcome
         Raw.MatchInfo.opponent MatchInfo.round_type MatchInfo.round_outcome
         MatchInfo.opponent].
    rewrite map_values_map_values, map_values_id; done.
  - destruct shops as [l |]; [| done]. cbn [fmap option_fmap option_map]. f_equal.
    rewrite map_map.
    induction l as [| x l IH]; [done |]. cbn [map]. by rewrite erase_lift_shop, IH.
Qed.

Lemma erase_lift_stages (stages : list TrackerStage.t) :
  map erase_stage (map lift_stage stages) = stages.
Proof.
  rewrite map_map. induction stages as [| s stages IH]; [done |].
  cbn [map]. by rewrite erase_lift_stage, IH.
Qed.

Lemma erase_lift_envelope (td : TrackerData.t) : erase_envelope (lift_envelope td) = td.
Proof.
  destruct td as [? ? ? ? [text | stages |] ? ? ?]; [done | | done].
  unfold lift_envelope, erase_envelope. cbn. by rewrite erase_lift_stages.
Qed.

Lemma forallb_all {A : Type} (p : A → bool) (l : list A) :
  (∀ x, In x l → p x = true) → forallb p l = true.
Proof. intros Hp. by apply forallb_forall. Qed.

Lemma all_values_lift {A B : Type} (p : B → bool) (f : A → B) (o : option (JS.object A)) :
  (∀ v, p (f v) = true) → all_values p (map_values f <$> o) = true.
Proof.
  intros Hp. destruct o as [o |]; [| done]. cbn. rewrite Object_values_erase, forallb_values.
  by apply forallb_all.
Qed.

Lemma board_pieces_lift (s : TrackerStage.t) (s' : Raw.TrackerStage.t) :
  lift_stage s = Some s' →
  Raw.TrackerStage.board_pieces s' = map_values lift_piece <$> TrackerStage.board_pieces s.
Proof. intros [= <-]. by destruct s as [[[o |] |] ? ? ? ? ? ? ? ? ?]. Qed.

Lemma bench_pieces_lift (s : TrackerStage.t) (s' : Raw.TrackerStage.t) :
  lift_stage s = Some s' →
  Raw.TrackerStage.bench_pieces s' = map_values lift_piece <$> TrackerStage.bench_pieces s.
Proof. intros [= <-]. by destruct s as [? [[o |] |] ? ? ? ? ? ? ? ?]. Qed.

Lemma player_status_lift (s : TrackerStage.t) (s' : Raw.TrackerStage.t) :
  lift_stage s = Some s' →
  Raw.TrackerStage.player_status s' = map_values Some <$> TrackerStage.player_status s.
Proof. intros [= <-]. by destruct s as [? ? ? [[o |] |] ? ? ? ? ? ?]. Qed.

Lemma units_lift (s : TrackerStage.t) (s' : Raw.TrackerStage.t) :
  lift_stage s = Some s' →
  Raw.TrackerStage.units s' = map_values lift_unit <$> TrackerStage.units s.
Proof. intros [= <-]. by destruct s as [? ? ? ? ? [[o |] |] ? ? ? ?]. Qed.

Lemma round_outcome_lift (s : TrackerStage.t) (s' : Raw.TrackerStage.t) :
  lift_stage s = Some s' →
  Raw.TrackerStage.round_outcome s'
  = map_values Some <$> (TrackerStage.match_info s ≫= MatchInfo.round_outcome).
Proof. intros [= <-]. by destruct s as [? ? ? ? [mi |] ? ? ? ? ?]. Qed.

Lemma last_shop_pieces_lift (s : TrackerStage.t) (s' : Raw.TrackerStage.t) :
  lift_stage s = Some s' →
  ∃ o, Raw.TrackerStage.last_shop_pieces s' = map_values lift_shop_piece <$> o.
Proof.
  intros [= <-]. destruct s as [? ? ? ? ? ? ? ? ? [l |]]; [| by exists None].
  unfold Raw.TrackerStage.last_shop_pieces. cbn. rewrite last_map.
  destruct (last l) as [[o] |]; [by exists o | by exists None].
Qed.

Lemma snapshot_readable_lift (s : TrackerStage.t) (s' : Raw.TrackerStage.t) :
  lift_stage s = Some s' → snapshot_readable s' = true.
Proof.
  intros Hs. unfold snapshot_readable.
  destruct (last_shop_pieces_lift s s' Hs) as [o ->].
  rewrite (board_pieces_lift s s' Hs), (bench_pieces_lift s s' Hs), (units_lift s s' Hs),
    (player_status_lift s s' Hs).
  rewrite !all_values_lift; [done | done | done | | done | done].
  intros u. unfold lift_unit, readable_unit. cbn. apply orb_true_r.
Qed.

Lemma find_map_values {A B : Type} (f : A → B) (p : string * B → bool) (o : JS.object A) :
  List.find p (map_values f o)
  = (λ e : string * A, (e.1, f e.2)) <$> List.find (λ e, p (e.1, f e.2)) o.
Proof.
  unfold map_values. induction o as [| e o IH]; [done |]. cbn [map List.find].
  by destruct (p (e.1, f e.2)).
Qed.

Lemma round_summary_lift (gameName : string) (i : nat) (s : TrackerStage.t) :
  Raw.round_summary JS.toLowerCase gameName i (lift_stage s)
  = ret (round_summary gameName i s).
Proof.
  unfold lift_stage at 1. cbn [Raw.round_summary].
  assert (Houtcome : Raw.outcome_field JS.toLowerCase gameName
                       (Raw.TrackerStage.mk
                          (map_field lift_piece (TrackerStage.board s))
                          (map_field lift_piece (TrackerStage.bench s))
                          (TrackerStage.me s)
                          (map_field Some (TrackerStage.roster s))
                          (lift_match_info <$> TrackerStage.match_info s)
                          (map_field lift_unit (TrackerStage.local_player_damage s))
                          (TrackerStage.gold_earned s)
                          (TrackerStage.rerolls s)
                          (TrackerStage.metrics s)
                          (map lift_shop <$> TrackerStage.shops s))
                     = ret (RoundSummary.outcome (round_summary gameName i s))).
  { unfold Raw.outcome_field, Raw.TrackerStage.round_outcome.
    cbn [round_summary RoundSummary.outcome Raw.TrackerStage.match_info].
    destruct (TrackerStage.match_info s) as [[round_type [o |] opponent] |]; [| done | done].
    cbn [fmap option_fmap option_map lift_match_info Raw.MatchInfo.round_outcome
         MatchInfo.round_outcome mbind option_bind].
    unfold Raw.my_outcome. rewrite find_map_values. cbn [fst snd].
    by destruct (List.find _ o) as [[k v] |]. }
  rewrite Houtcome. cbn [bind ret]. unfold round_summary. f_equal. f_equal.
  - by destruct s as [? ? ? ? [mi |] ? ? ? ? ?].
  - by destruct s as [? ? ? ? [mi |] ? ? ? ? ?].
  - rewrite (board_pieces_lift s _ eq_refl).
    destruct (TrackerStage.board_pieces s) as [o |]; [| done]. cbn.
    by rewrite Object_keys_erase.
Qed.

Lemma formatAllStages_lift (gameName : string) (stages : list TrackerStage.t) :
  Raw.formatAllStages JS.toLowerCase gameName (map lift_stage stages)
  = ret (formatAllStages gameName stages).
Proof.
  unfold Raw.formatAllStages, formatAllStages.
  generalize (round_summary_lift gameName).
  generalize (round_summary gameName) (Raw.round_summary JS.toLowerCase gameName).
  intros g f Hfg. revert f g Hfg.
  induction stages as [| s stages IH]; intros f g Hfg; [done |].
  cbn [map Raw.imapM imap]. rewrite Hfg. cbn [bind ret].
  by rewrite (IH (λ i, f (S i)) (λ i, g (S i)) (λ i, Hfg (S i))).
Qed.

Lemma readable_lift (gameName mode : string) (stages : list TrackerStage.t) :
  readable JS.toLowerCase gameName mode (map lift_stage stages) = true.
Proof.
  assert (Hsnapshot : ∀ i, snapshot_readable_at (map lift_stage stages) i = true).
  { intros i. unfold snapshot_readable_at. rewrite index_map.
    destruct (index stages i) as [s |]; [| done]. cbn [fmap option_fmap option_map].
    destruct (lift_stage s) as [s' |] eqn:Hs; [| done]. by apply (snapshot_readable_lift s). }
  unfold readable. rewrite !andb_true_iff. split; [split; [split |] |].
  - rewrite forallb_values. apply forallb_all. intros s _.
    unfold summary_readable.
    destruct (lift_stage s) as [s' |] eqn:Hs; [| done].
    rewrite (round_outcome_lift s s' Hs).
    destruct (TrackerStage.match_info s ≫= MatchInfo.round_outcome) as [o |]; [| done].
    cbn [fmap option_fmap option_map]. unfold Raw.my_outcome. rewrite find_map_values.
    by destruct (List.find _ o) as [[k v] |].
  - unfold finalBoard_readable. rewrite index_map.
    destruct (index stages _) as [s |]; [| done]. cbn [fmap option_fmap option_map mjoin].
    destruct (lift_stage s) as [s' |] eqn:Hs; [| done]. cbn [option_join mbind option_bind].
    rewrite (board_pieces_lift s s' Hs). by apply all_values_lift.
  - rewrite forallb_values. apply forallb_all. intros s _. unfold carry_readable.
    destruct (lift_stage s) as [s' |] eqn:Hs; [| done].
    rewrite (units_lift s s' Hs). apply all_values_lift.
    intros u. unfold lift_unit, readable_unit. cbn. apply orb_true_r.
  - unfold progression_readable.
    destruct (String.eqb mode "complete"); apply forallb_all; intros i _; apply Hsnapshot.
Qed.

Lemma assemble_lift (w : World.t) (matchId mode : string) (appMatch : AppMatch.t)
    (td : TrackerData.t) (stages : list TrackerStage.t) :
  Raw.assemble JS.toLowerCase w matchId mode appMatch (lift_envelope td)
    (map lift_stage stages)
  = ret (assemble w matchId mode appMatch td stages).
Proof.
  destruct (assemble_readable JS.toLowerCase w matchId mode appMatch (lift_envelope td)
              (map lift_stage stages) (readable_lift _ mode stages))
    as (rounds & r & Hrounds & Hr & ->).
  rewrite formatAllStages_lift in Hrounds. injection Hrounds as <-.
  rewrite erase_lift_envelope, erase_lift_stages in Hr. rewrite Hr.
  unfold assemble, text_reply in Hr. injection Hr as <-.
  unfold with_rounds. cbn. by destruct (String.eqb mode "summary").
Qed.

Lemma array_ToString_lift (stages : list TrackerStage.t) :
  Raw.array_ToString (map lift_stage stages) = array_ToString stages.
Proof.
  induction stages as [| s [| s' stages] IH]; [done | done |].
  change (Raw.array_ToString (map lift_stage (s :: s' :: stages)))
    with ("[object Object]" +:+ "," +:+ Raw.array_ToString (map lift_stage (s' :: stages))).
  rewrite IH. done.
Qed.

(** On a payload of the interfaces, with the lower case of ASCII, the
    handler for payloads with gaps is the handler of the first part. *)
Lemma interface_payloads_agree (gunzipSync : string → option string)
    (JSON_parse_TrackerData : string → M TrackerData.t)
    (JSON_parse_stages : string → option Stages) (w : World.t) (params : Params.t) :
  Raw.handleTftMatchTracker gunzipSync
    (λ text, bind (JSON_parse_TrackerData text) (λ td, ret (lift_envelope td)))
    (λ text, lift_stages <$> JSON_parse_stages text)
    JS.toLowerCase w params
  = handleTftMatchTracker gunzipSync JSON_parse_TrackerData JSON_parse_stages w params.
Proof.
  unfold Raw.handleTftMatchTracker, handleTftMatchTracker, Raw.run, run.
  destruct (World.fetchMetaTFTProfile w) as [[msg] | profile]; [done |]. cbn [bind ret].
  destruct (ProfileResponse.app_matches profile) as [[| m ms] |]; [done | | done].
  destruct (List.find _ (m :: ms)) as [appMatch |]; [| done].
  unfold Raw.fetchTrackerData, fetchTrackerData.
  destruct (World.fetch w _) as [[msg] | response]; [done |]. cbn [bind ret].
  destruct (negb (Response.ok response)); [done |].
  destruct (JSON_parse_TrackerData _) as [[msg] | td]; [done |]. cbn [bind ret].
  unfold Raw.pipeline, pipeline, Raw.parse_stage_data, parse_stage_data.
  assert (Htext : Raw.StageData_ToString (Raw.TrackerData.stage_data (lift_envelope td))
                  = StageData_ToString (TrackerData.stage_data td)).
  { destruct td as [? ? ? ? [text | stages |] ? ? ?]; [done | | done].
    apply array_ToString_lift. }
  rewrite Htext.
  assert (Hstages :
    match lift_stages <$> JSON_parse_stages (StageData_ToString (TrackerData.stage_data td)) with
    | Some v => v
    | None => Raw.StageData_value (Raw.TrackerData.stage_data (lift_envelope td))
    end
    = lift_stages match JSON_parse_stages (StageData_ToString (TrackerData.stage_data td)) with
                  | Some v => v
                  | None => StageData_value (TrackerData.stage_data td)
                  end).
  { destruct (JSON_parse_stages _) as [v |]; [done |].
    by destruct td as [? ? ? ? [text | stages |] ? ? ?]. }
  rewrite Hstages.
  destruct (match JSON_parse_stages (StageData_ToString (TrackerData.stage_data td)) with
            | Some v => v
            | None => StageData_value (TrackerData.stage_data td)
            end) as [stages | | |]; [| done | done | done].
  cbn [lift_stages Raw.as_array as_array bind ret].
  by rewrite assemble_lift.
Qed.

(** *** Sample runs on payloads with gaps *)





Lemma outcome_is_first_match_witness :
  ∃ rounds s,
    Raw.formatAllStages JS.toLowerCase "Player" [Some bare_stage; Some gapped_stage]
    = ret rounds ∧
    rounds !! 1%nat = Some s ∧
    (RoundSummary.outcome s = None ↔
     Forall (λ e : string * option RoundOutcome.t,
               ¬ names_player JS.toLowerCase "Player" e.1) gapped_outcomes) ∧
    (∀ x, RoundSummary.outcome s = Some x ↔
       ∃ pre k v post,
         gapped_outcomes = pre ++ (k, Some v) :: post ∧
         Forall (λ e : string * option RoundOutcome.t,
                   ¬ names_player JS.toLowerCase "Player" e.1) pre ∧
         names_player JS.toLowerCase "Player" k ∧
         RoundOutcome.outcome v = x).
Proof.
  apply (outcome_is_first_match JS.toLowerCase "Player" [Some bare_stage; Some gapped_stage]
           1 gapped_stage gapped_outcomes); reflexivity.
Defined.
